(** * Run orchestration and provider polling of outlight-img2img

    A shallow embedding of
    - [src/app/page.tsx] (and its near-verbatim variant): the run registry,
      the per-run worker pool over one shared cursor, cancellation, deletion
      and eviction;
    - [src/app/api/generate/route.ts] (and its variant): reference
      resolution, the Seedream create-then-poll branch and the Gemini
      artifact extraction.

    React state is modelled by explicit state passing: every [setRuns]
    updater is a function on the list of runs, applied in program order.
    Everything the outside world decides (fetch replies, the clock, fresh
    UUIDs) is an input of the step functions. *)

From Stdlib Require Import ZArith String Ascii List Lia Bool DecimalString.
From stdpp Require Import base decidable option list gmap strings.

Set Warnings "-register-all".

Local Open Scope string_scope.
Local Open Scope list_scope.

(* ===================================================================== *)
(** ** JavaScript values as they come out of [JSON.parse] *)
(* ===================================================================== *)

(** Numbers are kept to the integral ones: the code below only tests
    numbers for truthiness and prints them. A JavaScript number is a
    double, so [VNum n] stands for a value only when [n] is one; the
    statements that print a number are made for [printable] values, defined
    below. Objects are association lists read left to right. *)
Inductive Val : Type :=
  | VUndef
  | VNull
  | VBool (b : bool)
  | VNum (n : Z)
  | VStr (s : string)
  | VArr (xs : list Val)
  | VObj (fields : list (string * Val)).

(** JavaScript truthiness ([if (v)], [v || d], [filter(Boolean)]). *)
Definition truthy (v : Val) : bool :=
  match v with
  | VUndef | VNull => false
  | VBool b => b
  | VNum n => negb (n =? 0)%Z
  | VStr s => negb (String.eqb s "")
  | VArr _ | VObj _ => true
  end.

(** [a || b] and [a ?? b]. *)
Definition js_or (a b : Val) : Val := if truthy a then a else b.

Definition nullish (v : Val) : bool :=
  match v with VUndef | VNull => true | _ => false end.

Definition js_coalesce (a b : Val) : Val := if nullish a then b else a.

Fixpoint assoc (k : string) (fs : list (string * Val)) : Val :=
  match fs with
  | [] => VUndef
  | (k', v) :: fs' => if String.eqb k k' then v else assoc k fs'
  end.

(** Optional member access [v?.k] for the property names this code reads.
    None of them is defined on arrays, strings, numbers or booleans, apart
    from [length]. *)
Definition get (v : Val) (k : string) : Val :=
  match v with
  | VObj fs => assoc k fs
  | VArr xs => if String.eqb k "length" then VNum (Z.of_nat (List.length xs)) else VUndef
  | VStr s => if String.eqb k "length" then VNum (Z.of_nat (String.length s)) else VUndef
  | _ => VUndef
  end.

(** Optional element access [v?.[0]]. *)
Definition get0 (v : Val) : Val :=
  match v with
  | VArr xs => match xs with x :: _ => x | [] => VUndef end
  | VStr s => match s with String c _ => VStr (String c EmptyString) | EmptyString => VUndef end
  | VObj fs => assoc "0" fs
  | _ => VUndef
  end.

Definition string_of_Z (n : Z) : string :=
  NilZero.string_of_int (Z.to_int n).

Definition join_with (sep : string) (ss : list string) : string :=
  match ss with
  | [] => ""
  | s :: ss' => fold_left (fun acc t => acc +:+ sep +:+ t) ss' s
  end.

(** [String(v)], as a template literal applies it, for the values that
    are [printable] (below). *)
Fixpoint to_String (v : Val) : string :=
  match v with
  | VUndef => "undefined"
  | VNull => "null"
  | VBool true => "true"
  | VBool false => "false"
  | VNum n => string_of_Z n
  | VStr s => s
  | VArr xs =>
      join_with ","
        (List.map (fun x => if nullish x then "" else to_String x) xs)
  | VObj _ => "[object Object]"
  end.

(** The values on which [to_String] is the conversion JavaScript makes.
    An integer of magnitude up to 2^53 is a double and is printed with all
    its digits ([String(1e21)] is ["1e+21"], and beyond 2^53 not every
    integer is a double). An object is printed [[object Object]] by
    [Object.prototype.toString] unless a field of its own named [toString]
    hides that method, in which case the conversion throws. *)
Fixpoint printable (v : Val) : bool :=
  match v with
  | VNum n => (Z.abs n <=? 2 ^ 53)%Z
  | VArr xs => forallb printable xs
  | VObj fs =>
      forallb (fun '(k, x) => negb (String.eqb k "toString") && printable x) fs
  | _ => true
  end.

(** [s.startsWith(p)]. *)
Definition startsWith (p s : string) : bool := String.prefix p s.

(** A JavaScript string used as a condition: the empty string is falsy. *)
Definition nonempty (s : string) : bool := negb (String.eqb s "").

(** [s || d] on optional strings ([undefined], [null] and [""] are falsy). *)
Definition str_or (s : option string) (d : string) : string :=
  match s with
  | Some x => if nonempty x then x else d
  | None => d
  end.

(* ===================================================================== *)
(** ** The page: runs, registry and worker pool ([src/app/page.tsx]) *)
(* ===================================================================== *)

(** [src/lib/models.ts] *)
Inductive Provider := nanobanana | seedream.

Record ModelDef := {
  model_id : string;
  label : string;
  version : string;
  provider : Provider;
}.

Definition MODEL_LIST : list ModelDef :=
  [ {| model_id := "nanobanana-v1"; label := "Nano Banana"; version := "v1";
       provider := nanobanana |};
    {| model_id := "seedream-v4-edit"; label := "Seedream"; version := "v4-edit";
       provider := seedream |} ].

Definition getModelById (i : string) : option ModelDef :=
  List.find (fun m => String.eqb (model_id m) i) MODEL_LIST.

Record Product := {
  prod_id : string;
  prod_name : string;
  slug : string;
  image_url : string;
}.

Record GenImage := {
  img_id : string;
  img_prompt : string;
  imageDataUrl : option string;   (* [json.imageDataUrl]; [None] is [undefined] *)
}.

Inductive RunStatus := Idle | Running | Done | Cancelled | Error.

Global Instance RunStatus_eq_dec : EqDecision RunStatus.
Proof. solve_decision. Defined.

Record Progress := { done : nat; total : nat }.

(** An [AbortController] is a handle into the store of aborted signals kept
    in the application state: every copy [{...r}] of a run shares the
    controller of the original. The run's [name] is [Run #n]; the model
    keeps the number [n]. *)
Record Run := {
  run_id : string;
  name : nat;
  startedAt : Z;
  modelId : string;
  modelNameDisplay : string;
  productId : option string;
  productName : string;
  referenceUrl : string;
  prompts : list string;
  status : RunStatus;
  error : option string;
  debug : option Val;
  images : list GenImage;
  activeIdx : nat;
  selectedIdx : gset nat;
  progress : Progress;
  speed : Z;
  controller : option nat;
}.

Definition with_status (st : RunStatus) (r : Run) : Run :=
  {| run_id := run_id r; name := name r; startedAt := startedAt r;
     modelId := modelId r; modelNameDisplay := modelNameDisplay r;
     productId := productId r; productName := productName r;
     referenceUrl := referenceUrl r; prompts := prompts r;
     status := st; error := error r; debug := debug r;
     images := images r; activeIdx := activeIdx r;
     selectedIdx := selectedIdx r; progress := progress r;
     speed := speed r; controller := controller r |}.

Definition with_error (st : RunStatus) (msg : string) (dbg : option Val) (r : Run) : Run :=
  {| run_id := run_id r; name := name r; startedAt := startedAt r;
     modelId := modelId r; modelNameDisplay := modelNameDisplay r;
     productId := productId r; productName := productName r;
     referenceUrl := referenceUrl r; prompts := prompts r;
     status := st; error := Some msg; debug := dbg;
     images := images r; activeIdx := activeIdx r;
     selectedIdx := selectedIdx r; progress := progress r;
     speed := speed r; controller := controller r |}.

Definition with_images (imgs : list GenImage) (act : nat) (r : Run) : Run :=
  {| run_id := run_id r; name := name r; startedAt := startedAt r;
     modelId := modelId r; modelNameDisplay := modelNameDisplay r;
     productId := productId r; productName := productName r;
     referenceUrl := referenceUrl r; prompts := prompts r;
     status := status r; error := error r; debug := debug r;
     images := imgs; activeIdx := act;
     selectedIdx := selectedIdx r; progress := progress r;
     speed := speed r; controller := controller r |}.

Definition with_progress (pr : Progress) (r : Run) : Run :=
  {| run_id := run_id r; name := name r; startedAt := startedAt r;
     modelId := modelId r; modelNameDisplay := modelNameDisplay r;
     productId := productId r; productName := productName r;
     referenceUrl := referenceUrl r; prompts := prompts r;
     status := status r; error := error r; debug := debug r;
     images := images r; activeIdx := activeIdx r;
     selectedIdx := selectedIdx r; progress := pr;
     speed := speed r; controller := controller r |}.

Definition with_selectedIdx (sel : gset nat) (r : Run) : Run :=
  {| run_id := run_id r; name := name r; startedAt := startedAt r;
     modelId := modelId r; modelNameDisplay := modelNameDisplay r;
     productId := productId r; productName := productName r;
     referenceUrl := referenceUrl r; prompts := prompts r;
     status := status r; error := error r; debug := debug r;
     images := images r; activeIdx := activeIdx r;
     selectedIdx := sel; progress := progress r;
     speed := speed r; controller := controller r |}.

(** [prevRuns.map((r) => { if (r.id !== runId) return r; return f(r) })] *)
Definition updateRun (runId : string) (f : Run -> Run) (prevRuns : list Run) : list Run :=
  (fun r => if decide (run_id r = runId) then f r else r) <$> prevRuns.

(** [c?.abort()] on the store of aborted signals. *)
Definition abort (c : option nat) (ab : gset nat) : gset nat :=
  match c with
  | Some h => {[ h ]} ∪ ab
  | None => ab
  end.

(** The updaters of [runGenerator]. *)
Definition pushImage (runId : string) (img : GenImage) : list Run -> list Run :=
  updateRun runId (fun r =>
    let imgs := images r ++ [img] in
    let act := if decide (List.length imgs = 1) then 0 else activeIdx r in
    with_images imgs act r).

Definition incProgress (runId : string) : list Run -> list Run :=
  updateRun runId (fun r =>
    with_progress {| done := done (progress r) + 1; total := total (progress r) |} r).

Definition setError (runId : string) (message : string) (dbg : option Val)
  : list Run -> list Run :=
  updateRun runId (with_error Error message dbg).

(** The last [setRuns] of [runGenerator], after [Promise.all]. *)
Definition finishRun (runId : string) : list Run -> list Run :=
  updateRun runId (fun r =>
    if decide (status r = Running) then with_status Done r else r).

Definition toggleSelect (runId : string) (idx : nat) : list Run -> list Run :=
  updateRun runId (fun r =>
    let copy := selectedIdx r in
    with_selectedIdx
      (if decide (idx ∈ copy) then copy ∖ {[ idx ]} else copy ∪ {[ idx ]}) r).

(** *** The request sent to [/api/generate] (type [PostBody] of the route) *)

Record Options := {
  image_size : option string;
  image_resolution : option string;
  max_images : option Z;
  seed : option Z;              (* [null] and [undefined] are both [None] *)
}.

Record PostBody := {
  pb_modelId : string;
  pb_productId : option string;
  pb_customUrl : option string;
  pb_prompt : string;
  pb_options : option Options;
}.

(** *** What the component holds when [onGenerateNewRun] is called *)

Record UI := {
  products : list Product;
  selectedId : string;
  customUrl : string;
  ui_modelId : string;
  promptLines : list string;
  ui_speed : Z;
  sdSize : string;
  sdRes : string;
  sdMax : Z;
  sdSeed : option Z;            (* [None] is the empty input [""] *)
}.

Definition selected (ui : UI) : option Product :=
  List.find (fun p => String.eqb (prod_id p) (selectedId ui)) (products ui).

Definition ui_productName (ui : UI) : string :=
  match selected ui with Some p => prod_name p | None => "Custom" end.

(** [selectedId === "custom" ? customUrl : selected?.image_url] *)
Definition ui_referenceUrl (ui : UI) : option string :=
  if String.eqb (selectedId ui) "custom" then Some (customUrl ui)
  else image_url <$> selected ui.

Definition ui_modelNameDisplay (ui : UI) : string :=
  match getModelById (ui_modelId ui) with
  | Some m => label m +:+ "-" +:+ version m
  | None => ""                  (* the component does not render *)
  end.

(** *** The worker pool of one [runGenerator] call *)

Inductive Worker := Awaiting (idx : nat) | Exited.

Global Instance Worker_eq_dec : EqDecision Worker.
Proof. solve_decision. Defined.

(** The parsed body of a reply of [/api/generate] ([{}] when it does not
    parse: every field [None]). *)
Record GenBody := {
  b_error : option string;
  b_debug : option Val;
  b_imageDataUrl : option string;
}.

(** What [await fetch(...)] gives a worker: a response, or an exception
    with its [name] and [message]. *)
Inductive Reply :=
  | Responded (ok : bool) (json : GenBody)
  | Rejected (ename : string) (emessage : option string).

(** Instrumentation, not in the source: what a worker passed on for an
    index. *)
Inductive Outcome :=
  | Success (img : GenImage)
  | Failure (message : string) (dbg : option Val).

Definition is_success (o : Outcome) : bool :=
  match o with Success _ => true | Failure _ _ => false end.

(** [p_run] and [p_ui] are what the closures of [runGenerator] captured;
    [cursor] and [workers] are its live state. [p_log] (index and outcome
    of every reply handed on, in order of arrival) and [p_dropped] (indices
    whose request threw) are instrumentation. *)
Record Pool := {
  p_run : Run;
  p_ui : UI;
  cursor : nat;
  workers : list Worker;
  p_log : list (nat * Outcome);
  p_dropped : list nat;
}.

Definition p_total (p : Pool) : nat := List.length (prompts (p_run p)).

(** Head of the worker loop:
    [const idx = cursor; if (idx >= total) return; cursor++;] and the
    request for [idx] is sent. *)
Definition worker_loop (tot cur : nat) : Worker * nat :=
  if decide (tot <= cur) then (Exited, cur) else (Awaiting cur, S cur).

(** [for (let i = 0; i < parallel; i++) workers.push(worker())]: each call
    runs up to its first [await]. *)
Fixpoint spawn (parallel tot cur : nat) : list Worker * nat :=
  match parallel with
  | O => ([], cur)
  | S n =>
      let '(w, cur1) := worker_loop tot cur in
      let '(ws, cur2) := spawn n tot cur1 in
      (w :: ws, cur2)
  end.

(** [Math.max(1, Math.min(3, run.speed))] *)
Definition parallelism (sp : Z) : nat := Z.to_nat (Z.max 1 (Z.min 3 sp)).

(** The body of the request for prompt [idx]. *)
Definition request_body (p : Pool) (idx : nat) : PostBody :=
  let run := p_run p in
  {| pb_modelId := modelId run;
     pb_productId := productId run;
     pb_customUrl :=
       match productId run with
       | Some i => if nonempty i then None else Some (referenceUrl run)
       | None => Some (referenceUrl run)
       end;
     pb_prompt := nth idx (prompts run) "";
     pb_options :=
       match provider <$> getModelById (modelId run) with
       | Some seedream =>
           Some {| image_size := Some (sdSize (p_ui p));
                   image_resolution := Some (sdRes (p_ui p));
                   max_images := Some (sdMax (p_ui p));
                   seed := sdSeed (p_ui p) |}
       | _ => None
       end |}.

Definition set_worker (w : nat) (x : Worker) (cur : nat)
    (lg : list (nat * Outcome)) (dr : list nat) (p : Pool) : Pool :=
  {| p_run := p_run p; p_ui := p_ui p; cursor := cur;
     workers := <[ w := x ]> (workers p); p_log := lg; p_dropped := dr |}.

(** Worker [w], waiting on the request for [idx], is resumed with [rep]:
    the rest of the loop body, then the head of the next iteration.
    [imgId] is the [crypto.randomUUID()] of the image. *)
Definition worker_resume (p : Pool) (w idx : nat) (rep : Reply) (imgId : string)
    (rs : list Run) : Pool * list Run :=
  let runId := run_id (p_run p) in
  let prompt := nth idx (prompts (p_run p)) "" in
  match rep with
  | Responded false json =>
      let message := str_or (b_error json) "Generation failed" in
      let rs1 := setError runId message (b_debug json) rs in
      let rs2 := incProgress runId rs1 in
      let '(x, cur) := worker_loop (p_total p) (cursor p) in
      (set_worker w x cur (p_log p ++ [(idx, Failure message (b_debug json))])
         (p_dropped p) p, rs2)
  | Responded true json =>
      let img := {| img_id := imgId; img_prompt := prompt;
                    imageDataUrl := b_imageDataUrl json |} in
      let rs1 := pushImage runId img rs in
      let rs2 := incProgress runId rs1 in
      let '(x, cur) := worker_loop (p_total p) (cursor p) in
      (set_worker w x cur (p_log p ++ [(idx, Success img)]) (p_dropped p) p, rs2)
  | Rejected ename emessage =>
      let msg := if String.eqb ename "AbortError" then "Run cancelled"
                 else str_or emessage "Request failed" in
      (set_worker w Exited (cursor p) (p_log p) (p_dropped p ++ [idx]) p,
       setError runId msg None rs)
  end.

Definition all_exited (p : Pool) : bool :=
  forallb (fun x => bool_decide (x = Exited)) (workers p).

(** [await Promise.all(workers)] resolves once every worker has returned;
    the run is then marked done if it is still running. *)
Definition settle (p : Pool) (rs : list Run) : list Run :=
  if all_exited p then finishRun (run_id (p_run p)) rs else rs.

(** *** Application state *)

Record App := {
  runs : list Run;
  activeRunId : option string;
  aborted : gset nat;           (* the controllers whose signal is aborted *)
  nextController : nat;         (* next handle of [new AbortController()] *)
  pools : list Pool;            (* one per call of [runGenerator] *)
}.

Definition initial : App :=
  {| runs := []; activeRunId := None; aborted := ∅; nextController := 0;
     pools := [] |}.

Definition deleteRun (runId : string) (s : App) : App :=
  let next := filter (fun r => run_id r ≠ runId) (runs s) in
  {| runs := next;
     activeRunId :=
       if decide (activeRunId s = Some runId) then run_id <$> head next
       else activeRunId s;
     aborted := aborted s; nextController := nextController s;
     pools := pools s |}.

Definition cancelRun (runId : string) (s : App) : App :=
  {| runs := updateRun runId (with_status Cancelled) (runs s);
     activeRunId := activeRunId s;
     aborted :=
       fold_left
         (fun ab r => if decide (run_id r = runId) then abort (controller r) ab else ab)
         (runs s) (aborted s);
     nextController := nextController s;
     pools := pools s |}.

(** [[...prev].sort((a, b) => a.startedAt - b.startedAt)]: the sort of
    arrays is stable. *)
Fixpoint insert_by_startedAt (r : Run) (l : list Run) : list Run :=
  match l with
  | [] => [r]
  | x :: l' =>
      if (startedAt r <=? startedAt x)%Z then r :: x :: l'
      else x :: insert_by_startedAt r l'
  end.

Definition sort_by_startedAt (l : list Run) : list Run :=
  fold_right insert_by_startedAt [] l.

(** The first [setRuns] of [onGenerateNewRun]: drop the oldest run when
    three are registered. *)
Definition dropOldest (prev : list Run) (ab : gset nat) : list Run * gset nat :=
  if decide (List.length prev < 3) then (prev, ab)
  else
    match sort_by_startedAt prev with
    | oldest :: _ =>
        (filter (fun r => run_id r ≠ run_id oldest) prev, abort (controller oldest) ab)
    | [] => (prev, ab)
    end.

(** [Math.max(...runs.map(...))], with [0] for no run, plus one. *)
Definition runOrdinal (rs : list Run) : nat :=
  fold_right Nat.max 0 (name <$> rs) + 1.

Definition runGenerator (run : Run) (ui : UI) (s : App) : App :=
  let '(ws, cur) := spawn (parallelism (speed run)) (List.length (prompts run)) 0 in
  let p := {| p_run := run; p_ui := ui; cursor := cur; workers := ws;
              p_log := []; p_dropped := [] |} in
  {| runs := settle p (runs s); activeRunId := activeRunId s;
     aborted := aborted s; nextController := nextController s;
     pools := pools s ++ [p] |}.

(** [uuid] is [crypto.randomUUID()] and [now] is [Date.now()]. The run's
    ordinal is computed from the [runs] the component was rendered with,
    that is, the registry before the eviction. *)
Definition onGenerateNewRun (ui : UI) (uuid : string) (now : Z) (s : App) : App :=
  let ref := default "" (ui_referenceUrl ui) in
  if negb (nonempty ref) || bool_decide (List.length (promptLines ui) = 0) then s
  else
    let '(prev, ab) := dropOldest (runs s) (aborted s) in
    let ac := nextController s in
    let newRun :=
      {| run_id := uuid; name := runOrdinal (runs s); startedAt := now;
         modelId := ui_modelId ui; modelNameDisplay := ui_modelNameDisplay ui;
         productId :=
           if String.eqb (selectedId ui) "custom" then None else Some (selectedId ui);
         productName := ui_productName ui; referenceUrl := ref;
         prompts := promptLines ui; status := Running; error := None;
         debug := None; images := []; activeIdx := 0; selectedIdx := ∅;
         progress := {| done := 0; total := List.length (promptLines ui) |};
         speed := ui_speed ui; controller := Some ac |} in
    runGenerator newRun ui
      {| runs := prev ++ [newRun]; activeRunId := Some uuid; aborted := ab;
         nextController := S ac; pools := pools s |}.

(** A reply reaches worker [w] of the [k]-th pool. *)
Definition deliver (k w : nat) (rep : Reply) (imgId : string) (s : App) : App :=
  match pools s !! k with
  | Some p =>
      match workers p !! w with
      | Some (Awaiting idx) =>
          let '(p', rs) := worker_resume p w idx rep imgId (runs s) in
          {| runs := settle p' rs; activeRunId := activeRunId s;
             aborted := aborted s; nextController := nextController s;
             pools := <[ k := p' ]> (pools s) |}
      | _ => s
      end
  | None => s
  end.

Definition setActiveRunId (a : option string) (s : App) : App :=
  {| runs := runs s; activeRunId := a; aborted := aborted s;
     nextController := nextController s; pools := pools s |}.

Definition set_runs (rs : list Run) (s : App) : App :=
  {| runs := rs; activeRunId := activeRunId s; aborted := aborted s;
     nextController := nextController s; pools := pools s |}.

(** Everything that can happen to the page. *)
Inductive Event :=
  | EGenerate (ui : UI) (uuid : string) (now : Z)
  | ECancel (runId : string)
  | EDelete (runId : string)
  | ESelect (runId : string)
  | EToggle (runId : string) (idx : nat)
  | EReply (k w : nat) (rep : Reply) (imgId : string).

Definition step (s : App) (e : Event) : App :=
  match e with
  | EGenerate ui uuid now => onGenerateNewRun ui uuid now s
  | ECancel runId => cancelRun runId s
  | EDelete runId => deleteRun runId s
  | ESelect runId => setActiveRunId (Some runId) s
  | EToggle runId idx => set_runs (toggleSelect runId idx (runs s)) s
  | EReply k w rep imgId => deliver k w rep imgId s
  end.

Definition run_events (s : App) (es : list Event) : App := fold_left step es s.

(** The UUIDs of the runs are fresh: [crypto.randomUUID()] never returns
    the id of a run created before. *)
Definition pool_ids (s : App) : list string :=
  (fun p => run_id (p_run p)) <$> pools s.

Definition fresh_event (s : App) (e : Event) : bool :=
  match e with
  | EGenerate _ uuid _ => bool_decide (uuid ∉ pool_ids s)
  | _ => true
  end.

Fixpoint fresh_uuids (s : App) (es : list Event) : bool :=
  match es with
  | [] => true
  | e :: es' => fresh_event s e && fresh_uuids (step s e) es'
  end.

(* ===================================================================== *)
(** ** The generate route ([src/app/api/generate/route.ts]) *)
(* ===================================================================== *)

(** A computation that returns or throws an [Error] with a message. *)
Inductive Res (A : Type) : Type :=
  | Ok (a : A)
  | Throw (message : string).
Arguments Ok {A} a.
Arguments Throw {A} message.

Global Instance Res_ret : MRet Res := fun A a => Ok a.

Global Instance Res_bind : MBind Res := fun A B k m =>
  match m with
  | Ok a => k a
  | Throw e => Throw e
  end.

(** The row the [products] table gives for an id: [error], or [data] with
    its [image_url] ([None] when [data] or the field is null). *)
Inductive DbResult :=
  | DbErr (message : string)
  | DbRow (row_image_url : option string).

(** What an outgoing [fetch] gives: a response with its [ok] flag, status
    and parsed body ([{}] when the body does not parse), or an exception.
    [latency] is the time the call took, in milliseconds. *)
Inductive Fetched :=
  | Replied (ok : bool) (status : Z) (json : Val) (latency : N)
  | Failed (message : string) (latency : N).

Record Input := {
  prompt : string;
  image_urls : list string;
  in_image_size : string;
  in_image_resolution : string;
  in_max_images : Z;
  in_seed : option Z;
}.

Record Payload := {
  model : string;
  callBackUrl : string;
  input : Input;
}.

(** The calls the route makes, in order. [Fetch] is the [fetch] of the
    reference image with the request headers [fetchImageAsBase64] sets
    (both files pass [redirect: "follow"]). *)
Inductive Outgoing :=
  | CreateTask (payload : Payload)
  | RecordInfo (taskId : Val)
  | Fetch (url : string) (headers : list (string * string))
  | GenerateContent (mime base64 text : string).

(** The fetch of [fetchImageAsBase64] in [route.ts], lines 38-45. *)
Definition FetchImage (url : string) : Outgoing :=
  Fetch url
    [("User-Agent", "Outlight/1.0 (+image-fetch)");
     ("Accept", "image/avif,image/webp,image/apng,image/*,*/*;q=0.8")].


(** The environment of one request. [image] is the outcome of
    [fetchImageAsBase64(referenceUrl)]; [kie] lists the replies of
    [createTask] and of the [recordInfo] calls in the order they are made,
    and a call beyond the end of the list finds the network down;
    [cancelled] is the abort signal of the incoming request. *)
Record Net := {
  KIE_KEY : option string;
  NB_API_KEY : option string;
  db : string -> DbResult;
  image : Res (string * string);
  gemini : Fetched;
  kie : list Fetched;
  now : Z;
  cancelled : bool;
}.

(** [NextResponse.json(body, { status })] *)
Inductive Body :=
  | BImage (imageDataUrl : Val)
  | BError (err : Val) (dbg : option Val).

Record Response := { r_status : Z; r_body : Body }.

Definition error_response (st : Z) (e : Val) : Response :=
  {| r_status := st; r_body := BError e None |}.

(** The [catch] of [POST]: [err?.message || "Unexpected error"], status 500. *)
Definition caught (message : string) : Response :=
  error_response 500 (VStr (str_or (Some message) "Unexpected error")).

Definition is_200 (v : Val) : bool :=
  match v with VNum 200 => true | _ => false end.

Definition is_str (s : string) (v : Val) : bool :=
  match v with VStr t => String.eqb t s | _ => false end.

Definition nl : string := String (ascii_of_nat 10) EmptyString.
Definition dq : string := String (ascii_of_nat 34) EmptyString.

(** *** Reading a Gemini response: helpers local to [extractGeminiImage] *)

(** The accessors and the four loops below are the same text in
    [route.ts] and in its variant; what differs between the two files is in
    the modules further down. *)

(** What [extractGeminiImage] returns; an absent field is [VUndef] or
    [None]. *)
Record Extracted := {
  dataUrl : Val;
  url : Val;
  reason : option string;
  x_debug : option Val;
}.

Definition found_dataUrl (v : Val) : Extracted :=
  {| dataUrl := v; url := VUndef; reason := None; x_debug := None |}.

Definition found_url (v : Val) : Extracted :=
  {| dataUrl := VUndef; url := v; reason := None; x_debug := None |}.

(** [p?.inline_data?.data ?? p?.inlineData?.data] *)
Definition getInlineData (p : Val) : Val :=
  js_coalesce (get (get p "inline_data") "data") (get (get p "inlineData") "data").

Definition getInlineMime (p : Val) : Val :=
  js_coalesce (get (get p "inline_data") "mime_type")
    (js_coalesce (get (get p "inlineData") "mime_type")
       (js_coalesce (get (get p "inlineData") "mimeType") (VStr "image/png"))).

Definition getFileUri (p : Val) : Val :=
  js_coalesce (get (get p "file_data") "file_uri")
    (js_coalesce (get (get p "fileData") "file_uri") (get (get p "fileData") "fileUri")).

(** [p?.data_uri || p?.dataUri] *)
Definition getDataUri (p : Val) : Val :=
  js_or (get p "data_uri") (get p "dataUri").

(** 1) inline base64 *)
Fixpoint scan_inline (parts : list Val) : option Extracted :=
  match parts with
  | [] => None
  | p :: ps =>
      let d := getInlineData p in
      if truthy d then
        Some (found_dataUrl
                (VStr ("data:" +:+ to_String (getInlineMime p) +:+ ";base64," +:+ to_String d)))
      else scan_inline ps
  end.

(** 2) hosted file uri *)
Fixpoint scan_file (parts : list Val) : option Extracted :=
  match parts with
  | [] => None
  | p :: ps =>
      let uri := getFileUri p in
      if truthy uri then Some (found_url uri) else scan_file ps
  end.

(** 3) media array: the inner loop over one [media]. The call
    [m?.mimeType?.startsWith("image/")] throws a [TypeError] when
    [mimeType] is neither nullish nor a string. *)
Fixpoint scan_media_items (media : list Val) : Res (option Extracted) :=
  match media with
  | [] => Ok None
  | m :: ms =>
      let by_url :=
        if truthy (get m "url") then Ok (Some (found_url (get m "url")))
        else scan_media_items ms in
      if truthy (get m "data") then
        match get m "mimeType" with
        | VStr t =>
            if startsWith "image/" t then
              Ok (Some (found_dataUrl
                          (VStr ("data:" +:+ t +:+ ";base64," +:+ to_String (get m "data")))))
            else by_url
        | VUndef | VNull => by_url
        | _ => Throw "m?.mimeType?.startsWith is not a function"
        end
      else by_url
  end.

Fixpoint scan_media (parts : list Val) : Res (option Extracted) :=
  match parts with
  | [] => Ok None
  | p :: ps =>
      match get p "media" with
      | VArr media =>
          match scan_media_items media with
          | Ok None => scan_media ps
          | r => r
          end
      | _ => scan_media ps
      end
  end.

(** 4) data_uri; [/^data:image\//.test(du)] converts [du] to a string. *)
Fixpoint scan_data_uri (parts : list Val) : option Extracted :=
  match parts with
  | [] => None
  | p :: ps =>
      let du := getDataUri p in
      if truthy du && startsWith "data:image/" (to_String du)
      then Some (found_dataUrl du)
      else scan_data_uri ps
  end.

(** [parts.map((p) => p?.text).filter(Boolean).slice(0, 1)[0]] *)
Fixpoint any_text (parts : list Val) : Val :=
  match parts with
  | [] => VUndef
  | p :: ps => if truthy (get p "text") then get p "text" else any_text ps
  end.

(** [anyText.slice(0, n)] inside the template, for a truthy [anyText]:
    strings and arrays have [slice]. A string is cut after [n] characters
    of [string]; JavaScript counts UTF-16 code units, which is the same
    for ASCII text. *)
Definition slice_text (n : nat) (anyText : Val) : Res string :=
  match anyText with
  | VStr t => Ok (String.substring 0 n t)
  | VArr xs => Ok (to_String (VArr (firstn n xs)))
  | _ => Throw "anyText.slice is not a function"
  end.

(** [for (const p of parts)] over the value of
    [candidates[0]?.content?.parts || []]: an array is walked; a string is
    walked character by character, none of which has any of the fields
    read, and [parts.map] then throws; anything else is not iterable. *)
Definition iterable_parts (parts : Val) : Res (list Val) :=
  match parts with
  | VArr ps => Ok ps
  | VStr _ => Throw "parts.map is not a function"
  | _ => Throw "parts is not iterable"
  end.

(** What one reply of [recordInfo] does to the loop. *)
Inductive Polled :=
  | Return (r : Response)          (* [return NextResponse.json(...)] *)
  | Break (resultUrl : Val)        (* [resultUrl = urls[0]; break] *)
  | Pending.                       (* next iteration *)

Module RouteTs.
Section WithJSON.

Variable JSON_parse : string -> option Val.
Variable JSON_stringify : Val -> string.

Definition getReferenceUrl (net : Net) (productId customUrl : option string) : Res string :=
  if nonempty (default "" customUrl) then Ok (default "" customUrl)
  else if negb (nonempty (default "" productId)) then Throw "Reference image URL required"
  else
    match db net (default "" productId) with
    | DbErr m => Throw ("DB error: " +:+ m)
    | DbRow row =>
        if nonempty (default "" row) then Ok (default "" row)
        else Throw "No image_url found for product"
    end.

(** *** Seedream: create the task, then poll [recordInfo] *)

Definition MAX_MS : Z := 180000.
Definition INTERVAL_MS : Z := 2000.

Definition seedream_payload (body : PostBody) (referenceUrl : string) : Payload :=
  let o := pb_options body in
  {| model := "bytedance/seedream-v4-edit";
     callBackUrl := "";
     input :=
       {| prompt := pb_prompt body;
          image_urls := [referenceUrl];
          in_image_size := str_or (o ≫= image_size) "square";
          in_image_resolution := str_or (o ≫= image_resolution) "1K";
          in_max_images :=
            match o ≫= max_images with
            | Some n => if (n =? 0)%Z then 1%Z else n
            | None => 1%Z
            end;
          in_seed := o ≫= seed |} |}.

(** After the loop: [if (!resultUrl) ... 504] else the image. *)
Definition after_poll (resultUrl lastState : Val) : Response :=
  if truthy resultUrl then {| r_status := 200; r_body := BImage resultUrl |}
  else
    error_response 504
      (VStr ("Seedream generation timed out (last state: " +:+ to_String lastState +:+ ")")).

Definition classify (qOk : bool) (qJson : Val) : Polled :=
  if negb qOk || negb (is_200 (get qJson "code")) then
    Return (error_response 502
              (js_or (get qJson "message")
                 (js_or (get qJson "msg") (VStr "Seedream query failed"))))
  else
    let lastState := get (get qJson "data") "state" in
    if is_str "success" lastState then
      match JSON_parse (to_String (js_or (get (get qJson "data") "resultJson") (VStr "{}"))) with
      | Some parsed =>
          let urls := js_or (get parsed "resultUrls") (VArr []) in
          if negb (truthy (get urls "length")) then
            Return (error_response 502 (VStr "Seedream returned no result URLs"))
          else Break (get0 urls)
      | None => Return (error_response 502 (VStr "Malformed Seedream resultJson"))
      end
    else if is_str "fail" lastState then
      Return (error_response 502
                (js_or (get (get qJson "data") "failMsg") (VStr "Seedream reported failure")))
    else Pending.

(** The [while (Date.now() - started < MAX_MS)] loop. [clock] is
    [Date.now()] at the loop test; the sleep takes [INTERVAL_MS] and the
    fetch its latency. The abort signal [sig] of the request is passed
    along as the route receives it. *)
Fixpoint poll (sig : bool) (started clock : Z) (lastState taskId : Val)
    (replies : list Fetched) (sent : list Outgoing) : Response * list Outgoing :=
  if (clock - started <? MAX_MS)%Z then
    let sent1 := sent ++ [RecordInfo taskId] in
    match replies with
    | [] => (caught "fetch failed", sent1)
    | Failed m _ :: _ => (caught m, sent1)
    | Replied qOk _ qJson lat :: rest =>
        match classify qOk qJson with
        | Return r => (r, sent1)
        | Break resultUrl =>
            (after_poll resultUrl (get (get qJson "data") "state"), sent1)
        | Pending =>
            poll sig started (clock + INTERVAL_MS + Z.of_N lat)
              (get (get qJson "data") "state") taskId rest sent1
        end
    end
  else (after_poll VNull lastState, sent).

Definition seedream_branch (net : Net) (body : PostBody) (referenceUrl : string)
  : Response * list Outgoing :=
  if negb (nonempty (default "" (KIE_KEY net))) then
    (error_response 500 (VStr "Seedream API key missing"), [])
  else
    let payload := seedream_payload body referenceUrl in
    let sent := [CreateTask payload] in
    match kie net with
    | [] => (caught "fetch failed", sent)
    | Failed m _ :: _ => (caught m, sent)
    | Replied cOk _ createJson lat :: rest =>
        if negb cOk || negb (is_200 (get createJson "code")) then
          (error_response 502
             (js_or (get createJson "message")
                (js_or (get createJson "msg") (VStr "Seedream createTask failed"))), sent)
        else
          let taskId := get (get createJson "data") "taskId" in
          if negb (truthy taskId) then
            (error_response 502 (VStr "Seedream taskId missing"), sent)
          else
            let started := (now net + Z.of_N lat)%Z in
            poll (cancelled net) started started (VStr "waiting") taskId rest sent
    end.

(** *** Gemini: one call, then the image is looked for in the response *)

Definition extractGeminiImage (json : Val) : Res Extracted :=
  let finishReason :=
    js_or (get (get0 (get json "candidates")) "finishReason")
      (js_or (get (get json "promptFeedback") "blockReason") (VStr "")) in
  let safety := js_or (get (get json "promptFeedback") "safetyRatings") (VArr []) in
  let candidates := js_or (get json "candidates") (VArr []) in
  match candidates with
  | VArr (c0 :: _) =>
      let parts := js_or (get (get c0 "content") "parts") (VArr []) in
      ps ← iterable_parts parts;
      match scan_inline ps with
      | Some out => Ok out
      | None =>
      match scan_file ps with
      | Some out => Ok out
      | None =>
      found ← scan_media ps;
      match found with
      | Some out => Ok out
      | None =>
      match scan_data_uri ps with
      | Some out => Ok out
      | None =>
          let anyText := any_text ps in
          let safeSummary :=
            if truthy (get safety "length") then " safety=" +:+ JSON_stringify safety
            else "" in
          textPart ←
            (if truthy anyText then
               t ← slice_text 140 anyText; Ok (" text=" +:+ dq +:+ t +:+ "..." +:+ dq)
             else Ok "");
          Ok {| dataUrl := VUndef; url := VUndef;
                reason :=
                  Some ("No image parts found. finishReason="
                          +:+ to_String (js_or finishReason (VStr "n/a"))
                          +:+ safeSummary +:+ textPart);
                x_debug :=
                  Some (VObj [("parts", parts);
                              ("finishReason",
                               get (get0 (get json "candidates")) "finishReason");
                              ("promptFeedback", get json "promptFeedback")]) |}
      end end end end
  | _ =>
      Ok {| dataUrl := VUndef; url := VUndef;
            reason :=
              Some ("No candidates (finishReason="
                      +:+ to_String (js_or finishReason (VStr "n/a")) +:+ ")");
            x_debug := None |}
  end.

(** The end of [POST] once Gemini has replied, with the surrounding
    [catch]. The status of a reply that is not ok is passed on;
    [nbStatus] is taken to be one that a response with a body may carry
    (between 200 and 599 and not 204, 205 or 304: [NextResponse.json]
    throws for the others, and the [catch] then answers 500). *)
Definition respond_gemini (nbOk : bool) (nbStatus : Z) (nbJson : Val) : Response :=
  if negb nbOk then
    error_response (if (nbStatus =? 0)%Z then 502 else nbStatus)
      (js_or (get (get nbJson "error") "message")
         (VStr ("Gemini request failed (" +:+ string_of_Z nbStatus +:+ ")")))
  else
    match extractGeminiImage nbJson with
    | Throw m => caught m
    | Ok out =>
        if truthy (dataUrl out) then {| r_status := 200; r_body := BImage (dataUrl out) |}
        else if truthy (url out) then {| r_status := 200; r_body := BImage (url out) |}
        else
          {| r_status := 502;
             r_body :=
               BError (VStr (str_or (reason out) "Gemini returned no image data"))
                 (Some (default VNull (x_debug out))) |}
    end.

Definition gemini_text (text : string) : string :=
  "Edit ONLY the attached image using these instructions." +:+ nl
    +:+ "Return an IMAGE (not text). Instructions:" +:+ nl +:+ text.

Definition gemini_branch (net : Net) (body : PostBody) (referenceUrl : string)
  : Response * list Outgoing :=
  if negb (nonempty (default "" (NB_API_KEY net))) then
    (error_response 500 (VStr "Nano Banana API key missing"), [])
  else
    let sent := [FetchImage referenceUrl] in
    match image net with
    | Throw m => (caught m, sent)
    | Ok (mime, base64) =>
        if negb (startsWith "image/" mime) then
          (error_response 400
             (VStr ("Reference URL is not an image (mime=" +:+ mime +:+ ")")), sent)
        else
          let sent2 := sent ++ [GenerateContent mime base64 (gemini_text (pb_prompt body))] in
          match gemini net with
          | Failed m _ => (caught m, sent2)
          | Replied nbOk nbStatus nbJson _ => (respond_gemini nbOk nbStatus nbJson, sent2)
          end
    end.

Definition POST (net : Net) (body : PostBody) : Response * list Outgoing :=
  if negb (nonempty (pb_prompt body)) || negb (nonempty (pb_modelId body)) then
    (error_response 400 (VStr "Missing modelId or prompt"), [])
  else
    match getReferenceUrl net (pb_productId body) (pb_customUrl body) with
    | Throw m => (caught m, [])
    | Ok referenceUrl =>
        if startsWith "seedream" (pb_modelId body)
        then seedream_branch net body referenceUrl
        else gemini_branch net body referenceUrl
    end.

End WithJSON.
End RouteTs.

(* ===================================================================== *)
(** ** The variant of the generate route ([src/unnamed/part_002]) *)
(* ===================================================================== *)

Module RouteVariant.
Section WithJSON.

Variable JSON_parse : string -> option Val.
Variable JSON_stringify : Val -> string.

Definition getReferenceUrl (net : Net) (productId customUrl : option string) : Res string :=
  if nonempty (default "" customUrl) then Ok (default "" customUrl)
  else if negb (nonempty (default "" productId)) then Throw "Reference image URL required"
  else
    match db net (default "" productId) with
    | DbErr m => Throw ("DB error: " +:+ m)
    | DbRow row =>
        if nonempty (default "" row) then Ok (default "" row)
        else Throw "No image_url found for product"
    end.

(** *** Seedream: create the task, then poll [recordInfo] *)

Definition MAX_MS : Z := 180000.
Definition INTERVAL_MS : Z := 2000.

Definition seedream_payload (body : PostBody) (referenceUrl : string) : Payload :=
  let o := pb_options body in
  {| model := "bytedance/seedream-v4-edit";
     callBackUrl := "";
     input :=
       {| prompt := pb_prompt body;
          image_urls := [referenceUrl];
          in_image_size := str_or (o ≫= image_size) "square";
          in_image_resolution := str_or (o ≫= image_resolution) "1K";
          in_max_images :=
            match o ≫= max_images with
            | Some n => if (n =? 0)%Z then 1%Z else n
            | None => 1%Z
            end;
          in_seed := o ≫= seed |} |}.

(** After the loop: [if (!resultUrl) ... 504] else the image. *)
Definition after_poll (resultUrl lastState : Val) : Response :=
  if truthy resultUrl then {| r_status := 200; r_body := BImage resultUrl |}
  else
    error_response 504
      (VStr ("Seedream generation timed out (last state: " +:+ to_String lastState +:+ ")")).

Definition classify (qOk : bool) (qJson : Val) : Polled :=
  if negb qOk || negb (is_200 (get qJson "code")) then
    Return (error_response 502
              (js_or (get qJson "message")
                 (js_or (get qJson "msg") (VStr "Seedream query failed"))))
  else
    let lastState := get (get qJson "data") "state" in
    if is_str "success" lastState then
      match JSON_parse (to_String (js_or (get (get qJson "data") "resultJson") (VStr "{}"))) with
      | Some parsed =>
          let urls := js_or (get parsed "resultUrls") (VArr []) in
          if negb (truthy (get urls "length")) then
            Return (error_response 502 (VStr "Seedream returned no result URLs"))
          else Break (get0 urls)
      | None => Return (error_response 502 (VStr "Malformed Seedream resultJson"))
      end
    else if is_str "fail" lastState then
      Return (error_response 502
                (js_or (get (get qJson "data") "failMsg") (VStr "Seedream reported failure")))
    else Pending.

(** The [while (Date.now() - started < MAX_MS)] loop. [clock] is
    [Date.now()] at the loop test; the sleep takes [INTERVAL_MS] and the
    fetch its latency. The abort signal [sig] of the request is passed
    along as the route receives it. *)
Fixpoint poll (sig : bool) (started clock : Z) (lastState taskId : Val)
    (replies : list Fetched) (sent : list Outgoing) : Response * list Outgoing :=
  if (clock - started <? MAX_MS)%Z then
    let sent1 := sent ++ [RecordInfo taskId] in
    match replies with
    | [] => (caught "fetch failed", sent1)
    | Failed m _ :: _ => (caught m, sent1)
    | Replied qOk _ qJson lat :: rest =>
        match classify qOk qJson with
        | Return r => (r, sent1)
        | Break resultUrl =>
            (after_poll resultUrl (get (get qJson "data") "state"), sent1)
        | Pending =>
            poll sig started (clock + INTERVAL_MS + Z.of_N lat)
              (get (get qJson "data") "state") taskId rest sent1
        end
    end
  else (after_poll VNull lastState, sent).

Definition seedream_branch (net : Net) (body : PostBody) (referenceUrl : string)
  : Response * list Outgoing :=
  if negb (nonempty (default "" (KIE_KEY net))) then
    (error_response 500 (VStr "Seedream API key missing"), [])
  else
    let payload := seedream_payload body referenceUrl in
    let sent := [CreateTask payload] in
    match kie net with
    | [] => (caught "fetch failed", sent)
    | Failed m _ :: _ => (caught m, sent)
    | Replied cOk _ createJson lat :: rest =>
        if negb cOk || negb (is_200 (get createJson "code")) then
          (error_response 502
             (js_or (get createJson "message")
                (js_or (get createJson "msg") (VStr "Seedream createTask failed"))), sent)
        else
          let taskId := get (get createJson "data") "taskId" in
          if negb (truthy taskId) then
            (error_response 502 (VStr "Seedream taskId missing"), sent)
          else
            let started := (now net + Z.of_N lat)%Z in
            poll (cancelled net) started started (VStr "waiting") taskId rest sent
    end.

(** *** Gemini: one call, then the image is looked for in the response *)

Definition extractGeminiImage (json : Val) : Res Extracted :=
  let finishReason :=
    js_or (get (get0 (get json "candidates")) "finishReason")
      (js_or (get (get json "promptFeedback") "blockReason") (VStr "")) in
  let safety := js_or (get (get json "promptFeedback") "safetyRatings") (VArr []) in
  let candidates := js_or (get json "candidates") (VArr []) in
  match candidates with
  | VArr (c0 :: _) =>
      let parts := js_or (get (get c0 "content") "parts") (VArr []) in
      ps ← iterable_parts parts;
      match scan_inline ps with
      | Some out => Ok out
      | None =>
      match scan_file ps with
      | Some out => Ok out
      | None =>
      found ← scan_media ps;
      match found with
      | Some out => Ok out
      | None =>
      match scan_data_uri ps with
      | Some out => Ok out
      | None =>
          let anyText := any_text ps in
          let safeSummary :=
            if truthy (get safety "length") then " safety=" +:+ JSON_stringify safety
            else "" in
          textPart ←
            (if truthy anyText then
               t ← slice_text 120 anyText; Ok (" text=" +:+ dq +:+ t +:+ "..." +:+ dq)
             else Ok "");
          Ok {| dataUrl := VUndef; url := VUndef;
                reason :=
                  Some ("No image parts found. finishReason="
                          +:+ to_String (js_or finishReason (VStr "n/a"))
                          +:+ safeSummary +:+ textPart);
                x_debug := None |}
      end end end end
  | _ =>
      Ok {| dataUrl := VUndef; url := VUndef;
            reason :=
              Some ("No candidates (finishReason="
                      +:+ to_String (js_or finishReason (VStr "n/a")) +:+ ")");
            x_debug := None |}
  end.

(** The end of [POST] once Gemini has replied, with the surrounding
    [catch]. The status of a reply that is not ok is passed on;
    [nbStatus] is taken to be one that a response with a body may carry
    (between 200 and 599 and not 204, 205 or 304: [NextResponse.json]
    throws for the others, and the [catch] then answers 500). *)
Definition respond_gemini (nbOk : bool) (nbStatus : Z) (nbJson : Val) : Response :=
  if negb nbOk then
    error_response (if (nbStatus =? 0)%Z then 502 else nbStatus)
      (js_or (get (get nbJson "error") "message")
         (VStr ("Gemini request failed (" +:+ string_of_Z nbStatus +:+ ")")))
  else
    match extractGeminiImage nbJson with
    | Throw m => caught m
    | Ok out =>
        if truthy (dataUrl out) then {| r_status := 200; r_body := BImage (dataUrl out) |}
        else if truthy (url out) then {| r_status := 200; r_body := BImage (url out) |}
        else
          {| r_status := 502;
             r_body :=
               BError (VStr "Gemini returned no image data")
                 (Some (default VNull (x_debug out))) |}
    end.

Definition gemini_text (text : string) : string :=
  "Edit ONLY the attached image using these instructions. " +:+ nl
    +:+ "Return exactly ONE image (no text). Instructions:" +:+ nl +:+ text.

(** The variant fetches the reference without request headers
    ([fetch(url, { redirect: "follow" })], line 38). *)
Definition gemini_branch (net : Net) (body : PostBody) (referenceUrl : string)
  : Response * list Outgoing :=
  if negb (nonempty (default "" (NB_API_KEY net))) then
    (error_response 500 (VStr "Nano Banana API key missing"), [])
  else
    let sent := [Fetch referenceUrl []] in
    match image net with
    | Throw m => (caught m, sent)
    | Ok (mime, base64) =>
        if negb (startsWith "image/" mime) then
          (error_response 400
             (VStr ("Reference URL is not an image (mime=" +:+ mime +:+ ")")), sent)
        else
          let sent2 := sent ++ [GenerateContent mime base64 (gemini_text (pb_prompt body))] in
          match gemini net with
          | Failed m _ => (caught m, sent2)
          | Replied nbOk nbStatus nbJson _ => (respond_gemini nbOk nbStatus nbJson, sent2)
          end
    end.

Definition POST (net : Net) (body : PostBody) : Response * list Outgoing :=
  if negb (nonempty (pb_prompt body)) || negb (nonempty (pb_modelId body)) then
    (error_response 400 (VStr "Missing modelId or prompt"), [])
  else
    match getReferenceUrl net (pb_productId body) (pb_customUrl body) with
    | Throw m => (caught m, [])
    | Ok referenceUrl =>
        if startsWith "seedream" (pb_modelId body)
        then seedream_branch net body referenceUrl
        else gemini_branch net body referenceUrl
    end.

End WithJSON.
End RouteVariant.

(* ===================================================================== *)
(** ** Invariants of the page and the states used as examples *)
(* ===================================================================== *)

(** The indices whose request is in flight. *)
Definition wait_of (x : Worker) : list nat :=
  match x with Awaiting i => [i] | Exited => [] end.

Definition awaiting (p : Pool) : list nat := flat_map wait_of (workers p).

Definition log_indices (p : Pool) : list nat := fst <$> p_log p.

Definition log_images (lg : list (nat * Outcome)) : list GenImage :=
  flat_map (fun e => match snd e with Success img => [img] | Failure _ _ => [] end) lg.

Definition all_success (lg : list (nat * Outcome)) : Prop :=
  Forall (fun e => is_success (snd e) = true) lg.

(** Every index below the cursor is accounted for exactly once: handed on,
    in flight, or dropped by an exception. A worker that returned did so
    at the end of the batch or on an exception. *)
Definition pool_ok (p : Pool) : Prop :=
  log_indices p ++ awaiting p ++ p_dropped p ≡ₚ seq 0 (cursor p)
  ∧ cursor p <= p_total p
  ∧ (Exited ∈ workers p → cursor p = p_total p ∨ p_dropped p ≠ [])
  ∧ length (workers p) = parallelism (speed (p_run p))
  ∧ 1 <= p_total p.

(** A registered run and the pool started for it. *)
Definition linked (r : Run) (p : Pool) : Prop :=
  prompts r = prompts (p_run p)
  ∧ speed r = speed (p_run p)
  ∧ total (progress r) = p_total p
  ∧ done (progress r) = length (p_log p)
  ∧ images r = log_images (p_log p)
  ∧ (status r = Running ∨ status r = Done → p_dropped p = [] ∧ all_success (p_log p))
  ∧ (status r = Done → all_exited p = true).

Definition app_ok (s : App) : Prop :=
  NoDup (pool_ids s)
  ∧ NoDup (run_id <$> runs s)
  ∧ (∀ r, r ∈ runs s → run_id r ∈ pool_ids s)
  ∧ (∀ k p, pools s !! k = Some p → pool_ok p)
  ∧ (∀ r k p, r ∈ runs s → pools s !! k = Some p →
       run_id r = run_id (p_run p) → linked r p)
  ∧ NoDup (controller <$> runs s)
  ∧ (∀ r, r ∈ runs s → ∃ c, controller r = Some c ∧ c < nextController s).

(** The update a failed reply makes to the run: [setError], then
    [incProgress]. *)
Definition fail_update (message : string) (dbg : option Val) (r : Run) : Run :=
  with_progress {| done := done (progress r) + 1; total := total (progress r) |}
    (with_error Error message dbg r).

(** The update a successful reply makes: [pushImage], then [incProgress]. *)
Definition image_update (img : GenImage) (r : Run) : Run :=
  with_progress {| done := done (progress r) + 1; total := total (progress r) |}
    (with_images (images r ++ [img])
       (if decide (length (images r ++ [img]) = 1) then 0 else activeIdx r) r).

Definition finish_update (r : Run) : Run :=
  if decide (status r = Running) then with_status Done r else r.

(** What a reply does to the run of the pool, before the pool settles. *)
Definition outcome_update (p : Pool) (idx : nat) (rep : Reply) (imgId : string)
  : Run → Run :=
  match rep with
  | Responded false json =>
      fail_update (str_or (b_error json) "Generation failed") (b_debug json)
  | Responded true json =>
      image_update {| img_id := imgId; img_prompt := nth idx (prompts (p_run p)) "";
                      imageDataUrl := b_imageDataUrl json |}
  | Rejected ename emessage =>
      with_error Error
        (if String.eqb ename "AbortError" then "Run cancelled"
         else str_or emessage "Request failed") None
  end.

(** The pool after worker [w] has been resumed. *)
Definition resumed (p : Pool) (w idx : nat) (rep : Reply) (imgId : string) : Pool :=
  fst (worker_resume p w idx rep imgId []).

(** The guard of [onGenerateNewRun]: a reference and at least one prompt. *)
Definition submittable (ui : UI) : bool :=
  nonempty (default "" (ui_referenceUrl ui))
  && negb (bool_decide (length (promptLines ui) = 0)).

(** The run [onGenerateNewRun] creates, and the pool started for it. *)
Definition new_run (ui : UI) (uuid : string) (now : Z) (s : App) : Run :=
  {| run_id := uuid; name := runOrdinal (runs s); startedAt := now;
     modelId := ui_modelId ui; modelNameDisplay := ui_modelNameDisplay ui;
     productId :=
       if String.eqb (selectedId ui) "custom" then None else Some (selectedId ui);
     productName := ui_productName ui;
     referenceUrl := default "" (ui_referenceUrl ui);
     prompts := promptLines ui; status := Running; error := None;
     debug := None; images := []; activeIdx := 0; selectedIdx := ∅;
     progress := {| done := 0; total := length (promptLines ui) |};
     speed := ui_speed ui; controller := Some (nextController s) |}.

Definition new_pool (run : Run) (ui : UI) : Pool :=
  {| p_run := run; p_ui := ui;
     cursor := snd (spawn (parallelism (speed run)) (length (prompts run)) 0);
     workers := fst (spawn (parallelism (speed run)) (length (prompts run)) 0);
     p_log := []; p_dropped := [] |}.

(** A form with a custom reference and three prompts, at speed 2. *)
Definition ui_abc : UI :=
  {| products := []; selectedId := "custom"; customUrl := "https://cdn.example/ref.png";
     ui_modelId := "nanobanana-v1"; promptLines := ["a"; "b"; "c"];
     ui_speed := 2; sdSize := "square"; sdRes := "1K"; sdMax := 1; sdSeed := None |}.

Definition body_image : GenBody :=
  {| b_error := None; b_debug := None; b_imageDataUrl := Some "data:image/png;base64,AAAA" |}.

Definition body_failed : GenBody :=
  {| b_error := Some "Gemini request failed (429)"; b_debug := None;
     b_imageDataUrl := None |}.

(** One run of three prompts, two requests in flight. *)
Definition app_started : App := run_events initial [EGenerate ui_abc "run-1" 1000].

(** Three runs, started at 1000, 2000 and 3000. *)
Definition trace_three : list Event :=
  [EGenerate ui_abc "run-1" 1000;
   EGenerate ui_abc "run-2" 2000;
   EGenerate ui_abc "run-3" 3000].

(** The first image has come back; then both requests in flight are
    rejected by the network. *)
Definition trace_broken : list Event :=
  [EGenerate ui_abc "run-1" 1000;
   EReply 0 0 (Responded true body_image) "img-1";
   EReply 0 1 (Rejected "TypeError" (Some "Failed to fetch")) "img-2";
   EReply 0 0 (Rejected "TypeError" (Some "Failed to fetch")) "img-3"].

Definition app_broken : App := run_events initial trace_broken.

(** The three prompts have all come back with an image. *)
Definition trace_done : list Event :=
  [EGenerate ui_abc "run-1" 1000;
   EReply 0 0 (Responded true body_image) "img-1";
   EReply 0 1 (Responded true body_image) "img-2";
   EReply 0 0 (Responded true body_image) "img-3"].

Definition app_done : App := run_events initial trace_done.

(** *** The response shapes of a Gemini reply *)

(** This part says, without the code of [extractGeminiImage], which fields
    of a part of the response make each of the four shapes, what the
    artifact of a shape is, and what it means to try the shapes in order
    with the first match winning. The theorems compare
    [extractGeminiImage] with it. *)

(** The value at a path of field names; a step from a value that has no
    such field gives [undefined]. *)
Definition at_path (v : Val) (path : list string) : Val := fold_left get path v.

(** The first value that is there (neither [undefined] nor [null]), and
    the first that is truthy. *)
Fixpoint first_present (vs : list Val) : Val :=
  match vs with
  | [] => VUndef
  | v :: vs' => if nullish v then first_present vs' else v
  end.

Fixpoint first_truthy (vs : list Val) : Val :=
  match vs with
  | [] => VUndef
  | v :: vs' => if truthy v then v else first_truthy vs'
  end.

(** Where each shape keeps its fields, in snake case and in camel case. *)
Definition inline_data_paths : list (list string) :=
  [["inline_data"; "data"]; ["inlineData"; "data"]].

Definition inline_mime_paths : list (list string) :=
  [["inline_data"; "mime_type"]; ["inlineData"; "mime_type"]; ["inlineData"; "mimeType"]].

Definition file_uri_paths : list (list string) :=
  [["file_data"; "file_uri"]; ["fileData"; "file_uri"]; ["fileData"; "fileUri"]].

Definition data_uri_paths : list (list string) := [["data_uri"]; ["dataUri"]].

Definition inline_data_of (p : Val) : Val :=
  first_present (at_path p <$> inline_data_paths).

(** The mime type of inline data is [image/png] when none is given. *)
Definition inline_mime_of (p : Val) : Val :=
  first_present ((at_path p <$> inline_mime_paths) ++ [VStr "image/png"]).

Definition file_uri_of (p : Val) : Val :=
  first_present (at_path p <$> file_uri_paths).

Definition data_uri_of (p : Val) : Val :=
  first_truthy (at_path p <$> data_uri_paths).

(** The data URL of base64 data of a mime type. *)
Definition data_url (mime data : Val) : Val :=
  VStr ("data:" +:+ to_String mime +:+ ";base64," +:+ to_String data).

(** 1) the part has inline data. *)
Definition has_inline (p : Val) : bool := truthy (inline_data_of p).

(** 2) the part has a file uri. *)
Definition has_file (p : Val) : bool := truthy (file_uri_of p).

(** 3) an item of a media array has data of an image type, or a url. *)
Definition media_item_image (m : Val) : bool :=
  truthy (get m "data")
  && match get m "mimeType" with VStr t => startsWith "image/" t | _ => false end.

Definition media_item_matches (m : Val) : bool :=
  media_item_image m || truthy (get m "url").

Definition has_media (p : Val) : bool :=
  match get p "media" with
  | VArr media => existsb media_item_matches media
  | _ => false
  end.

(** 4) the part has a data uri of an image. *)
Definition has_data_uri (p : Val) : bool :=
  truthy (data_uri_of p) && startsWith "data:image/" (to_String (data_uri_of p)).

Definition has_shape (p : Val) : bool :=
  has_inline p || has_file p || has_media p || has_data_uri p.

(** An item of a media array whose data has a type that is not a string
    cannot be read: asking whether the type starts with [image/] is a
    [TypeError]. *)
Definition media_item_malformed (m : Val) : bool :=
  truthy (get m "data")
  && match get m "mimeType" with VUndef | VNull | VStr _ => false | _ => true end.

(** The parts of the first candidate, when the response has them as an
    array. *)
Definition parts_of (json : Val) : option (list Val) :=
  match js_or (get json "candidates") (VArr []) with
  | VArr (c0 :: _) =>
      match js_or (get (get c0 "content") "parts") (VArr []) with
      | VArr ps => Some ps
      | _ => None
      end
  | _ => None
  end.

(** What is returned for a matching item of a media array. *)
Definition media_item_found (m : Val) : Extracted :=
  if media_item_image m then
    found_dataUrl
      (VStr ("data:" +:+ to_String (get m "mimeType") +:+ ";base64,"
               +:+ to_String (get m "data")))
  else found_url (get m "url").

(** The artifact: a data URL or the URL of a hosted file. *)
Inductive Artifact :=
  | AsDataUrl (v : Val)
  | AsUrl (v : Val).

Definition artifact_value (a : Artifact) : Val :=
  match a with AsDataUrl v | AsUrl v => v end.

(** The result that carries an artifact. *)
Definition extracted (a : Artifact) : Extracted :=
  match a with
  | AsDataUrl v => found_dataUrl v
  | AsUrl v => found_url v
  end.

(** Looking for a shape finds an artifact, finds nothing, or meets a value
    that cannot be read. *)
Inductive Located :=
  | Found (a : Artifact)
  | NotFound
  | Malformed.

(** The first element of a list at which the search does not come back
    empty decides. *)
Fixpoint first_located {A : Type} (look : A → Located) (l : list A) : Located :=
  match l with
  | [] => NotFound
  | x :: l' => match look x with NotFound => first_located look l' | r => r end
  end.

(** The fixed, ordered list of shapes. *)
Inductive Shape := Inline | FileUri | MediaArray | DataUri.

Definition shapes : list Shape := [Inline; FileUri; MediaArray; DataUri].

Definition look_at_media_item (m : Val) : Located :=
  if media_item_malformed m then Malformed
  else if media_item_image m then
    Found (AsDataUrl (data_url (get m "mimeType") (get m "data")))
  else if truthy (get m "url") then Found (AsUrl (get m "url"))
  else NotFound.

(** One shape looked for in one part. *)
Definition look_for (s : Shape) (p : Val) : Located :=
  match s with
  | Inline =>
      if has_inline p
      then Found (AsDataUrl (data_url (inline_mime_of p) (inline_data_of p)))
      else NotFound
  | FileUri => if has_file p then Found (AsUrl (file_uri_of p)) else NotFound
  | MediaArray =>
      match get p "media" with
      | VArr media => first_located look_at_media_item media
      | _ => NotFound
      end
  | DataUri => if has_data_uri p then Found (AsDataUrl (data_uri_of p)) else NotFound
  end.

(** The shapes are tried in their order, each over all the parts in the
    order of the response, and the first match wins. *)
Definition locate (ps : list Val) : Located :=
  first_located (fun s => first_located (look_for s) ps) shapes.

(** A part in which the media shape finds nothing and meets nothing it
    cannot read. *)
Definition media_quiet (p : Val) : bool :=
  match get p "media" with
  | VArr media =>
      forallb (fun m => negb (media_item_matches m) && negb (media_item_malformed m)) media
  | _ => true
  end.

(** A Gemini response with a text part, then a part with a file uri and a
    data uri, then a part with inline data. *)
Definition json_mixed : Val :=
  VObj [("candidates",
         VArr [VObj [("content",
                      VObj [("parts",
                             VArr [VObj [("text", VStr "Here is your image")];
                                   VObj [("fileData",
                                          VObj [("fileUri", VStr "https://files.example/f1")]);
                                         ("dataUri", VStr "data:image/png;base64,BBBB")];
                                   VObj [("inlineData",
                                          VObj [("mimeType", VStr "image/jpeg");
                                                ("data", VStr "CCCC")])]])])]])].

(** A Gemini response that was blocked: text only. *)
Definition json_text_only : Val :=
  VObj [("candidates",
         VArr [VObj [("finishReason", VStr "SAFETY");
                     ("content",
                      VObj [("parts", VArr [VObj [("text", VStr "I cannot do that")]])])]])].

(** A response whose first candidate has the given parts. *)
Definition json_parts (ps : list Val) : Val :=
  VObj [("candidates", VArr [VObj [("content", VObj [("parts", VArr ps)])]])].

(** A part with a media array and a data uri, then a part with a file
    uri. *)
Definition parts_file : list Val :=
  [VObj [("media", VArr [VObj [("url", VStr "https://media.example/m1")]]);
         ("data_uri", VStr "data:image/png;base64,BBBB")];
   VObj [("file_data", VObj [("file_uri", VStr "https://files.example/f2")])]].

(** A part with a data uri, then a part with a media array: a video, an
    image, then an item with a url. *)
Definition media_video : Val :=
  VObj [("mimeType", VStr "video/mp4"); ("data", VStr "DDDD")].

Definition media_webp : Val :=
  VObj [("mimeType", VStr "image/webp"); ("data", VStr "EEEE")].

Definition parts_media : list Val :=
  [VObj [("dataUri", VStr "data:image/png;base64,BBBB")];
   VObj [("media",
          VArr [media_video; media_webp; VObj [("url", VStr "https://media.example/m2")]])]].

(** A text part and an empty media array, then two parts with a data uri
    each. *)
Definition parts_data_uri : list Val :=
  [VObj [("text", VStr "Here is your image"); ("media", VArr [])];
   VObj [("data_uri", VStr "data:image/png;base64,FFFF")];
   VObj [("dataUri", VStr "data:image/png;base64,GGGG")]].

(** A media item whose data has a number as its type, in front of a part
    with a data uri. *)
Definition parts_malformed : list Val :=
  [VObj [("media", VArr [VObj [("mimeType", VNum 7); ("data", VStr "DDDD")]])];
   VObj [("dataUri", VStr "data:image/png;base64,GGGG")]].


(** *** Examples for the route *)

(** A Seedream request for a custom reference. *)
Definition body_seedream : PostBody :=
  {| pb_modelId := "seedream-v4-edit"; pb_productId := None;
     pb_customUrl := Some "https://cdn.example/ref.png";
     pb_prompt := "on a marble table";
     pb_options := Some {| image_size := Some "square"; image_resolution := Some "1K";
                          max_images := Some 1%Z; seed := None |} |}.

(** The text of a [resultJson] with one result URL, and a stand-in for
    [JSON.parse] that knows this text only. *)
Definition result_json_text : string :=
  "{" +:+ dq +:+ "resultUrls" +:+ dq +:+ ":[" +:+ dq
    +:+ "https://cdn.example/out.png" +:+ dq +:+ "]}".

Definition parse_results (s : string) : option Val :=
  if String.eqb s result_json_text
  then Some (VObj [("resultUrls", VArr [VStr "https://cdn.example/out.png"])])
  else if String.eqb s "{}" then Some (VObj []) else None.

Definition reply_created : Fetched :=
  Replied true 200 (VObj [("code", VNum 200); ("data", VObj [("taskId", VStr "task-1")])]) 300.

Definition reply_state (st : string) (extra : list (string * Val)) : Fetched :=
  Replied true 200 (VObj [("code", VNum 200); ("data", VObj (("state", VStr st) :: extra))]) 150.

(** The task is created, is still generating at the first poll and has
    succeeded at the second. *)
Definition net_seedream : Net :=
  {| KIE_KEY := Some "kie-key"; NB_API_KEY := Some "nb-key";
     db := fun _ => DbErr "no rows";
     image := Throw "not used";
     gemini := Failed "not used" 0;
     kie := [reply_created; reply_state "generating" [];
             reply_state "success" [("resultJson", VStr result_json_text)]];
     now := 1000; cancelled := false |}.


(** A form with a product of the loaded list selected, and one prompt. *)
Definition ui_product : UI :=
  {| products := [ {| prod_id := "p1"; prod_name := "Lamp"; slug := "lamp";
                      image_url := "https://cdn.example/lamp.png" |} ];
     selectedId := "p1"; customUrl := "";
     ui_modelId := "nanobanana-v1"; promptLines := ["on a marble table"];
     ui_speed := 1; sdSize := "square"; sdRes := "1K"; sdMax := 1; sdSeed := None |}.

(** The [products] table has meanwhile lost the image of that product. *)
Definition net_stale : Net :=
  {| KIE_KEY := Some "kie-key"; NB_API_KEY := Some "nb-key";
     db := fun _ => DbRow None;
     image := Throw "not used";
     gemini := Failed "not used" 0;
     kie := []; now := 1000; cancelled := false |}.

(** A form with a reference and no prompt. *)
Definition ui_empty : UI :=
  {| products := []; selectedId := "custom"; customUrl := "https://cdn.example/ref.png";
     ui_modelId := "nanobanana-v1"; promptLines := [];
     ui_speed := 1; sdSize := "square"; sdRes := "1K"; sdMax := 1; sdSeed := None |}.

(** A request that names the product. *)
Definition body_product : PostBody :=
  {| pb_modelId := "nanobanana-v1"; pb_productId := Some "p1"; pb_customUrl := None;
     pb_prompt := "on a marble table"; pb_options := None |}.

(* ===================================================================== *)
(** ** Further definitions: predicates and examples for the properties
       proved beyond C1 to C10 *)
(* ===================================================================== *)




(** What every outgoing call of the route carries: a task is created with
    a prompt, one reference URL, a size, a resolution and a number of
    images that are all set; a status is asked for a task id that is set;
    an image is fetched from a URL that is set and passed on with an image
    mime type. *)
Definition call_ok (o : Outgoing) : bool :=
  match o with
  | CreateTask p =>
      nonempty (prompt (input p))
      && match image_urls (input p) with [u] => nonempty u | _ => false end
      && nonempty (in_image_size (input p))
      && nonempty (in_image_resolution (input p))
      && negb (in_max_images (input p) =? 0)%Z
  | RecordInfo taskId => truthy taskId
  | Fetch u _ => nonempty u
  | GenerateContent mime _ _ => startsWith "image/" mime
  end.

(** *** The page as it is rendered *)

(** [runs.find((r) => r.id === activeRunId) || null] *)
Definition activeRun (s : App) : option Run :=
  a ← activeRunId s; List.find (fun r => String.eqb (run_id r) a) (runs s).

(** The click on a thumbnail:
    [prev.map((r) => (r.id === activeRun.id ? { ...r, activeIdx: i } : r))] *)
Definition setActiveIdx (runId : string) (i : nat) : list Run → list Run :=
  updateRun runId (fun r => with_images (images r) i r).

(** Every update the page makes to its runs: the events above and the
    click on a thumbnail. *)
Inductive Action :=
  | Page (e : Event)
  | View (runId : string) (i : nat).

Definition act (s : App) (a : Action) : App :=
  match a with
  | Page e => step s e
  | View runId i => set_runs (setActiveIdx runId i (runs s)) s
  end.

Definition acts (s : App) (l : list Action) : App := fold_left act l s.

(** What the page rendered from [s] lets happen. A tab selects a
    registered run; Cancel, Delete, the checkboxes and the thumbnails act
    on the active run; Cancel is rendered while that run is running; the
    thumbnails and checkboxes are rendered when it has images, one per
    image, and the checkbox of the viewer toggles [activeIdx]. Replies come
    from the network at any time, and a UUID is fresh. *)
Definition offered (s : App) (a : Action) : bool :=
  match a with
  | Page (EGenerate _ uuid _) => bool_decide (uuid ∉ pool_ids s)
  | Page (ESelect runId) => bool_decide (runId ∈ run_id <$> runs s)
  | Page (ECancel runId) =>
      match activeRun s with
      | Some r => String.eqb (run_id r) runId && bool_decide (status r = Running)
      | None => false
      end
  | Page (EDelete runId) =>
      match activeRun s with
      | Some r => String.eqb (run_id r) runId
      | None => false
      end
  | Page (EToggle runId idx) =>
      match activeRun s with
      | Some r =>
          String.eqb (run_id r) runId
          && negb (bool_decide (length (images r) = 0))
          && (bool_decide (idx < length (images r)) || bool_decide (idx = activeIdx r))
      | None => false
      end
  | Page (EReply _ _ _ _) => true
  | View runId i =>
      match activeRun s with
      | Some r => String.eqb (run_id r) runId && bool_decide (i < length (images r))
      | None => false
      end
  end.

Fixpoint offered_all (s : App) (l : list Action) : bool :=
  match l with
  | [] => true
  | a :: l' => offered s a && offered_all (act s a) l'
  end.

(** What the render of a run relies on: the image shown in the viewer and
    the images ticked exist. *)
Definition run_view_ok (r : Run) : Prop :=
  (images r ≠ [] → activeIdx r < length (images r))
  ∧ ∀ i, i ∈ selectedIdx r → i < length (images r).

(** The active id names a registered run, and is unset only when there is
    none. *)
Definition view_ok (s : App) : Prop :=
  (activeRunId s = None → runs s = [])
  ∧ (∀ a, activeRunId s = Some a → a ∈ run_id <$> runs s)
  ∧ (∀ r, r ∈ runs s → run_view_ok r).

(** A run that is done, with the images and the counters it has. *)
Definition done_with (imgs : list GenImage) (pr : Progress) (r : Run) : Prop :=
  status r = Done ∧ images r = imgs ∧ progress r = pr.

(** A run is running only while a request of its pool is in flight. *)
Definition running_in_flight (s : App) : Prop :=
  ∀ r k p, r ∈ runs s → pools s !! k = Some p → run_id r = run_id (p_run p) →
           status r = Running → all_exited p = false.

(** What [onGenerateNewRun] guarantees of the run a pool is started for. *)
Definition run_submitted (r : Run) : Prop :=
  nonempty (referenceUrl r) = true ∧ 1 <= length (prompts r).

(** The numbers of the names [Run #n], in the order of the tabs. *)
Fixpoint ascending (l : list nat) : Prop :=
  match l with
  | [] => True
  | x :: l' => Forall (lt x) l' ∧ ascending l'
  end.

(** Three runs, the second of them deleted, then a fourth. *)
Definition trace_renamed : list Event :=
  [EGenerate ui_abc "run-1" 1000;
   EGenerate ui_abc "run-2" 2000;
   EGenerate ui_abc "run-3" 3000;
   EDelete "run-2";
   EGenerate ui_abc "run-4" 4000].

(** Two images arrive; the second is viewed and ticked, the first ticked
    and unticked; then the run is deleted and a new one started. *)
Definition trace_viewed : list Action :=
  [Page (EGenerate ui_abc "run-1" 1000);
   Page (EReply 0 0 (Responded true body_image) "img-1");
   Page (EReply 0 1 (Responded true body_image) "img-2");
   View "run-1" 1;
   Page (EToggle "run-1" 1);
   Page (EToggle "run-1" 0);
   Page (EToggle "run-1" 0);
   Page (EReply 0 0 (Responded true body_image) "img-3")].

(** What the page lets happen once the run of [trace_done] is done: its
    images are viewed and ticked, late replies arrive, another run is
    started. *)
Definition actions_done : list Action := Page <$> trace_done.

Definition actions_after_done : list Action :=
  [View "run-1" 2;
   Page (EToggle "run-1" 2);
   Page (EReply 0 0 (Rejected "AbortError" None) "img-4");
   Page (EGenerate ui_abc "run-2" 2000);
   Page (ESelect "run-1")].

(** *** Loading the reference image ([fetchImageAsBase64] of [route.ts]) *)

(** What [fetch(url)] gives: a response with its [ok] flag, status and
    status text, the text of its body ([None] when [res.text()] rejects),
    its [content-type] header and the base64 of its bytes (or the
    exception of [res.arrayBuffer()]); or an exception. *)
Inductive ImageFetch :=
  | ImageReplied (ok : bool) (status : Z) (statusText : string) (text : option string)
      (contentType : option string) (bytes : Res string)
  | ImageFailed (message : string).

(** ASCII lower case. A regular expression with the flag [i] and without
    the flag [u] matches an ASCII letter only against that letter in
    either case. *)
Definition lower (c : ascii) : ascii :=
  let n := nat_of_ascii c in
  if ((65 <=? n) && (n <=? 90))%nat then ascii_of_nat (n + 32) else c.

(** [s] starts with [p] up to case, [p] in lower case; what follows it. *)
Fixpoint after_prefix_ci (p s : string) : option string :=
  match p with
  | EmptyString => Some s
  | String a p' =>
      match s with
      | String b s' => if Ascii.eqb a (lower b) then after_prefix_ci p' s' else None
      | EmptyString => None
      end
  end.

(** [/\.(ext)(\?|$)/i] matches at the start of [s]. *)
Definition ext_here (ext s : string) : bool :=
  match after_prefix_ci ("." +:+ ext) s with
  | Some EmptyString => true
  | Some (String c _) => Ascii.eqb c "?"
  | None => false
  end.

(** [/\.(ext)(\?|$)/i.test(url)] *)
Fixpoint has_ext (ext url : string) : bool :=
  ext_here ext url
  || match url with
     | EmptyString => false
     | String _ rest => has_ext ext rest
     end.

Definition guess_mime (url : string) : string :=
  if has_ext "png" url then "image/png"
  else if has_ext "jpg" url || has_ext "jpeg" url then "image/jpeg"
  else if has_ext "webp" url then "image/webp"
  else "image/png".

Definition fetchImageAsBase64 (url : string) (res : ImageFetch) : Res (string * string) :=
  match res with
  | ImageFailed m => Throw m
  | ImageReplied ok status statusText text contentType bytes =>
      if negb ok then
        Throw ("Failed to fetch image: " +:+ string_of_Z status +:+ " " +:+ statusText
                 +:+ " — " +:+ String.substring 0 200 (default "" text))
      else
        base64 ← bytes;
        let mime := str_or contentType "image/png" in
        Ok (if startsWith "image/" mime then mime else guess_mime url, base64)
  end.

(** A reference served as [application/octet-stream]. *)
Definition net_octet : Net :=
  {| KIE_KEY := None; NB_API_KEY := Some "nb-key";
     db := fun _ => DbErr "no rows";
     image :=
       fetchImageAsBase64 "https://cdn.example/lamp.JPG?v=2"
         (ImageReplied true 200 "OK" None (Some "application/octet-stream") (Ok "QUJD"));
     gemini := Failed "socket hang up" 0;
     kie := []; now := 1000; cancelled := false |}.

(* ===================================================================== *)
(** ** Names of files and slugs ([safeName] of [page.tsx], [slugify] of
       the products route) *)
(* ===================================================================== *)

(** The character classes [a-z0-9] and [a-z0-9-_]. *)
Definition is_slug_char (c : ascii) : bool :=
  let n := nat_of_ascii c in
  ((97 <=? n) && (n <=? 122) || (48 <=? n) && (n <=? 57))%nat.

Definition is_dash (c : ascii) : bool := Ascii.eqb c "-".

Definition is_safe_char (c : ascii) : bool :=
  is_slug_char c || is_dash c || Ascii.eqb c "_".

(** [s.replace(/[^...]+/g, "-")] for a class given by [keep]: every
    maximal run of characters outside the class becomes one dash.
    [in_run] tells that the dash of the current run is written. *)
Fixpoint replace_runs (keep : ascii → bool) (in_run : bool) (s : string) : string :=
  match s with
  | EmptyString => EmptyString
  | String c s' =>
      if keep c then String c (replace_runs keep false s')
      else if in_run then replace_runs keep true s'
      else String "-" (replace_runs keep true s')
  end.

(** [s.replace(/^-+/, "")] and [s.replace(/-+$/, "")] *)
Fixpoint strip_leading (s : string) : string :=
  match s with
  | String c s' => if is_dash c then strip_leading s' else s
  | EmptyString => EmptyString
  end.

Fixpoint strip_trailing (s : string) : string :=
  match s with
  | EmptyString => EmptyString
  | String c s' =>
      match strip_trailing s' with
      | EmptyString => if is_dash c then EmptyString else String c EmptyString
      | r => String c r
      end
  end.

(** [s.replace(/^-/, "")] and [s.replace(/-$/, "")] *)
Definition drop_leading (s : string) : string :=
  match s with
  | String c s' => if is_dash c then s' else s
  | EmptyString => EmptyString
  end.

Fixpoint drop_trailing (s : string) : string :=
  match s with
  | EmptyString => EmptyString
  | String c EmptyString => if is_dash c then EmptyString else s
  | String c s' => String c (drop_trailing s')
  end.

Section WithLowerCase.

(** [String.prototype.toLowerCase] *)
Variable toLowerCase : string → string.

(** [s.toLowerCase().replace(/[^a-z0-9]+/g, "-").replace(/^-+|-+$/g, "")] *)
Definition slugify (s : string) : string :=
  strip_trailing (strip_leading (replace_runs is_slug_char false (toLowerCase s))).

(** [s.toLowerCase().replace(/[^a-z0-9-_]+/g, "-").replace(/-+/g, "-")
      .replace(/^-|-$/g, "")] *)
Definition safeName (s : string) : string :=
  drop_trailing
    (drop_leading
       (replace_runs (fun c => negb (is_dash c)) false
          (replace_runs is_safe_char false (toLowerCase s)))).

End WithLowerCase.

(** What is asked of a name. *)
Fixpoint all_chars (P : ascii → bool) (s : string) : bool :=
  match s with
  | EmptyString => true
  | String c s' => P c && all_chars P s'
  end.

Definition starts_dash (s : string) : bool :=
  match s with
  | String c _ => is_dash c
  | EmptyString => false
  end.

Fixpoint ends_dash (s : string) : bool :=
  match s with
  | EmptyString => false
  | String c EmptyString => is_dash c
  | String _ s' => ends_dash s'
  end.

Fixpoint double_dash (s : string) : bool :=
  match s with
  | String a s' => (is_dash a && starts_dash s') || double_dash s'
  | EmptyString => false
  end.

(* ===================================================================== *)
(** ** The concurrency helper of the video form ([runWithLimit]) *)
(* ===================================================================== *)

Module RunWithLimit.
Section WithTypes.

(** Results of the tasks and the errors they throw. *)
Context {T E : Type}.

(** [queue], [running] and [out] are the variables of the function, the
    tasks being named by their index in [tasks]; [settled] is the state
    of the promise returned ([resolve] and [reject] after the first do
    nothing). The rest is instrumentation: the tasks whose promise has not
    settled, those whose [then] or [catch] callback has run and whose
    [finally] callback is due, those whose [finally] callback has run, and
    the errors passed to [reject]. *)
Record State := {
  queue : list nat;
  running : nat;
  out : list T;
  settled : option (list T + E);
  pending : list nat;
  closing : list nat;
  finished : list nat;
  failed : list E;
}.

Definition resolve (s : State) : State :=
  match settled s with
  | Some _ => s
  | None =>
      {| queue := queue s; running := running s; out := out s;
         settled := Some (inl (out s));
         pending := pending s; closing := closing s; finished := finished s;
         failed := failed s |}
  end.

Definition reject (e : E) (s : State) : State :=
  match settled s with
  | Some _ => s
  | None =>
      {| queue := queue s; running := running s; out := out s;
         settled := Some (inr e);
         pending := pending s; closing := closing s; finished := finished s;
         failed := failed s |}
  end.

(** [while (running < limit && queue.length) { queue.shift(); running++;
    task()... }] *)
Fixpoint fill (limit : nat) (q : list nat) (run : nat) (pend : list nat)
  : list nat * nat * list nat :=
  match q with
  | [] => (q, run, pend)
  | task :: q' =>
      if (run <? limit)%nat then fill limit q' (S run) (pend ++ [task])
      else (q, run, pend)
  end.

Definition kick (limit : nat) (s : State) : State :=
  if bool_decide (length (queue s) = 0) && bool_decide (running s = 0) then resolve s
  else
    let '(q, run, pend) := fill limit (queue s) (running s) (pending s) in
    {| queue := q; running := run; out := out s; settled := settled s;
       pending := pend; closing := closing s; finished := finished s;
       failed := failed s |}.

(** The state when [runWithLimit(limit, tasks)] reaches its [await], for
    [n] tasks. *)
Definition runWithLimit (limit n : nat) : State :=
  kick limit
    {| queue := seq 0 n; running := 0; out := []; settled := None;
       pending := []; closing := []; finished := []; failed := [] |}.

(** The callbacks, one at a time: the promise of the [j]-th pending task
    is fulfilled and its [then] callback runs, or it is rejected and its
    [catch] callback runs; the [finally] callback of the [j]-th task that
    is due runs. *)
Inductive Callback :=
  | Then (j : nat) (r : T)
  | Catch (j : nat) (e : E)
  | Finally (j : nat).

Definition on_then (j : nat) (r : T) (s : State) : State :=
  match pending s !! j with
  | Some task =>
      {| queue := queue s; running := running s; out := out s ++ [r];
         settled := settled s;
         pending := delete j (pending s); closing := closing s ++ [task];
         finished := finished s; failed := failed s |}
  | None => s
  end.

Definition on_catch (j : nat) (e : E) (s : State) : State :=
  match pending s !! j with
  | Some task =>
      let s1 := reject e s in
      {| queue := queue s1; running := running s1; out := out s1;
         settled := settled s1;
         pending := delete j (pending s1); closing := closing s1 ++ [task];
         finished := finished s1; failed := failed s1 ++ [e] |}
  | None => s
  end.

Definition on_finally (limit j : nat) (s : State) : State :=
  match closing s !! j with
  | Some task =>
      let s1 :=
        {| queue := queue s;
           running := if bool_decide (0 < running s) then running s - 1 else running s;
           out := out s; settled := settled s;
           pending := pending s; closing := delete j (closing s);
           finished := finished s ++ [task]; failed := failed s |} in
      if bool_decide (0 < length (queue s1)) then kick limit s1
      else if bool_decide (length (queue s1) = 0) && bool_decide (running s1 = 0)
           then resolve s1
           else s1
  | None => s
  end.

Definition callback (limit : nat) (s : State) (c : Callback) : State :=
  match c with
  | Then j r => on_then j r s
  | Catch j e => on_catch j e s
  | Finally j => on_finally limit j s
  end.

Definition callbacks (limit : nat) (s : State) (cs : list Callback) : State :=
  fold_left (callback limit) cs s.

(** The state of [runWithLimit(limit, tasks)], for [n] tasks, after the
    callbacks [cs]. *)
Definition reached (limit n : nat) (cs : list Callback) : State :=
  callbacks limit (runWithLimit limit n) cs.

(** What holds of every state of a call with [n] tasks. *)
Definition state_ok (limit n : nat) (s : State) : Prop :=
  running s = length (pending s) + length (closing s)
  ∧ running s <= limit
  ∧ (∃ k, k <= n ∧ queue s = seq k (n - k)
          ∧ pending s ++ closing s ++ finished s ≡ₚ seq 0 k)
  ∧ (1 <= limit → queue s ≠ [] → running s = limit)
  ∧ length (out s) + length (failed s) = length (closing s) + length (finished s)
  ∧ (settled s = None → failed s = [] ∧ (queue s ≠ [] ∨ running s ≠ 0))
  ∧ (∀ e, settled s = Some (inr e) → head (failed s) = Some e)
  ∧ (∀ v, settled s = Some (inl v) →
          v = out s ∧ failed s = [] ∧ queue s = [] ∧ running s = 0).

(** What holds when [kick] is entered. *)
Definition entering (limit n : nat) (s : State) : Prop :=
  running s = length (pending s) + length (closing s)
  ∧ running s <= limit
  ∧ (∃ k, k <= n ∧ queue s = seq k (n - k)
          ∧ pending s ++ closing s ++ finished s ≡ₚ seq 0 k)
  ∧ length (out s) + length (failed s) = length (closing s) + length (finished s)
  ∧ (settled s = None → failed s = [])
  ∧ (∀ e, settled s = Some (inr e) → head (failed s) = Some e)
  ∧ (∀ v, settled s = Some (inl v) → False).

End WithTypes.
Arguments State : clear implicits.
Arguments Callback : clear implicits.

(** Three tasks, two at a time: the first succeeds, the second fails, and
    the third, started after the first, succeeds. *)
Definition three_tasks : list (Callback string string) :=
  [Then 0 "video-1"; Finally 0;
   Catch 0 "Generation failed (line 2)"; Finally 0;
   Then 0 "video-3"; Finally 0].

(** Two tasks that both succeed, the second first. *)
Definition two_tasks : list (Callback string string) :=
  [Then 1 "video-2"; Then 0 "video-1"; Finally 1; Finally 0].

End RunWithLimit.

(* ===================================================================== *)
(** ** The video route ([src/app/api/prompts/[id]/route.ts], from line 33) *)
(* ===================================================================== *)

Module VideoRoute.

(** The body of the request, after the destructuring with its defaults
    has been applied to the fields that have one; an absent field is
    [None]. *)
Record VideoBody := {
  vb_provider : option string;
  vb_mode : option string;
  vb_model : option string;
  vb_prompt : option string;
  vb_duration : option string;
  vb_negative_prompt : option string;
  vb_cfg_scale : option Z;        (* [Some] when [typeof cfg_scale === "number"] *)
  vb_aspect_ratio : option string;
  vb_productId : option string;
  vb_customUrl : option string;
}.

(** The payload of [createTask]; a field left out is [None]. *)
Record VideoPayload := {
  vp_model : string;
  vp_callBackUrl : string;
  vp_prompt : string;
  vp_image_url : option string;
  vp_duration : string;
  vp_aspect_ratio : option string;
  vp_negative_prompt : option string;
  vp_cfg_scale : option Z;
}.

Inductive VideoCall :=
  | VCreateTask (payload : VideoPayload)
  | VRecordInfo (taskId : Val).

Inductive VideoAnswer :=
  | VVideo (videoUrl : Val)
  | VError (err : string).

Record VideoResponse := { v_status : Z; v_body : VideoAnswer }.

(** The [catch] of [POST]. *)
Definition v_caught (message : string) : VideoResponse :=
  {| v_status := 500; v_body := VError (str_or (Some message) "Unexpected error") |}.

(** What one reply of [recordInfo] does to [kiePoll]. *)
Inductive KiePolled :=
  | KReturn (url : Val)
  | KThrow (message : string)
  | KPending.

Section WithJSON.

Variable JSON_parse : string -> option Val.
(** [String.prototype.trim] *)
Variable trim : string -> string.

Definition getReferenceUrl (net : Net) (productId customUrl : option string) : Res string :=
  let trimmedCustom := trim <$> customUrl in
  if nonempty (default "" trimmedCustom) then Ok (default "" trimmedCustom)
  else if negb (nonempty (default "" productId))
  then Throw "Reference image URL required (image-to-video)."
  else
    match db net (default "" productId) with
    | DbErr m => Throw ("DB error: " +:+ m)
    | DbRow row =>
        if nonempty (default "" row) then Ok (default "" row)
        else Throw "No image_url found for product"
    end.

(** [kieCreateTask]: the task id, or the error thrown. *)
Definition kieCreateTask (reply : option Fetched) : Res Val :=
  match reply with
  | None => Throw "fetch failed"
  | Some (Failed m _) => Throw m
  | Some (Replied ok status json _) =>
      if negb ok || negb (is_200 (get json "code")) then
        Throw (to_String
                 (js_or (get json "message")
                    (js_or (get json "msg")
                       (VStr ("KIE createTask failed (" +:+ string_of_Z status +:+ ")")))))
      else
        let taskId := get (get json "data") "taskId" in
        if negb (truthy taskId) then Throw "KIE taskId missing" else Ok taskId
  end.

Definition maxMs : Z := 240000.

(** The [try] block of [kiePoll] for a task in state success: the URL it
    returns, or what it throws. *)
Definition read_result (json : Val) : Res Val :=
  match JSON_parse (to_String (js_or (get (get json "data") "resultJson") (VStr "{}"))) with
  | Some parsed =>
      let urls := js_or (get parsed "resultUrls") (VArr []) in
      if negb (truthy (get urls "length")) then Throw "KIE returned no resultUrls"
      else Ok (get0 urls)
  | None => Throw "Unexpected token in JSON"
  end.

(** One reply, as the body of the loop of [kiePoll] reads it; the [catch]
    of the [try] block throws its own error whatever was thrown. *)
Definition kie_classify (ok : bool) (json : Val) : KiePolled :=
  if negb ok || negb (is_200 (get json "code")) then
    KThrow (to_String
              (js_or (get json "message") (js_or (get json "msg") (VStr "KIE query failed"))))
  else
    let lastState := js_or (get (get json "data") "state") (VStr "unknown") in
    if is_str "success" lastState then
      match read_result json with
      | Ok url => KReturn url
      | Throw _ => KThrow "Malformed KIE resultJson"
      end
    else if is_str "fail" lastState then
      KThrow (to_String
                (js_or (get (get json "data") "failMsg") (VStr "KIE reported failure")))
    else KPending.

(** [kiePoll]: [clock] is [Date.now()] at the loop test. *)
Fixpoint kiePoll (start clock : Z) (lastState taskId : Val)
    (replies : list Fetched) (sent : list VideoCall) : Res Val * list VideoCall :=
  if (clock - start <? maxMs)%Z then
    let sent1 := sent ++ [VRecordInfo taskId] in
    match replies with
    | [] => (Throw "fetch failed", sent1)
    | Failed m _ :: _ => (Throw m, sent1)
    | Replied ok _ json lat :: rest =>
        match kie_classify ok json with
        | KReturn url => (Ok url, sent1)
        | KThrow m => (Throw m, sent1)
        | KPending =>
            kiePoll start (clock + 2000 + Z.of_N lat)
              (js_or (get (get json "data") "state") (VStr "unknown")) taskId rest sent1
        end
    end
  else
    (Throw ("KIE generation timed out (last state: " +:+ to_String lastState +:+ ")"), sent).

(** [kieCreateTask(payload)] and then [kiePoll(taskId)], under the [catch]
    of [POST]. *)
Definition generate (net : Net) (payload : VideoPayload) : VideoResponse * list VideoCall :=
  let sent := [VCreateTask payload] in
  match kieCreateTask (head (kie net)) with
  | Throw m => (v_caught m, sent)
  | Ok taskId =>
      let start :=
        match head (kie net) with
        | Some (Replied _ _ _ lat) => (now net + Z.of_N lat)%Z
        | _ => now net
        end in
      match kiePoll start start (VStr "waiting") taskId (tail (kie net)) sent with
      | (Ok url, sent') => ({| v_status := 200; v_body := VVideo url |}, sent')
      | (Throw m, sent') => (v_caught m, sent')
      end
  end.

Definition keep_nonempty (s : option string) : option string :=
  match s with
  | Some x => if nonempty x then Some x else None
  | None => None
  end.

Definition POST (net : Net) (body : VideoBody) : VideoResponse * list VideoCall :=
  if negb (nonempty (default "" (KIE_KEY net))) then
    ({| v_status := 500; v_body := VError "KIE_API_KEY missing" |}, [])
  else if negb (nonempty (default "" (vb_prompt body))) then
    ({| v_status := 400; v_body := VError "Missing prompt" |}, [])
  else if negb (String.eqb (default "kling" (vb_provider body)) "kling") then
    ({| v_status := 400;
        v_body := VError ("Provider " +:+ default "kling" (vb_provider body)
                            +:+ " not supported") |}, [])
  else if negb (String.eqb (default "" (vb_mode body)) "image-to-video")
          && negb (String.eqb (default "" (vb_mode body)) "text-to-video") then
    ({| v_status := 400; v_body := VError "Invalid mode" |}, [])
  else if String.eqb (default "" (vb_mode body)) "image-to-video" then
    match getReferenceUrl net (vb_productId body) (vb_customUrl body) with
    | Throw m => (v_caught m, [])
    | Ok image_url =>
        generate net
          {| vp_model := str_or (vb_model body) "kling/v2-5-turbo-image-to-video-pro";
             vp_callBackUrl := "";
             vp_prompt := default "" (vb_prompt body);
             vp_image_url := Some image_url;
             vp_duration := default "5" (vb_duration body);
             vp_aspect_ratio := None;
             vp_negative_prompt := keep_nonempty (vb_negative_prompt body);
             vp_cfg_scale := vb_cfg_scale body |}
    end
  else
    generate net
      {| vp_model := str_or (vb_model body) "kling/v2-5-turbo-text-to-video-pro";
         vp_callBackUrl := "";
         vp_prompt := default "" (vb_prompt body);
         vp_image_url := None;
         vp_duration := default "5" (vb_duration body);
         vp_aspect_ratio := keep_nonempty (vb_aspect_ratio body);
         vp_negative_prompt := keep_nonempty (vb_negative_prompt body);
         vp_cfg_scale := vb_cfg_scale body |}.

End WithJSON.
End VideoRoute.

(** A text-to-video request, and a task whose result lists no URL. *)
Definition video_text : VideoRoute.VideoBody :=
  {| VideoRoute.vb_provider := None; VideoRoute.vb_mode := Some "text-to-video";
     VideoRoute.vb_model := None; VideoRoute.vb_prompt := Some "a lamp at dusk";
     VideoRoute.vb_duration := None; VideoRoute.vb_negative_prompt := None;
     VideoRoute.vb_cfg_scale := None; VideoRoute.vb_aspect_ratio := Some "16:9";
     VideoRoute.vb_productId := None; VideoRoute.vb_customUrl := None |}.

Definition reply_no_urls : Fetched :=
  reply_state "success" [("resultJson", VStr "no-urls")].

Definition parse_no_urls (s : string) : option Val :=
  if String.eqb s "no-urls" then Some (VObj [("resultUrls", VArr [])])
  else parse_results s.

Definition net_no_urls : Net :=
  {| KIE_KEY := Some "kie-key"; NB_API_KEY := None;
     db := fun _ => DbErr "no rows";
     image := Throw "not used";
     gemini := Failed "not used" 0;
     kie := [reply_created; reply_no_urls];
     now := 1000; cancelled := false |}.

(* ===================================================================== *)
(** ** Updaters of the list of runs *)
(* ===================================================================== *)

Lemma elem_of_updateRun runId f rs r' :
  r' ∈ updateRun runId f rs ↔
  ∃ r, r ∈ rs ∧ r' = (if decide (run_id r = runId) then f r else r).
Proof.
  unfold updateRun. rewrite list_elem_of_fmap. split.
  - intros (r & -> & Hr). exists r. split; [exact Hr | reflexivity].
  - intros (r & Hr & ->). exists r. split; [reflexivity | exact Hr].
Qed.

Lemma updateRun_compose runId f g rs :
  (∀ r, run_id (f r) = run_id r) →
  updateRun runId g (updateRun runId f rs) = updateRun runId (fun r => g (f r)) rs.
Proof.
  intros Hid. unfold updateRun. rewrite <- list_fmap_compose.
  apply list_fmap_ext. intros i r _. simpl.
  destruct (decide (run_id r = runId)) as [E|N].
  - rewrite decide_True by (rewrite Hid; exact E). reflexivity.
  - rewrite decide_False by exact N. reflexivity.
Qed.

Lemma updateRun_ext runId f g rs :
  (∀ r, r ∈ rs → run_id r = runId → f r = g r) →
  updateRun runId f rs = updateRun runId g rs.
Proof.
  intros H. unfold updateRun. apply list_fmap_ext. intros i r Hi.
  destruct (decide (run_id r = runId)); [|reflexivity].
  apply H; [eapply list_elem_of_lookup_2; exact Hi | assumption].
Qed.

Lemma updateRun_fmap {B} (g : Run → B) runId f rs :
  (∀ r, g (f r) = g r) → g <$> updateRun runId f rs = g <$> rs.
Proof.
  intros H. unfold updateRun. rewrite <- list_fmap_compose.
  apply list_fmap_ext. intros i r _. simpl.
  destruct (decide (run_id r = runId)); [apply H | reflexivity].
Qed.

Lemma updateRun_length runId f rs : length (updateRun runId f rs) = length rs.
Proof. unfold updateRun. apply length_fmap. Qed.

Lemma updateRun_id runId f rs :
  (∀ r, r ∈ rs → run_id r = runId → f r = r) → updateRun runId f rs = rs.
Proof.
  intros H. unfold updateRun. rewrite <- (list_fmap_id rs) at 2.
  apply list_fmap_ext. intros i r Hi. simpl.
  destruct (decide (run_id r = runId)); [|reflexivity].
  apply H; [eapply list_elem_of_lookup_2; exact Hi | assumption].
Qed.

Lemma fail_updates runId message dbg rs :
  incProgress runId (setError runId message dbg rs)
  = updateRun runId (fail_update message dbg) rs.
Proof. unfold incProgress, setError. rewrite updateRun_compose; [reflexivity|]. by intros []. Qed.

Lemma image_updates runId img rs :
  incProgress runId (pushImage runId img rs) = updateRun runId (image_update img) rs.
Proof. unfold incProgress, pushImage. rewrite updateRun_compose; [reflexivity|]. by intros []. Qed.

Lemma finishRun_fail runId message dbg rs :
  finishRun runId (updateRun runId (fail_update message dbg) rs)
  = updateRun runId (fail_update message dbg) rs.
Proof.
  unfold finishRun. rewrite updateRun_compose by (by intros []).
  apply updateRun_ext. intros r _ _. reflexivity.
Qed.

Lemma finishRun_error runId message dbg rs :
  finishRun runId (setError runId message dbg rs) = setError runId message dbg rs.
Proof.
  unfold finishRun, setError. rewrite updateRun_compose by (by intros []).
  apply updateRun_ext. intros r _ _. reflexivity.
Qed.

Lemma worker_resume_pool p w idx rep imgId rs :
  fst (worker_resume p w idx rep imgId rs) = resumed p w idx rep imgId.
Proof.
  unfold resumed, worker_resume.
  destruct rep as [[] json | ename emessage]; simpl;
    try destruct (worker_loop (p_total p) (cursor p)); reflexivity.
Qed.

Lemma worker_resume_runs p w idx rep imgId rs :
  snd (worker_resume p w idx rep imgId rs)
  = updateRun (run_id (p_run p)) (outcome_update p idx rep imgId) rs.
Proof.
  unfold worker_resume, outcome_update.
  destruct rep as [[] json | ename emessage]; simpl.
  - destruct (worker_loop (p_total p) (cursor p)). simpl. apply image_updates.
  - destruct (worker_loop (p_total p) (cursor p)). simpl. apply fail_updates.
  - reflexivity.
Qed.

Lemma resumed_run p w idx rep imgId : p_run (resumed p w idx rep imgId) = p_run p.
Proof.
  unfold resumed, worker_resume.
  destruct rep as [[] json | ename emessage]; simpl;
    try destruct (worker_loop (p_total p) (cursor p)); reflexivity.
Qed.

Lemma deliver_eq s k w p idx rep imgId :
  pools s !! k = Some p → workers p !! w = Some (Awaiting idx) →
  deliver k w rep imgId s
  = {| runs := settle (resumed p w idx rep imgId)
                 (updateRun (run_id (p_run p)) (outcome_update p idx rep imgId) (runs s));
       activeRunId := activeRunId s; aborted := aborted s;
       nextController := nextController s;
       pools := <[ k := resumed p w idx rep imgId ]> (pools s) |}.
Proof.
  intros Hk Hw. unfold deliver. rewrite Hk, Hw.
  rewrite <- (worker_resume_pool p w idx rep imgId (runs s)).
  rewrite <- (worker_resume_runs p w idx rep imgId (runs s)).
  destruct (worker_resume p w idx rep imgId (runs s)). reflexivity.
Qed.

Lemma settle_eq p rs :
  settle p rs
  = updateRun (run_id (p_run p))
      (fun r => if all_exited p then finish_update r else r) rs.
Proof.
  unfold settle, finishRun. destruct (all_exited p); [reflexivity|].
  symmetry. apply updateRun_id. reflexivity.
Qed.

Lemma outcome_update_id p idx rep imgId r :
  run_id (outcome_update p idx rep imgId r) = run_id r.
Proof. destruct rep as [[] json | ename emessage]; reflexivity. Qed.

(** The runs after a reply: one update of the runs with the pool's id. *)
Lemma deliver_runs s k w p idx rep imgId :
  pools s !! k = Some p → workers p !! w = Some (Awaiting idx) →
  runs (deliver k w rep imgId s)
  = updateRun (run_id (p_run p))
      (fun r =>
         if all_exited (resumed p w idx rep imgId)
         then finish_update (outcome_update p idx rep imgId r)
         else outcome_update p idx rep imgId r)
      (runs s).
Proof.
  intros Hk Hw. rewrite (deliver_eq s k w p idx rep imgId Hk Hw). simpl.
  rewrite settle_eq, resumed_run.
  rewrite updateRun_compose by apply outcome_update_id. reflexivity.
Qed.

(* ===================================================================== *)
(** ** C1: a failed reply *)
(* ===================================================================== *)

(** C1, as stated, fails: a run is running with two requests in flight;
    the reply to the first is a non-success response; the run's status is
    then [Error], not [Running]. *)
Lemma C1_failure_leaves_running_refuted :
  status <$> runs app_started = [Running]
  ∧ status <$> runs (deliver 0 0 (Responded false body_failed) "img-1" app_started)
    = [Error].
Proof. split; reflexivity. Qed.

(** C1, amended: when a non-success response reaches a worker, every run
    with the pool's id gets the failure message and diagnostic (so the
    latest failure wins), one more completed prompt and the status
    [Error]; nothing else in the run and no other run changes; the worker
    goes back to the head of its loop, claiming the next index if one is
    left, so the batch keeps going. *)
Theorem C1_failure_recorded s k w p idx json imgId :
  pools s !! k = Some p →
  workers p !! w = Some (Awaiting idx) →
  let s' := deliver k w (Responded false json) imgId s in
  let message := str_or (b_error json) "Generation failed" in
  runs s' = updateRun (run_id (p_run p)) (fail_update message (b_debug json)) (runs s)
  ∧ (∀ r, status (fail_update message (b_debug json) r) = Error
          ∧ error (fail_update message (b_debug json) r) = Some message
          ∧ debug (fail_update message (b_debug json) r) = b_debug json
          ∧ done (progress (fail_update message (b_debug json) r)) = done (progress r) + 1
          ∧ total (progress (fail_update message (b_debug json) r)) = total (progress r)
          ∧ images (fail_update message (b_debug json) r) = images r)
  ∧ ∃ p', pools s' !! k = Some p'
          ∧ workers p' !! w = Some (fst (worker_loop (p_total p) (cursor p)))
          ∧ cursor p' = snd (worker_loop (p_total p) (cursor p))
          ∧ p_log p' = p_log p ++ [(idx, Failure message (b_debug json))].
Proof.
  intros Hk Hw s' message. subst s'. split; [|split].
  - rewrite (deliver_runs s k w p idx _ imgId Hk Hw). simpl.
    apply updateRun_ext. intros r _ _.
    destruct (all_exited _); reflexivity.
  - intros r. repeat split.
  - rewrite (deliver_eq s k w p idx _ imgId Hk Hw). simpl.
    exists (resumed p w idx (Responded false json) imgId).
    split; [apply list_lookup_insert_eq; eapply lookup_lt_Some; exact Hk|].
    unfold resumed, worker_resume. simpl.
    destruct (worker_loop (p_total p) (cursor p)) as [x cur]. simpl.
    split; [apply list_lookup_insert_eq; eapply lookup_lt_Some; exact Hw|].
    split; reflexivity.
Qed.

(** The amended C1 at the example: the first of two requests in flight
    fails. *)
Lemma C1_failure_recorded_witness :
  ∃ p, pools app_started !! 0 = Some p
       ∧ workers p !! 0 = Some (Awaiting 0)
       ∧ runs (deliver 0 0 (Responded false body_failed) "img-1" app_started)
         = updateRun (run_id (p_run p))
             (fail_update (str_or (b_error body_failed) "Generation failed")
                (b_debug body_failed))
             (runs app_started).
Proof.
  eexists. split; [reflexivity|]. split; [reflexivity|].
  apply (C1_failure_recorded app_started 0 0 _ 0 body_failed "img-1");
    reflexivity.
Defined.

(* ===================================================================== *)
(** ** Runs that are running *)
(* ===================================================================== *)

Lemma running_preimage runId f rs r' :
  (∀ r, run_id (f r) = run_id r) →
  (∀ r, status (f r) = Running → status r = Running) →
  r' ∈ updateRun runId f rs → status r' = Running →
  ∃ r, r ∈ rs ∧ run_id r = run_id r' ∧ status r = Running.
Proof.
  intros Hid Hst [r [Hr ->]]%elem_of_updateRun Hrun.
  exists r. destruct (decide (run_id r = runId)); auto.
Qed.

Lemma finish_update_id r : run_id (finish_update r) = run_id r.
Proof. unfold finish_update. destruct (decide _); reflexivity. Qed.

Lemma finish_update_running r : status (finish_update r) = Running → False.
Proof. unfold finish_update. destruct (decide _); simpl; congruence. Qed.

Lemma finish_update_terminal r : status r ≠ Running → finish_update r = r.
Proof. unfold finish_update. intros H. destruct (decide _); [contradiction | reflexivity]. Qed.

Lemma outcome_update_running p idx rep imgId r :
  status (outcome_update p idx rep imgId r) = Running → status r = Running.
Proof. destruct rep as [[] json | ename emessage]; simpl; congruence. Qed.

Lemma dropOldest_subset rs ab r : r ∈ fst (dropOldest rs ab) → r ∈ rs.
Proof.
  unfold dropOldest. destruct (decide _); [auto|].
  destruct (sort_by_startedAt rs); simpl; [auto|].
  rewrite list_elem_of_filter. tauto.
Qed.

Lemma settle_running p rs r' :
  r' ∈ settle p rs → status r' = Running →
  ∃ r, r ∈ rs ∧ run_id r = run_id r' ∧ status r = Running.
Proof.
  rewrite settle_eq. apply running_preimage.
  - intros r. destruct (all_exited p); [apply finish_update_id | reflexivity].
  - intros r. destruct (all_exited p); [|auto].
    intros H. destruct (finish_update_running _ H).
Qed.

(* ===================================================================== *)
(** ** The invariant of the page *)
(* ===================================================================== *)

Lemma awaiting_insert ws w idx x :
  ws !! w = Some (Awaiting idx) →
  flat_map wait_of (<[ w := x ]> ws) ++ [idx] ≡ₚ flat_map wait_of ws ++ wait_of x.
Proof.
  intros Hw.
  rewrite insert_take_drop by (eapply lookup_lt_Some; exact Hw).
  rewrite <- (take_drop_middle ws w _ Hw) at 3.
  rewrite !flat_map_app. simpl.
  generalize (flat_map wait_of (take w ws)) (flat_map wait_of (drop (S w) ws)).
  intros l1 l2. rewrite <- !app_assoc. apply Permutation_app_head.
  rewrite (Permutation_app_comm (wait_of x)). rewrite <- app_assoc.
  rewrite (Permutation_app_comm l2). simpl. rewrite Permutation_app_comm. simpl.
  rewrite (Permutation_app_comm _ (wait_of x)). reflexivity.
Qed.

Lemma elem_of_insert_inv {A} (l : list A) i x y :
  y ∈ <[ i := x ]> l → y = x ∨ y ∈ l.
Proof.
  intros [j Hj]%list_elem_of_lookup.
  destruct (decide (i = j)) as [->|Hne].
  - destruct (decide (j < length l)).
    + rewrite list_lookup_insert_eq in Hj by assumption. left. congruence.
    + rewrite list_insert_ge in Hj by lia. right. eapply list_elem_of_lookup_2; eauto.
  - rewrite list_lookup_insert_ne in Hj by assumption.
    right. eapply list_elem_of_lookup_2; eauto.
Qed.

Lemma resumed_pool_ok p w idx rep imgId :
  pool_ok p → workers p !! w = Some (Awaiting idx) →
  pool_ok (resumed p w idx rep imgId).
Proof.
  intros (Hperm & Hle & Hex & Hlen & Htot) Hw.
  pose proof (fun x => awaiting_insert (workers p) w idx x Hw) as Haw.
  assert (Hcases :
    ∀ x cur lg dr,
      (fst <$> lg) ++ (flat_map wait_of (<[w:=x]> (workers p))) ++ dr ≡ₚ seq 0 cur →
      cur <= p_total p →
      (Exited ∈ <[w:=x]> (workers p) → cur = p_total p ∨ dr ≠ []) →
      pool_ok (set_worker w x cur lg dr p)).
  { intros x cur lg dr H1 H2 H3. unfold pool_ok, log_indices, awaiting, p_total. simpl.
    split; [exact H1|]. split; [exact H2|]. split; [exact H3|].
    split; [rewrite length_insert; exact Hlen | exact Htot]. }
  unfold log_indices, awaiting in Hperm.
  unfold resumed, worker_resume.
  destruct rep as [ok json | ename emessage].
  - assert (Hgo : ∀ o, pool_ok
        (let '(x, cur) := worker_loop (p_total p) (cursor p) in
         set_worker w x cur (p_log p ++ [(idx, o)]) (p_dropped p) p)).
    { intros o. unfold worker_loop. destruct (decide (p_total p <= cursor p)) as [Hge|Hlt].
      - apply Hcases.
        + rewrite fmap_app. change ([(idx, o)].*1) with [idx]. rewrite <- Hperm.
          rewrite <- !app_assoc. apply Permutation_app_head.
          rewrite (app_assoc [idx]). apply Permutation_app_tail.
          rewrite Permutation_app_comm. rewrite (Haw Exited). simpl. rewrite app_nil_r. reflexivity.
        + exact Hle.
        + intros _. left. lia.
      - apply Hcases.
        + rewrite seq_S, fmap_app, Nat.add_0_l. change ([(idx, o)].*1) with [idx].
          rewrite <- Hperm.
          rewrite <- !app_assoc. apply Permutation_app_head.
          rewrite (app_assoc [idx]). rewrite (Permutation_app_comm [idx]).
          rewrite (Haw (Awaiting (cursor p))). simpl.
          rewrite <- app_assoc. apply Permutation_app_head.
          apply Permutation_app_comm with (l := [cursor p]).
        + lia.
        + intros [Hx | Hin]%elem_of_insert_inv; [discriminate|].
          destruct (Hex Hin) as [E | N]; [lia | right; exact N]. }
    destruct ok; simpl.
    + specialize (Hgo (Success {| img_id := imgId; img_prompt := nth idx (prompts (p_run p)) "";
                      imageDataUrl := b_imageDataUrl json |})).
      destruct (worker_loop (p_total p) (cursor p)). exact Hgo.
    + specialize (Hgo (Failure (str_or (b_error json) "Generation failed") (b_debug json))).
      destruct (worker_loop (p_total p) (cursor p)). exact Hgo.
  - simpl. apply Hcases.
    + rewrite <- Hperm. apply Permutation_app_head.
      rewrite (Permutation_app_comm (p_dropped p) [idx]), app_assoc, (Haw Exited).
      simpl. rewrite app_nil_r. reflexivity.
    + exact Hle.
    + intros _. right. destruct (p_dropped p); discriminate.
Qed.

Lemma all_exited_false p w idx :
  workers p !! w = Some (Awaiting idx) → all_exited p = false.
Proof.
  intros Hw. unfold all_exited. apply not_true_is_false. intros H.
  rewrite forallb_forall in H.
  specialize (H (Awaiting idx)).
  assert (Hin : In (Awaiting idx) (workers p)).
  { apply list_elem_of_In. eapply list_elem_of_lookup_2. exact Hw. }
  specialize (H Hin). apply bool_decide_eq_true in H. discriminate.
Qed.

Lemma log_images_snoc lg i o :
  log_images (lg ++ [(i, o)])
  = log_images lg ++ match o with Success img => [img] | Failure _ _ => [] end.
Proof. unfold log_images. rewrite flat_map_app. simpl. rewrite app_nil_r. reflexivity. Qed.

Lemma all_success_snoc lg i o :
  all_success lg → is_success o = true → all_success (lg ++ [(i, o)]).
Proof.
  intros H1 H2. unfold all_success. apply Forall_app. split; [exact H1|].
  constructor; [exact H2 | constructor].
Qed.

Lemma linked_finish r p :
  linked r p → all_exited p = true → linked (finish_update r) p.
Proof.
  intros (H1 & H2 & H3 & H4 & H5 & H6 & H7) Hall.
  unfold finish_update. destruct (decide (status r = Running)) as [E|N].
  - unfold linked. simpl.
    split; [exact H1|]. split; [exact H2|]. split; [exact H3|].
    split; [exact H4|]. split; [exact H5|].
    split; [intros _; apply H6; left; exact E | intros _; exact Hall].
  - unfold linked. tauto.
Qed.

Lemma linked_outcome r p w idx rep imgId :
  linked r p → workers p !! w = Some (Awaiting idx) →
  linked (outcome_update p idx rep imgId r) (resumed p w idx rep imgId).
Proof.
  intros (H1 & H2 & H3 & H4 & H5 & H6 & H7) Hw.
  pose proof (all_exited_false p w idx Hw) as Hne.
  unfold resumed, worker_resume, outcome_update.
  destruct rep as [[] json | ename emessage];
    try destruct (worker_loop (p_total p) (cursor p)) as [x cur];
    unfold linked, p_total; simpl.
  - split; [exact H1|]. split; [exact H2|]. split; [exact H3|].
    split; [rewrite length_app; simpl; lia|].
    split; [rewrite log_images_snoc, H5; reflexivity|].
    split.
    + intros Hst. destruct (H6 Hst) as [Hd Hs]. split; [exact Hd|].
      apply all_success_snoc; [exact Hs | reflexivity].
    + intros Hst. rewrite (H7 Hst) in Hne. discriminate.
  - split; [exact H1|]. split; [exact H2|]. split; [exact H3|].
    split; [rewrite length_app; simpl; lia|].
    split; [rewrite log_images_snoc, H5, app_nil_r; reflexivity|].
    split; [intros [?|?]; discriminate | discriminate].
  - split; [exact H1|]. split; [exact H2|]. split; [exact H3|].
    split; [exact H4|]. split; [exact H5|].
    split; [intros [?|?]; discriminate | discriminate].
Qed.

Lemma linked_resumed r p w idx rep imgId :
  linked r p → workers p !! w = Some (Awaiting idx) →
  linked
    (if all_exited (resumed p w idx rep imgId)
     then finish_update (outcome_update p idx rep imgId r)
     else outcome_update p idx rep imgId r)
    (resumed p w idx rep imgId).
Proof.
  intros Hl Hw. pose proof (linked_outcome r p w idx rep imgId Hl Hw) as H.
  destruct (all_exited (resumed p w idx rep imgId)) eqn:E; [|exact H].
  apply linked_finish; assumption.
Qed.

Lemma deliver_pools s k w p idx rep imgId :
  pools s !! k = Some p → workers p !! w = Some (Awaiting idx) →
  pools (deliver k w rep imgId s) = <[ k := resumed p w idx rep imgId ]> (pools s)
  ∧ nextController (deliver k w rep imgId s) = nextController s
  ∧ aborted (deliver k w rep imgId s) = aborted s
  ∧ activeRunId (deliver k w rep imgId s) = activeRunId s.
Proof.
  intros Hk Hw. rewrite (deliver_eq s k w p idx rep imgId Hk Hw). repeat split.
Qed.

Lemma deliver_pool_ids s k w rep imgId :
  pool_ids (deliver k w rep imgId s) = pool_ids s.
Proof.
  unfold deliver.
  destruct (pools s !! k) as [p|] eqn:Hk; [|reflexivity].
  destruct (workers p !! w) as [[idx|]|] eqn:Hw; try reflexivity.
  destruct (worker_resume p w idx rep imgId (runs s)) as [p' rs] eqn:E.
  assert (p' = resumed p w idx rep imgId) as ->.
  { rewrite <- (worker_resume_pool p w idx rep imgId (runs s)), E. reflexivity. }
  unfold pool_ids. simpl. rewrite list_fmap_insert. apply list_insert_id.
  rewrite list_lookup_fmap, Hk. simpl. rewrite resumed_run. reflexivity.
Qed.

Lemma deliver_ok s k w rep imgId : app_ok s → app_ok (deliver k w rep imgId s).
Proof.
  intros Hok.
  destruct (pools s !! k) as [p|] eqn:Hk;
    [|unfold deliver; rewrite Hk; exact Hok].
  destruct (workers p !! w) as [[idx|]|] eqn:Hw;
    try (unfold deliver; rewrite Hk, Hw; exact Hok).
  pose proof (deliver_runs s k w p idx rep imgId Hk Hw) as Hr.
  destruct (deliver_pools s k w p idx rep imgId Hk Hw) as (Hp & Hn & _ & _).
  pose proof (deliver_pool_ids s k w rep imgId) as Hids.
  destruct Hok as (N1 & N2 & Hsub & Hpok & Hlink & N3 & Hctl).
  set (g := fun r : Run =>
         if all_exited (resumed p w idx rep imgId)
         then finish_update (outcome_update p idx rep imgId r)
         else outcome_update p idx rep imgId r) in *.
  assert (Hgid : ∀ r, run_id (g r) = run_id r).
  { intros r. unfold g. destruct (all_exited _);
      [rewrite finish_update_id|]; apply outcome_update_id. }
  assert (Hgc : ∀ r, controller (g r) = controller r).
  { intros r. unfold g, finish_update.
    destruct (all_exited _); [destruct (decide _)|];
      destruct rep as [[] json | ename emessage]; reflexivity. }
  unfold app_ok. rewrite Hids, Hr, Hp, Hn.
  split; [exact N1|].
  split; [rewrite (updateRun_fmap run_id) by exact Hgid; exact N2|].
  split.
  { intros r' [r [Hin ->]]%elem_of_updateRun.
    destruct (decide _); [rewrite Hgid|]; apply Hsub; exact Hin. }
  split.
  { intros j q Hj. destruct (decide (k = j)) as [->|Hne].
    - rewrite list_lookup_insert_eq in Hj by (eapply lookup_lt_Some; exact Hk).
      injection Hj as <-. apply resumed_pool_ok; [eapply Hpok; exact Hk | exact Hw].
    - rewrite list_lookup_insert_ne in Hj by exact Hne. eapply Hpok; exact Hj. }
  split.
  { intros r' j q [r [Hin ->]]%elem_of_updateRun Hj Hid.
    destruct (decide (k = j)) as [->|Hne].
    - rewrite list_lookup_insert_eq in Hj by (eapply lookup_lt_Some; exact Hk).
      injection Hj as <-. rewrite resumed_run in Hid.
      destruct (decide (run_id r = run_id (p_run p))) as [E|N].
      + apply linked_resumed; [|exact Hw]. eapply Hlink; eauto.
      + contradiction.
    - rewrite list_lookup_insert_ne in Hj by exact Hne.
      assert (Hqp : run_id (p_run q) ≠ run_id (p_run p)).
      { intros E. apply Hne.
        eapply (NoDup_lookup _ k j (run_id (p_run p)) N1);
          unfold pool_ids; rewrite list_lookup_fmap.
        - rewrite Hk. reflexivity.
        - rewrite Hj. simpl. rewrite E. reflexivity. }
      destruct (decide (run_id r = run_id (p_run p))) as [E|N].
      + rewrite Hgid in Hid. congruence.
      + eapply Hlink; eauto. }
  split; [rewrite (updateRun_fmap controller) by exact Hgc; exact N3|].
  intros r' [r [Hin ->]]%elem_of_updateRun.
  destruct (decide _); [rewrite Hgc|]; apply Hctl; exact Hin.
Qed.

Lemma spawn_spec n : ∀ tot c ws cur,
  spawn n tot c = (ws, cur) → c <= tot →
  flat_map wait_of ws = seq c (cur - c)
  ∧ c <= cur ∧ cur <= tot
  ∧ length ws = n
  ∧ (Exited ∈ ws → cur = tot)
  ∧ (0 < n → c < tot → ws !! 0 = Some (Awaiting c)).
Proof.
  induction n as [|n IH]; intros tot c ws cur Hs Hc; simpl in Hs.
  - injection Hs as <- <-. rewrite Nat.sub_diag. simpl.
    repeat split; try lia. intros H. inversion H.
  - unfold worker_loop in Hs. destruct (decide (tot <= c)) as [Hge|Hlt].
    + destruct (spawn n tot c) as [ws1 cur1] eqn:E. injection Hs as <- <-.
      destruct (IH tot c ws1 cur1 E Hc) as (H1 & H2 & H3 & H4 & H5 & H6).
      simpl. repeat split; try lia; auto.
    + destruct (spawn n tot (S c)) as [ws1 cur1] eqn:E. injection Hs as <- <-.
      destruct (IH tot (S c) ws1 cur1 E ltac:(lia)) as (H1 & H2 & H3 & H4 & H5 & H6).
      simpl. rewrite H1.
      replace (cur1 - c) with (S (cur1 - S c)) by lia. simpl.
      repeat split; try lia; auto.
      intros [Hx|Hin]%elem_of_cons; [discriminate | auto].
Qed.

Lemma parallelism_pos sp : 1 <= parallelism sp.
Proof. unfold parallelism. lia. Qed.

Lemma dropOldest_sublist rs ab : fst (dropOldest rs ab) `sublist_of` rs.
Proof.
  unfold dropOldest. destruct (decide _); [reflexivity|].
  destruct (sort_by_startedAt rs); simpl; [reflexivity|]. apply sublist_filter.
Qed.

Lemma sublist_ok s rs ar ab :
  app_ok s → rs `sublist_of` runs s →
  app_ok {| runs := rs; activeRunId := ar; aborted := ab;
            nextController := nextController s; pools := pools s |}.
Proof.
  intros (N1 & N2 & Hsub & Hpok & Hlink & N3 & Hctl) Hsl.
  assert (Hin : ∀ r, r ∈ rs → r ∈ runs s) by (intros r Hr; eapply elem_of_sublist; eauto).
  unfold app_ok, pool_ids. simpl.
  split; [exact N1|].
  split; [eapply sublist_NoDup; [exact N2 | apply fmap_sublist; exact Hsl]|].
  split; [intros r Hr; apply Hsub; auto|].
  split; [exact Hpok|].
  split; [intros r k p Hr; apply Hlink; auto|].
  split; [eapply sublist_NoDup; [exact N3 | apply fmap_sublist; exact Hsl]|].
  intros r Hr; apply Hctl; auto.
Qed.

Lemma update_ok s runId f ar ab :
  app_ok s →
  (∀ r, run_id (f r) = run_id r) →
  (∀ r, controller (f r) = controller r) →
  (∀ r p, linked r p → linked (f r) p) →
  app_ok {| runs := updateRun runId f (runs s); activeRunId := ar; aborted := ab;
            nextController := nextController s; pools := pools s |}.
Proof.
  intros (N1 & N2 & Hsub & Hpok & Hlink & N3 & Hctl) Hid Hc Hl.
  unfold app_ok, pool_ids. simpl.
  split; [exact N1|].
  split; [rewrite (updateRun_fmap run_id) by exact Hid; exact N2|].
  split.
  { intros r' [r [Hin ->]]%elem_of_updateRun.
    destruct (decide _); [rewrite Hid|]; apply Hsub; exact Hin. }
  split; [exact Hpok|].
  split.
  { intros r' k p [r [Hin ->]]%elem_of_updateRun Hk Hrid.
    destruct (decide _).
    - apply Hl. rewrite Hid in Hrid. eapply Hlink; eauto.
    - eapply Hlink; eauto. }
  split; [rewrite (updateRun_fmap controller) by exact Hc; exact N3|].
  intros r' [r [Hin ->]]%elem_of_updateRun.
  destruct (decide _); [rewrite Hc|]; apply Hctl; exact Hin.
Qed.

Lemma cancelRun_ok runId s : app_ok s → app_ok (cancelRun runId s).
Proof.
  intros H. unfold cancelRun. apply update_ok; auto.
  intros r p (H1 & H2 & H3 & H4 & H5 & H6 & H7). unfold linked. simpl.
  split; [exact H1|]. split; [exact H2|]. split; [exact H3|].
  split; [exact H4|]. split; [exact H5|].
  split; [intros [?|?]; discriminate | discriminate].
Qed.

Lemma deleteRun_ok runId s : app_ok s → app_ok (deleteRun runId s).
Proof. intros H. unfold deleteRun. apply sublist_ok; [exact H | apply sublist_filter]. Qed.

Lemma toggle_ok runId idx s :
  app_ok s → app_ok (set_runs (toggleSelect runId idx (runs s)) s).
Proof.
  intros H. unfold set_runs, toggleSelect. apply update_ok; auto.
Qed.

Lemma select_ok a s : app_ok s → app_ok (setActiveRunId a s).
Proof.
  intros H. unfold setActiveRunId.
  apply (sublist_ok s (runs s)); [exact H | reflexivity].
Qed.

Lemma new_pool_ok run ui :
  1 <= length (prompts run) →
  pool_ok (new_pool run ui) ∧ all_exited (new_pool run ui) = false.
Proof.
  intros Hlen. unfold new_pool.
  destruct (spawn (parallelism (speed run)) (length (prompts run)) 0) as [ws cur] eqn:E.
  destruct (spawn_spec _ _ _ _ _ E ltac:(lia)) as (H1 & H2 & H3 & H4 & H5 & H6).
  pose proof (parallelism_pos (speed run)) as Hp. simpl. split.
  - unfold pool_ok, log_indices, awaiting, p_total. simpl.
    rewrite app_nil_r, H1, Nat.sub_0_r.
    split; [reflexivity|]. split; [exact H3|]. split; [auto|]. split; [exact H4 | exact Hlen].
  - eapply all_exited_false. simpl. apply H6; lia.
Qed.

Lemma onGenerateNewRun_skip ui uuid now s :
  submittable ui = false → onGenerateNewRun ui uuid now s = s.
Proof.
  unfold submittable, onGenerateNewRun. intros H.
  destruct (nonempty _); destruct (bool_decide _); simpl in *; congruence.
Qed.

Lemma onGenerateNewRun_eq ui uuid now s :
  submittable ui = true →
  onGenerateNewRun ui uuid now s
  = {| runs := fst (dropOldest (runs s) (aborted s)) ++ [new_run ui uuid now s];
       activeRunId := Some uuid;
       aborted := snd (dropOldest (runs s) (aborted s));
       nextController := S (nextController s);
       pools := pools s ++ [new_pool (new_run ui uuid now s) ui] |}.
Proof.
  unfold submittable, onGenerateNewRun. intros H.
  apply andb_true_iff in H as [H1 H2]. rewrite H1.
  apply negb_true_iff in H2. rewrite H2. simpl.
  destruct (dropOldest (runs s) (aborted s)) as [prev ab]. simpl.
  fold (new_run ui uuid now s).
  assert (Hlen : 1 <= length (prompts (new_run ui uuid now s))).
  { simpl. apply bool_decide_eq_false in H2. lia. }
  destruct (new_pool_ok (new_run ui uuid now s) ui Hlen) as [_ Hne].
  unfold runGenerator, new_pool in *.
  destruct (spawn _ _ _) as [ws cur]. simpl in *.
  unfold settle. rewrite Hne. reflexivity.
Qed.

Lemma generate_ok ui uuid now s :
  app_ok s → uuid ∉ pool_ids s → app_ok (onGenerateNewRun ui uuid now s).
Proof.
  intros Hok Hfresh.
  destruct (submittable ui) eqn:Hsub;
    [|rewrite onGenerateNewRun_skip by exact Hsub; exact Hok].
  rewrite onGenerateNewRun_eq by exact Hsub.
  pose proof (dropOldest_sublist (runs s) (aborted s)) as Hsl.
  set (prev := fst (dropOldest (runs s) (aborted s))) in *.
  set (nr := new_run ui uuid now s).
  assert (Hlen : 1 <= length (prompts nr)).
  { unfold submittable in Hsub. apply andb_true_iff in Hsub as [_ H2].
    apply negb_true_iff, bool_decide_eq_false in H2. simpl. lia. }
  destruct (new_pool_ok nr ui Hlen) as [Hnp _].
  destruct Hok as (N1 & N2 & Hsb & Hpok & Hlink & N3 & Hctl).
  assert (Hin : ∀ r, r ∈ prev → r ∈ runs s) by (intros r Hr; eapply elem_of_sublist; eauto).
  assert (Hold : ∀ r, r ∈ prev → run_id r ≠ uuid).
  { intros r Hr E. apply Hfresh. rewrite <- E. apply Hsb, Hin, Hr. }
  unfold app_ok, pool_ids. simpl. rewrite !fmap_app. simpl.
  split.
  { apply NoDup_app. split; [exact N1|]. split; [|apply NoDup_singleton].
    intros x Hx ->%list_elem_of_singleton. apply Hfresh. exact Hx. }
  split.
  { apply NoDup_app.
    split; [eapply sublist_NoDup; [exact N2 | apply fmap_sublist; exact Hsl]|].
    split; [|apply NoDup_singleton].
    intros x [r [-> Hr]]%list_elem_of_fmap E%list_elem_of_singleton.
    exact (Hold r Hr E). }
  split.
  { intros r [Hr | ->%list_elem_of_singleton]%elem_of_app; apply elem_of_app.
    - left. apply Hsb, Hin, Hr.
    - right. apply list_elem_of_singleton. reflexivity. }
  split.
  { intros k p [Hk | [_ Hk]]%lookup_app_Some.
    - eapply Hpok; exact Hk.
    - apply list_lookup_singleton_Some in Hk as [_ <-]. exact Hnp. }
  split.
  { intros r k p Hr Hk Hid.
    apply lookup_app_Some in Hk as [Hk | [_ Hk]];
      apply elem_of_app in Hr as [Hr | Hr].
    - eapply Hlink; eauto.
    - apply list_elem_of_singleton in Hr. subst r. exfalso. apply Hfresh.
      simpl in Hid. rewrite Hid. unfold pool_ids.
      apply list_elem_of_fmap. exists p. split; [reflexivity|].
      eapply list_elem_of_lookup_2; exact Hk.
    - apply list_lookup_singleton_Some in Hk as [_ <-]. simpl in Hid.
      destruct (Hold r Hr Hid).
    - apply list_lookup_singleton_Some in Hk as [_ <-].
      apply list_elem_of_singleton in Hr. subst r.
      unfold linked, new_pool, p_total. simpl.
      repeat split; try reflexivity; try constructor; discriminate. }
  split.
  { apply NoDup_app.
    split; [eapply sublist_NoDup; [exact N3 | apply fmap_sublist; exact Hsl]|].
    split; [|apply NoDup_singleton].
    intros x [r [-> Hr]]%list_elem_of_fmap E%list_elem_of_singleton.
    destruct (Hctl r (Hin r Hr)) as (c & Hc & Hlt). rewrite Hc in E.
    injection E as E. lia. }
  intros r [Hr | ->%list_elem_of_singleton]%elem_of_app.
  - destruct (Hctl r (Hin r Hr)) as (c & Hc & Hlt). exists c. split; [exact Hc | lia].
  - exists (nextController s). split; [reflexivity | lia].
Qed.

Lemma initial_ok : app_ok initial.
Proof.
  unfold app_ok, initial, pool_ids. simpl.
  repeat split; try apply NoDup_nil_2; intros; try (exfalso; eapply elem_of_nil; eauto; fail);
    try discriminate.
Qed.

Lemma step_ok s e : app_ok s → fresh_event s e = true → app_ok (step s e).
Proof.
  intros Hok Hf. destruct e; simpl.
  - apply generate_ok; [exact Hok|]. simpl in Hf. apply bool_decide_eq_true in Hf. exact Hf.
  - apply cancelRun_ok, Hok.
  - apply deleteRun_ok, Hok.
  - apply select_ok, Hok.
  - apply toggle_ok, Hok.
  - apply deliver_ok, Hok.
Qed.

Lemma run_events_ok es : ∀ s,
  app_ok s → fresh_uuids s es = true → app_ok (run_events s es).
Proof.
  induction es as [|e es IH]; intros s Hok Hf; simpl in *; [exact Hok|].
  apply andb_true_iff in Hf as [H1 H2]. apply IH; [apply step_ok; assumption | exact H2].
Qed.

(* ===================================================================== *)
(** ** C2: what changes the status of a run *)
(* ===================================================================== *)

Lemma updateRun_lookup_ne runId f rs i r :
  rs !! i = Some r → run_id r ≠ runId → updateRun runId f rs !! i = Some r.
Proof.
  intros Hi Hne. unfold updateRun. rewrite list_lookup_fmap, Hi. simpl.
  rewrite decide_False by exact Hne. reflexivity.
Qed.

(** No reply changes a run that is done: its pool has no worker left to
    resume, and the replies of other pools update other ids. *)
Lemma done_deaf_to_replies s k w rep imgId i r :
  app_ok s → runs s !! i = Some r → status r = Done →
  runs (deliver k w rep imgId s) !! i = Some r.
Proof.
  intros Hok Hi Hdone.
  destruct (pools s !! k) as [p|] eqn:Hk;
    [|unfold deliver; rewrite Hk; exact Hi].
  destruct (workers p !! w) as [[idx|]|] eqn:Hw;
    try (unfold deliver; rewrite Hk, Hw; exact Hi).
  rewrite (deliver_runs s k w p idx rep imgId Hk Hw).
  apply updateRun_lookup_ne; [exact Hi|].
  intros E. destruct Hok as (_ & _ & _ & _ & Hlink & _).
  destruct (Hlink r k p (list_elem_of_lookup_2 _ _ _ Hi) Hk E) as (_ & _ & _ & _ & _ & _ & H7).
  rewrite (all_exited_false p w idx Hw) in H7. discriminate (H7 Hdone).
Qed.

(** C2, as stated, fails. A run that is done becomes cancelled when
    [cancelRun] is called for it; and a run cancelled while a request is in
    flight becomes [Error] when that request is rejected by the abort. *)
Lemma C2_terminal_status_latched_refuted :
  status <$> runs app_done = [Done]
  ∧ status <$> runs (cancelRun "run-1" app_done) = [Cancelled]
  ∧ status <$> runs (cancelRun "run-1" app_started) = [Cancelled]
  ∧ status <$> runs (deliver 0 0 (Rejected "AbortError" (Some "The user aborted a request."))
                       "img-1" (cancelRun "run-1" app_started))
    = [Error].
Proof. repeat split; reflexivity. Qed.

(** C2, amended: no run goes back to running: a run that is running after
    an event was running before it, under the same id, or is the run the
    event has just created; the completion of the pool only turns running
    into done, leaving every other status as it is; and in a state reached
    with fresh run ids no reply of a worker changes a run that is done. *)
Theorem C2_no_return_to_running :
  (∀ s e r',
     r' ∈ runs (step s e) →
     status r' = Running →
     (∃ r, r ∈ runs s ∧ run_id r = run_id r' ∧ status r = Running)
     ∨ (∃ ui uuid now, e = EGenerate ui uuid now ∧ run_id r' = uuid))
  ∧ (∀ runId rs, finishRun runId rs = updateRun runId finish_update rs)
  ∧ (∀ r, status r ≠ Running → finish_update r = r)
  ∧ (∀ r, status r = Running → status (finish_update r) = Done)
  ∧ (∀ es k w rep imgId i r,
       fresh_uuids initial es = true →
       runs (run_events initial es) !! i = Some r →
       status r = Done →
       runs (deliver k w rep imgId (run_events initial es)) !! i = Some r).
Proof.
  split; [|split; [|split; [|split]]].
  - intros s e r' Hin Hrun.
    destruct e as [ui uuid now | runId | runId | runId | runId idx | k w rep imgId];
      simpl in Hin.
    + unfold onGenerateNewRun in Hin.
      destruct (negb _ || _); [left; exists r'; auto|].
      destruct (dropOldest (runs s) (aborted s)) as [prev ab] eqn:Hdrop.
      unfold runGenerator in Hin.
      destruct (spawn _ _ _) as [ws cur]. simpl in Hin.
      destruct (settle_running _ _ _ Hin Hrun) as (r & Hr & Hid & Hst).
      apply elem_of_app in Hr as [Hr | Hr].
      * left. exists r. split; [|auto].
        apply (dropOldest_subset (runs s) (aborted s)). rewrite Hdrop. exact Hr.
      * right. apply list_elem_of_singleton in Hr. subst r.
        exists ui, uuid, now. split; [reflexivity|]. rewrite <- Hid. reflexivity.
    + left. unfold cancelRun in Hin. simpl in Hin.
      eapply running_preimage; [| |exact Hin|exact Hrun]; [reflexivity|].
      simpl. congruence.
    + left. unfold deleteRun in Hin. simpl in Hin.
      apply list_elem_of_filter in Hin as [_ Hin]. exists r'. auto.
    + left. exists r'. auto.
    + left. simpl in Hin. unfold toggleSelect in Hin.
      eapply running_preimage; [| |exact Hin|exact Hrun]; [reflexivity|auto].
    + left. unfold deliver in Hin.
      destruct (pools s !! k) as [p|] eqn:Hk; [|exists r'; auto].
      destruct (workers p !! w) as [[idx|]|] eqn:Hw; try (exists r'; auto; fail).
      pose proof (deliver_runs s k w p idx rep imgId Hk Hw) as Hd.
      unfold deliver in Hd. rewrite Hk, Hw in Hd. rewrite Hd in Hin.
      eapply running_preimage; [| |exact Hin|exact Hrun].
      * intros r. destruct (all_exited _);
          [rewrite finish_update_id|]; apply outcome_update_id.
      * intros r. destruct (all_exited _).
        -- intros H. destruct (finish_update_running _ H).
        -- apply outcome_update_running.
  - reflexivity.
  - apply finish_update_terminal.
  - intros r H. unfold finish_update. rewrite decide_True by exact H. reflexivity.
  - intros es k w rep imgId i r Hf Hi Hdone.
    apply done_deaf_to_replies; [|exact Hi|exact Hdone].
    apply run_events_ok; [apply initial_ok | exact Hf].
Qed.

(** The amended C2 at the example: after an image has come back, the run
    that is running was running before. *)
Lemma C2_no_return_to_running_witness :
  ∃ r', r' ∈ runs (step app_started (EReply 0 0 (Responded true body_image) "img-1"))
        ∧ status r' = Running
        ∧ ∃ r, r ∈ runs app_started ∧ run_id r = run_id r' ∧ status r = Running.
Proof.
  eexists. split; [apply list_elem_of_here|]. split; [reflexivity|].
  destruct (proj1 C2_no_return_to_running app_started
              (EReply 0 0 (Responded true body_image) "img-1") _
              (list_elem_of_here _ _) eq_refl) as [H | (ui & uuid & now & H & _)].
  - exact H.
  - discriminate H.
Defined.

(* ===================================================================== *)
(** ** C3: a run that is done *)
(* ===================================================================== *)

Lemma parallelism_clamp sp : parallelism sp = Z.to_nat (Z.min (Z.max sp 1) 3).
Proof. unfold parallelism. lia. Qed.

Lemma all_exited_awaiting p : all_exited p = true → awaiting p = [].
Proof.
  unfold all_exited, awaiting. induction (workers p) as [|x ws IH]; simpl; [reflexivity|].
  intros [Hx Hws]%andb_true_iff. apply bool_decide_eq_true in Hx. subst x.
  simpl. auto.
Qed.

Lemma all_exited_elem p : all_exited p = true → 1 <= length (workers p) → Exited ∈ workers p.
Proof.
  unfold all_exited. destruct (workers p) as [|x ws]; simpl; [lia|].
  intros [Hx _]%andb_true_iff _. apply bool_decide_eq_true in Hx. subst x.
  apply list_elem_of_here.
Qed.

(** C3: in any state the page reaches with fresh run ids, a registered run
    whose status is [Done] has a pool, started for a batch of at least one
    prompt, such that: completed = total = length of the batch; the indices
    handed on are a permutation of [0 .. length-1], so every index was
    claimed and reported exactly once, nothing is in flight and nothing was
    dropped; and the pool has min(max(N,1),3) workers on its one cursor,
    that is N workers for N in 1..3. *)
Theorem C3_done_run_complete es i r :
  fresh_uuids initial es = true →
  runs (run_events initial es) !! i = Some r →
  status r = Done →
  ∃ k p,
    pools (run_events initial es) !! k = Some p
    ∧ run_id (p_run p) = run_id r
    ∧ prompts (p_run p) = prompts r
    ∧ 1 <= length (prompts r)
    ∧ done (progress r) = total (progress r)
    ∧ total (progress r) = length (prompts r)
    ∧ log_indices p ≡ₚ seq 0 (length (prompts r))
    ∧ length (p_log p) = length (prompts r)
    ∧ images r = log_images (p_log p)
    ∧ length (images r) = length (prompts r)
    ∧ awaiting p = [] ∧ p_dropped p = []
    ∧ cursor p = length (prompts r)
    ∧ length (workers p) = Z.to_nat (Z.min (Z.max (speed r) 1) 3)
    ∧ ((1 <= speed r <= 3)%Z → length (workers p) = Z.to_nat (speed r)).
Proof.
  intros Hf Hin%list_elem_of_lookup_2 Hdone.
  destruct (run_events_ok es initial initial_ok Hf)
    as (N1 & N2 & Hsub & Hpok & Hlink & N3 & Hctl).
  set (s := run_events initial es) in *.
  pose proof (Hsub r Hin) as Hid. unfold pool_ids in Hid.
  apply list_elem_of_fmap in Hid as (p & Hid & Hp).
  apply list_elem_of_lookup in Hp as [k Hk].
  destruct (Hlink r k p Hin Hk Hid) as (L1 & L2 & L3 & L4 & L5 & L6 & L7).
  destruct (Hpok k p Hk) as (P1 & P2 & P3 & P4 & P5).
  destruct (L6 (or_intror Hdone)) as [Hdr Hsucc].
  pose proof (L7 Hdone) as Hall.
  pose proof (all_exited_awaiting p Hall) as Haw.
  assert (Hcur : cursor p = p_total p).
  { destruct P3 as [E | N]; [|exact E|rewrite Hdr in N; contradiction].
    apply all_exited_elem; [exact Hall|]. rewrite P4. apply parallelism_pos. }
  rewrite Haw, Hdr, Hcur in P1. simpl in P1. rewrite app_nil_r in P1.
  assert (Hlen : length (p_log p) = p_total p).
  { pose proof (Permutation_length P1) as HL. unfold log_indices in HL.
    rewrite length_fmap, length_seq in HL. exact HL. }
  assert (Himg : length (log_images (p_log p)) = length (p_log p)).
  { clear -Hsucc. unfold all_success in Hsucc.
    induction Hsucc as [|[i o] lg Ho _ IH]; [reflexivity|].
    unfold log_images in *. simpl in *. destruct o; [|discriminate].
    simpl. rewrite IH. reflexivity. }
  unfold p_total in *. rewrite <- L1 in *.
  exists k, p. split; [exact Hk|]. split; [symmetry; exact Hid|].
  split; [symmetry; exact L1|]. split; [exact P5|].
  split; [lia|]. split; [exact L3|]. split; [exact P1|]. split; [exact Hlen|].
  split; [exact L5|]. split; [rewrite L5; lia|]. split; [exact Haw|].
  split; [exact Hdr|]. split; [exact Hcur|].
  rewrite P4, <- L2, parallelism_clamp. split; [reflexivity | lia].
Qed.

(** C3 at the example: three prompts at speed 2, all answered with an
    image. *)
Lemma C3_done_run_complete_witness :
  fresh_uuids initial trace_done = true
  ∧ ∃ r, runs (run_events initial trace_done) !! 0 = Some r ∧ status r = Done
         ∧ done (progress r) = total (progress r)
         ∧ total (progress r) = length (prompts r).
Proof.
  assert (Hf : fresh_uuids initial trace_done = true) by (vm_compute; reflexivity).
  split; [exact Hf|].
  eexists. split; [vm_compute; reflexivity|]. split; [reflexivity|].
  destruct (C3_done_run_complete trace_done 0 _ Hf ltac:(vm_compute; reflexivity) eq_refl)
    as (k & p & _ & _ & _ & _ & H1 & H2 & _).
  split; [exact H1 | exact H2].
Defined.

(* ===================================================================== *)
(** ** C5: eviction of the oldest run *)
(* ===================================================================== *)

Lemma insert_by_startedAt_cons r l : insert_by_startedAt r l ≠ [].
Proof. destruct l; simpl; [discriminate|]. destruct (_ <=? _)%Z; discriminate. Qed.

(** The head of the sorted copy is a run of the list with the least
    [startedAt]. *)
Lemma sort_head l o rest :
  sort_by_startedAt l = o :: rest →
  o ∈ l ∧ ∀ r, r ∈ l → (startedAt o <= startedAt r)%Z.
Proof.
  revert o rest. induction l as [|x l IH]; intros o rest H; [discriminate|].
  simpl in H. destruct (sort_by_startedAt l) as [|o' rest'] eqn:E.
  - destruct l as [|y l']; [|simpl in E; destruct (insert_by_startedAt_cons _ _ E)].
    simpl in H. injection H as <- <-. split; [apply list_elem_of_here|].
    intros r ->%list_elem_of_singleton. lia.
  - destruct (IH o' rest' eq_refl) as [Hin Hmin]. simpl in H.
    destruct (startedAt x <=? startedAt o')%Z eqn:C.
    + injection H as <- <-. apply Z.leb_le in C. split; [apply list_elem_of_here|].
      intros r [->|Hr]%elem_of_cons; [lia|]. specialize (Hmin r Hr). lia.
    + injection H as <- <-. apply Z.leb_gt in C. split; [apply list_elem_of_further, Hin|].
      intros r [->|Hr]%elem_of_cons; [lia|]. apply Hmin, Hr.
Qed.

Lemma sort_nil l : sort_by_startedAt l = [] → l = [].
Proof.
  destruct l as [|x l]; [reflexivity|]. simpl. intros H.
  destruct (insert_by_startedAt_cons _ _ H).
Qed.

(** With three runs or more, [dropOldest] aborts and removes the head of
    the sorted copy. *)
Lemma dropOldest_full rs ab :
  3 <= length rs →
  ∃ oldest,
    oldest ∈ rs
    ∧ (∀ r, r ∈ rs → (startedAt oldest <= startedAt r)%Z)
    ∧ dropOldest rs ab
      = (filter (fun r => run_id r ≠ run_id oldest) rs, abort (controller oldest) ab).
Proof.
  intros Hlen. unfold dropOldest.
  destruct (decide (length rs < 3)); [lia|].
  destruct (sort_by_startedAt rs) as [|o rest] eqn:E.
  - apply sort_nil in E. subst rs. simpl in Hlen. lia.
  - destruct (sort_head rs o rest E) as [Hin Hmin]. exists o. auto.
Qed.

Lemma dropOldest_length rs ab :
  length rs <= 3 → length (fst (dropOldest rs ab)) <= 2.
Proof.
  intros Hlen. destruct (decide (length rs < 3)) as [Hlt|Hge].
  - unfold dropOldest. rewrite decide_True by exact Hlt. simpl. lia.
  - destruct (dropOldest_full rs ab ltac:(lia)) as (o & Hin & _ & ->). simpl.
    pose proof (length_filter_lt (fun r => run_id r ≠ run_id o) rs o Hin) as H.
    simpl in H. specialize (H ltac:(intros N; apply N; reflexivity)). lia.
Qed.

(** The registry never holds more than three runs. *)
Lemma step_length s e : length (runs s) <= 3 → length (runs (step s e)) <= 3.
Proof.
  intros H. destruct e as [ui uuid now | runId | runId | runId | runId idx | k w rep imgId];
    simpl.
  - destruct (submittable ui) eqn:Hs.
    + rewrite onGenerateNewRun_eq by exact Hs. simpl. rewrite length_app. simpl.
      pose proof (dropOldest_length (runs s) (aborted s) H). lia.
    + rewrite onGenerateNewRun_skip by exact Hs. exact H.
  - rewrite updateRun_length. exact H.
  - pose proof (length_filter (fun r => run_id r ≠ runId) (runs s)). lia.
  - exact H.
  - unfold toggleSelect. rewrite updateRun_length. exact H.
  - unfold deliver. destruct (pools s !! k) as [p|] eqn:Hk; [|exact H].
    destruct (workers p !! w) as [[idx|]|] eqn:Hw; try exact H.
    pose proof (deliver_runs s k w p idx rep imgId Hk Hw) as Hd.
    unfold deliver in Hd. rewrite Hk, Hw in Hd. rewrite Hd, updateRun_length. exact H.
Qed.

Lemma registry_bound es : ∀ s,
  length (runs s) <= 3 → length (runs (run_events s es)) <= 3.
Proof.
  induction es as [|e es IH]; intros s H; simpl; [exact H|].
  apply IH, step_length, H.
Qed.

Lemma fresh_uuids_app es e : ∀ s,
  fresh_uuids s (es ++ [e]) = true →
  fresh_uuids s es = true ∧ fresh_event (run_events s es) e = true.
Proof.
  induction es as [|x es IH]; intros s H; simpl in *.
  - apply andb_true_iff in H as [H _]. auto.
  - apply andb_true_iff in H as [H1 H2]. destruct (IH _ H2) as [H3 H4].
    rewrite H1, H3. auto.
Qed.

Lemma NoDup_fmap_eq {A B} (f : A → B) (l : list A) x y :
  NoDup (f <$> l) → x ∈ l → y ∈ l → f x = f y → x = y.
Proof.
  intros Hnd [i Hi]%list_elem_of_lookup [j Hj]%list_elem_of_lookup E.
  assert (i = j) as ->.
  { eapply (NoDup_lookup _ i j (f x) Hnd); rewrite list_lookup_fmap.
    - rewrite Hi. reflexivity.
    - rewrite Hj. simpl. rewrite E. reflexivity. }
  congruence.
Qed.

Lemma filter_all {A} (P : A → Prop) `{∀ x, Decision (P x)} (l : list A) :
  (∀ x, x ∈ l → P x) → filter P l = l.
Proof.
  induction l as [|a l IH]; intros Hall; [reflexivity|].
  rewrite filter_cons_True by (apply Hall, list_elem_of_here).
  rewrite IH; [reflexivity|]. intros x Hx. apply Hall, list_elem_of_further, Hx.
Qed.

Lemma filter_remove_one {A B} `{EqDecision B} (f : A → B) (l : list A) x :
  NoDup (f <$> l) → x ∈ l →
  length (filter (fun r => f r ≠ f x) l) + 1 = length l.
Proof.
  induction l as [|a l IH]; intros Hnd Hx;
    [destruct (proj1 (elem_of_nil x) Hx)|].
  simpl in Hnd. apply NoDup_cons in Hnd as [Ha Hnd].
  apply elem_of_cons in Hx as [->|Hx].
  - rewrite filter_cons_False by (intros N; apply N; reflexivity).
    rewrite filter_all; [simpl; lia|].
    intros r Hr E. apply Ha. rewrite <- E. apply list_elem_of_fmap_2, Hr.
  - rewrite filter_cons_True.
    + simpl. rewrite <- (IH Hnd Hx). lia.
    + intros E. apply Ha. rewrite E. apply list_elem_of_fmap_2, Hx.
Qed.

(** C5: the registry never holds more than three runs, whatever happens;
    and when a run is submitted while three are registered (run ids being
    fresh), some registered run [oldest] with the least creation timestamp
    has its abort signal set and is removed, under its id nothing is left
    in the registry, every other registered run stays as it is with its
    signal as it was, and the new run is appended, which makes three
    again. *)
Theorem C5_oldest_evicted :
  (∀ es, length (runs (run_events initial es)) <= 3)
  ∧ ∀ es ui uuid now,
      let s := run_events initial es in
      let s' := onGenerateNewRun ui uuid now s in
      fresh_uuids initial (es ++ [EGenerate ui uuid now]) = true →
      length (runs s) = 3 →
      submittable ui = true →
      ∃ oldest c,
        oldest ∈ runs s
        ∧ (∀ r, r ∈ runs s → (startedAt oldest <= startedAt r)%Z)
        ∧ controller oldest = Some c
        ∧ aborted s' = {[ c ]} ∪ aborted s
        ∧ (run_id oldest ∉ (run_id <$> runs s'))
        ∧ runs s'
          = (filter (fun r => run_id r ≠ run_id oldest) (runs s)
               ++ [new_run ui uuid now s])
        ∧ (∀ r, r ∈ runs s → r ≠ oldest →
             r ∈ runs s'
             ∧ ∀ c', controller r = Some c' → (c' ∈ aborted s' ↔ c' ∈ aborted s))
        ∧ length (runs s') = 3.
Proof.
  split; [intros es; apply registry_bound; simpl; lia|].
  intros es ui uuid now s s' Hf Hlen Hsub.
  destruct (fresh_uuids_app es _ initial Hf) as [Hf1 Hf2].
  pose proof (run_events_ok es initial initial_ok Hf1) as Hok. fold s in Hok, Hf2.
  simpl in Hf2. apply bool_decide_eq_true in Hf2.
  destruct Hok as (N1 & N2 & Hsb & Hpok & Hlink & N3 & Hctl).
  destruct (dropOldest_full (runs s) (aborted s) ltac:(lia)) as (o & Hin & Hmin & Hdrop).
  destruct (Hctl o Hin) as (c & Hc & Hlt).
  assert (Hruns : runs s' = (filter (fun r => run_id r ≠ run_id o) (runs s)
                              ++ [new_run ui uuid now s])).
  { unfold s'. rewrite onGenerateNewRun_eq by exact Hsub. simpl. rewrite Hdrop. reflexivity. }
  assert (Hab : aborted s' = {[ c ]} ∪ aborted s).
  { unfold s'. rewrite onGenerateNewRun_eq by exact Hsub. simpl. rewrite Hdrop. simpl.
    rewrite Hc. reflexivity. }
  assert (Huu : run_id o ≠ uuid).
  { intros E. apply Hf2. rewrite <- E. apply Hsb, Hin. }
  exists o, c. split; [exact Hin|]. split; [exact Hmin|]. split; [exact Hc|].
  split; [exact Hab|]. split.
  { rewrite Hruns, fmap_app. simpl. intros [H | H]%elem_of_app.
    - apply list_elem_of_fmap in H as (r & E & Hr).
      apply list_elem_of_filter in Hr as [Hne _]. apply Hne. symmetry. exact E.
    - apply list_elem_of_singleton in H. contradiction. }
  split; [exact Hruns|]. split.
  { intros r Hr Hne.
    assert (Hid : run_id r ≠ run_id o).
    { intros E. apply Hne. eapply (NoDup_fmap_eq run_id); eauto. }
    split.
    - rewrite Hruns. apply elem_of_app. left. apply list_elem_of_filter. auto.
    - intros c' Hc'. rewrite Hab.
      assert (c' ≠ c).
      { intros ->. apply Hne. eapply (NoDup_fmap_eq controller); eauto. congruence. }
      rewrite elem_of_union, elem_of_singleton. tauto. }
  rewrite Hruns, length_app. simpl.
  pose proof (filter_remove_one run_id (runs s) o N2 Hin). lia.
Qed.

(** C5 at an example: three runs started at 1000, 2000 and 3000; a fourth
    is submitted. *)
Lemma C5_oldest_evicted_witness :
  fresh_uuids initial (trace_three ++ [EGenerate ui_abc "run-4" 4000]) = true
  ∧ length (runs (run_events initial trace_three)) = 3
  ∧ submittable ui_abc = true
  ∧ length (runs (onGenerateNewRun ui_abc "run-4" 4000 (run_events initial trace_three))) = 3
  ∧ run_id <$> runs (onGenerateNewRun ui_abc "run-4" 4000 (run_events initial trace_three))
    = ["run-2"; "run-3"; "run-4"].
Proof.
  assert (Hf : fresh_uuids initial (trace_three ++ [EGenerate ui_abc "run-4" 4000]) = true)
    by (vm_compute; reflexivity).
  assert (Hl : length (runs (run_events initial trace_three)) = 3)
    by (vm_compute; reflexivity).
  assert (Hs : submittable ui_abc = true) by (vm_compute; reflexivity).
  split; [exact Hf|]. split; [exact Hl|]. split; [exact Hs|].
  destruct (proj2 C5_oldest_evicted trace_three ui_abc "run-4" 4000%Z Hf Hl Hs)
    as (o & c & _ & _ & _ & _ & _ & _ & _ & H).
  split; [exact H | vm_compute; reflexivity].
Defined.

(* ===================================================================== *)
(** ** C9: a request that throws *)
(* ===================================================================== *)

Lemma resumed_dropped p w idx rep imgId :
  p_dropped (resumed p w idx rep imgId)
  = p_dropped p ++ match rep with Rejected _ _ => [idx] | Responded _ _ => [] end.
Proof.
  unfold resumed, worker_resume.
  destruct rep as [[] json | ename emessage]; simpl;
    try destruct (worker_loop (p_total p) (cursor p)); simpl;
    rewrite ?app_nil_r; reflexivity.
Qed.

Lemma step_pools_ok s e :
  (∀ k p, pools s !! k = Some p → pool_ok p) →
  ∀ k p, pools (step s e) !! k = Some p → pool_ok p.
Proof.
  intros H k p.
  destruct e as [ui uuid now | runId | runId | runId | runId idx | k' w rep imgId];
    simpl; try apply H.
  - destruct (submittable ui) eqn:Hs.
    + rewrite onGenerateNewRun_eq by exact Hs. simpl.
      intros [Hk | [_ Hk]]%lookup_app_Some; [eapply H; exact Hk|].
      apply list_lookup_singleton_Some in Hk as [_ <-].
      apply new_pool_ok. simpl. unfold submittable in Hs.
      apply andb_true_iff in Hs as [_ H2].
      apply negb_true_iff, bool_decide_eq_false in H2. lia.
    + rewrite onGenerateNewRun_skip by exact Hs. apply H.
  - unfold deliver. destruct (pools s !! k') as [q|] eqn:Hk; [|apply H].
    destruct (workers q !! w) as [[idx|]|] eqn:Hw; try apply H.
    destruct (deliver_pools s k' w q idx rep imgId Hk Hw) as (Hp & _).
    unfold deliver in Hp. rewrite Hk, Hw in Hp. rewrite Hp.
    destruct (decide (k' = k)) as [->|Hne].
    + rewrite list_lookup_insert_eq by (eapply lookup_lt_Some; exact Hk).
      intros [= <-]. apply resumed_pool_ok; [eapply H; exact Hk | exact Hw].
    + rewrite list_lookup_insert_ne by exact Hne. apply H.
Qed.

Lemma step_dropped s e k p idx :
  pools s !! k = Some p → idx ∈ p_dropped p →
  ∃ p', pools (step s e) !! k = Some p' ∧ idx ∈ p_dropped p'.
Proof.
  intros Hk Hd.
  destruct e as [ui uuid now | runId | runId | runId | runId i | k' w rep imgId];
    simpl; try (exists p; split; assumption).
  - destruct (submittable ui) eqn:Hs.
    + rewrite onGenerateNewRun_eq by exact Hs. simpl. exists p.
      split; [apply lookup_app_l_Some; exact Hk | exact Hd].
    + rewrite onGenerateNewRun_skip by exact Hs. exists p. auto.
  - unfold deliver. destruct (pools s !! k') as [q|] eqn:Hk'; [|exists p; auto].
    destruct (workers q !! w) as [[i|]|] eqn:Hw; try (exists p; auto; fail).
    destruct (deliver_pools s k' w q i rep imgId Hk' Hw) as (Hp & _).
    unfold deliver in Hp. rewrite Hk', Hw in Hp. rewrite Hp.
    destruct (decide (k' = k)) as [->|Hne].
    + rewrite Hk in Hk'. injection Hk' as <-.
      exists (resumed p w i rep imgId).
      split; [apply list_lookup_insert_eq; eapply lookup_lt_Some; exact Hk|].
      rewrite resumed_dropped. apply elem_of_app. left. exact Hd.
    + exists p. split; [rewrite list_lookup_insert_ne by exact Hne; exact Hk | exact Hd].
Qed.

Lemma pools_ok_reachable es : ∀ s,
  (∀ k p, pools s !! k = Some p → pool_ok p) →
  ∀ k p, pools (run_events s es) !! k = Some p → pool_ok p.
Proof.
  induction es as [|e es IH]; intros s H; simpl; [exact H|].
  apply IH, step_pools_ok, H.
Qed.

Lemma dropped_later es : ∀ s k p idx,
  pools s !! k = Some p → idx ∈ p_dropped p →
  ∃ p', pools (run_events s es) !! k = Some p' ∧ idx ∈ p_dropped p'.
Proof.
  induction es as [|e es IH]; intros s k p idx Hk Hd; simpl; [exists p; auto|].
  destruct (step_dropped s e k p idx Hk Hd) as (p1 & Hk1 & Hd1).
  eapply IH; eauto.
Qed.

Lemma pool_ok_dropped p idx :
  pool_ok p → idx ∈ p_dropped p →
  (idx ∉ awaiting p) ∧ (idx ∉ log_indices p) ∧ idx < cursor p.
Proof.
  intros (P1 & _) Hd.
  assert (Hnd : NoDup (log_indices p ++ awaiting p ++ p_dropped p)).
  { rewrite P1. apply NoDup_seq. }
  apply NoDup_app in Hnd as (_ & Hdisj1 & Hnd).
  apply NoDup_app in Hnd as (_ & Hdisj2 & _).
  split; [intros H; exact (Hdisj2 idx H Hd)|]. split.
  - intros H. apply (Hdisj1 idx H). apply elem_of_app. right. exact Hd.
  - assert (Hin : idx ∈ seq 0 (cursor p)).
    { rewrite <- P1. rewrite !elem_of_app. auto. }
    apply elem_of_seq in Hin. lia.
Qed.

(** C9: when the request of worker [w] for index [idx] throws, the run gets
    the error message and the status [Error] while its progress and its
    images stay as they were, the worker has returned, the cursor and the
    outcomes handed on are unchanged and [idx] is recorded as dropped; from
    then on, whatever happens, [idx] stays dropped: it is never in flight
    again and no outcome is ever handed on for it; and in the example a
    run of three prompts ends with one completed prompt, one image (the one
    it had before the exceptions) and two indices dropped. *)
Theorem C9_thrown_request_drops_index :
  (∀ s k w p idx ename emessage imgId,
     pools s !! k = Some p →
     workers p !! w = Some (Awaiting idx) →
     let s' := deliver k w (Rejected ename emessage) imgId s in
     let msg := if String.eqb ename "AbortError" then "Run cancelled"
                else str_or emessage "Request failed" in
     runs s' = updateRun (run_id (p_run p)) (with_error Error msg None) (runs s)
     ∧ (∀ r, progress (with_error Error msg None r) = progress r
             ∧ images (with_error Error msg None r) = images r)
     ∧ ∃ p', pools s' !! k = Some p'
             ∧ workers p' !! w = Some Exited
             ∧ cursor p' = cursor p
             ∧ p_log p' = p_log p
             ∧ p_dropped p' = p_dropped p ++ [idx])
  ∧ (∀ es es' k p idx,
       pools (run_events initial es) !! k = Some p →
       idx ∈ p_dropped p →
       ∃ p', pools (run_events initial (es ++ es')) !! k = Some p'
             ∧ idx ∈ p_dropped p'
             ∧ (idx ∉ awaiting p')
             ∧ (idx ∉ log_indices p')
             ∧ idx < cursor p')
  ∧ (∃ r p, runs app_broken = [r] ∧ pools app_broken = [p]
            ∧ status r = Error
            ∧ done (progress r) = 1 ∧ total (progress r) = 3
            ∧ length (p_log p) = 1 ∧ length (prompts r) = 3
            ∧ images r = log_images (p_log p) ∧ length (images r) = 1
            ∧ p_dropped p = [1; 2]
            ∧ all_exited p = true).
Proof.
  split; [|split].
  - intros s k w p idx ename emessage imgId Hk Hw s' msg. subst s'.
    split; [|split].
    + rewrite (deliver_runs s k w p idx _ imgId Hk Hw). simpl.
      apply updateRun_ext. intros r _ _. destruct (all_exited _); reflexivity.
    + intros r. split; reflexivity.
    + rewrite (deliver_eq s k w p idx _ imgId Hk Hw). simpl.
      exists (resumed p w idx (Rejected ename emessage) imgId).
      split; [apply list_lookup_insert_eq; eapply lookup_lt_Some; exact Hk|].
      unfold resumed, worker_resume. simpl.
      split; [apply list_lookup_insert_eq; eapply lookup_lt_Some; exact Hw|].
      repeat split.
  - intros es es' k p idx Hk Hd.
    unfold run_events. rewrite fold_left_app. fold (run_events initial es).
    fold (run_events (run_events initial es) es').
    destruct (dropped_later es' _ k p idx Hk Hd) as (p' & Hk' & Hd').
    exists p'. split; [exact Hk'|]. split; [exact Hd'|].
    apply pool_ok_dropped; [|exact Hd'].
    assert (Hall : ∀ k p, pools (run_events initial (es ++ es')) !! k = Some p → pool_ok p).
    { apply pools_ok_reachable. intros j q Hj. simpl in Hj. discriminate. }
    apply (Hall k). unfold run_events. rewrite fold_left_app. exact Hk'.
  - eexists _, _. split; [vm_compute; reflexivity|]. split; [vm_compute; reflexivity|].
    repeat split.
Qed.

(** C9 at the example: the request for index 1 throws while index 2 is in
    flight; index 1 stays dropped after the rest of the run. *)
Lemma C9_thrown_request_drops_index_witness :
  ∃ p p', pools app_started !! 0 = Some p
          ∧ workers p !! 1 = Some (Awaiting 1)
          ∧ pools (deliver 0 1 (Rejected "TypeError" (Some "Failed to fetch")) "img-2"
                     app_started) !! 0 = Some p'
          ∧ workers p' !! 1 = Some Exited
          ∧ p_dropped p' = [1].
Proof.
  eexists _, _. split; [vm_compute; reflexivity|]. split; [reflexivity|].
  destruct (proj1 C9_thrown_request_drops_index app_started 0 1 _ 1
              "TypeError" (Some "Failed to fetch") "img-2"
              ltac:(vm_compute; reflexivity) eq_refl)
    as (_ & _ & p' & H1 & H2 & _ & _ & H3).
  split; [vm_compute; reflexivity|]. split; reflexivity.
Defined.

(* ===================================================================== *)
(** ** C6: deleting a run *)
(* ===================================================================== *)

(** C6 on the code: [deleteRun] removes every run with the given id,
    whatever its status, and moves the active selection to the first run
    left (or to none) when the deleted run was selected; but it leaves the
    store of aborted signals and the pools as they are. In the example a
    running run with two requests in flight is deleted: its controller is
    not aborted, its workers are still waiting, and the next reply makes a
    worker claim index 2 and send one more request. [cancelRun] and the
    eviction of [onGenerateNewRun] do abort the controller. *)
Theorem C6_deleteRun_leaves_signal :
  (∀ runId s,
     runs (deleteRun runId s) = filter (fun r => run_id r ≠ runId) (runs s)
     ∧ activeRunId (deleteRun runId s)
       = (if decide (activeRunId s = Some runId)
          then run_id <$> head (runs (deleteRun runId s))
          else activeRunId s)
     ∧ aborted (deleteRun runId s) = aborted s
     ∧ pools (deleteRun runId s) = pools s)
  ∧ status <$> runs app_started = [Running]
  ∧ controller <$> runs app_started = [Some 0]
  ∧ activeRunId app_started = Some "run-1"
  ∧ runs (deleteRun "run-1" app_started) = []
  ∧ activeRunId (deleteRun "run-1" app_started) = None
  ∧ aborted (deleteRun "run-1" app_started) = ∅
  ∧ awaiting <$> pools (deleteRun "run-1" app_started) = [[0; 1]]
  ∧ awaiting <$> pools (deliver 0 0 (Responded true body_image) "img-1"
                          (deleteRun "run-1" app_started))
    = [[2; 1]]
  ∧ aborted (cancelRun "run-1" app_started) = {[ 0 ]}.
Proof.
  split; [intros runId s; repeat split|].
  repeat split; vm_compute; reflexivity.
Qed.

(* ===================================================================== *)
(** ** C10: the Seedream branch of the two routes *)
(* ===================================================================== *)

Section Seedream.
Variable JSON_parse : string → option Val.
Variable JSON_stringify : Val → string.

Lemma classify_same qOk qJson :
  RouteTs.classify JSON_parse qOk qJson = RouteVariant.classify JSON_parse qOk qJson.
Proof.
  unfold RouteTs.classify, RouteVariant.classify.
  destruct (negb qOk || negb (is_200 (get qJson "code"))); [reflexivity|].
  destruct (is_str "success" _); [|reflexivity].
  destruct (JSON_parse _); reflexivity.
Qed.

Lemma poll_same sig started replies : ∀ clock lastState taskId sent,
  RouteTs.poll JSON_parse sig started clock lastState taskId replies sent
  = RouteVariant.poll JSON_parse sig started clock lastState taskId replies sent.
Proof.
  induction replies as [|r rest IH]; intros clock lastState taskId sent; simpl.
  - reflexivity.
  - unfold RouteTs.MAX_MS, RouteVariant.MAX_MS.
    destruct (clock - started <? 180000)%Z; [|reflexivity].
    destruct r as [qOk st qJson lat | m lat]; [|reflexivity].
    rewrite classify_same.
    destruct (RouteVariant.classify JSON_parse qOk qJson);
      first [reflexivity | apply IH].
Qed.

Lemma seedream_branch_same net body referenceUrl :
  RouteTs.seedream_branch JSON_parse net body referenceUrl
  = RouteVariant.seedream_branch JSON_parse net body referenceUrl.
Proof.
  unfold RouteTs.seedream_branch, RouteVariant.seedream_branch.
  destruct (negb _); [reflexivity|].
  destruct (kie net) as [|[cOk st createJson lat | m lat] rest];
    [reflexivity | | reflexivity].
  destruct (negb cOk || _); [reflexivity|].
  destruct (negb (truthy _)); [reflexivity|].
  apply poll_same.
Qed.

(** The loop goes on after a reply exactly when the reply is an HTTP
    success with code 200 whose state is neither the string success nor the
    string fail. *)
Lemma classify_pending qOk qJson :
  RouteTs.classify JSON_parse qOk qJson = Pending ↔
  qOk = true ∧ is_200 (get qJson "code") = true
  ∧ is_str "success" (get (get qJson "data") "state") = false
  ∧ is_str "fail" (get (get qJson "data") "state") = false.
Proof.
  unfold RouteTs.classify.
  destruct qOk; simpl; [|split; [discriminate | intros (? & _); discriminate]].
  destruct (is_200 (get qJson "code")); simpl;
    [|split; [discriminate | intros (_ & ? & _); discriminate]].
  destruct (is_str "success" (get (get qJson "data") "state")).
  - split; [|intros (_ & _ & ? & _); discriminate].
    destruct (JSON_parse _); [destruct (negb _)|]; discriminate.
  - destruct (is_str "fail" (get (get qJson "data") "state")).
    + split; [discriminate | intros (_ & _ & _ & ?); discriminate].
    + split; auto.
Qed.

End Seedream.

(** C10: for a model id that starts with seedream, the two routes answer
    the same request in the same environment (same key, same replies of
    createTask and recordInfo, same clock) with the same response, message
    and status included, after the same outgoing calls, the createTask
    payload included; both poll every 2000 ms up to 180000 ms; and in both
    the loop goes on after a reply exactly when it is a success with code
    200 whose state is neither success nor fail. *)
Theorem C10_seedream_branches_agree (JSON_parse : string → option Val)
    (JSON_stringify : Val → string) (net : Net) (body : PostBody) :
  startsWith "seedream" (pb_modelId body) = true →
  RouteTs.POST JSON_parse JSON_stringify net body
  = RouteVariant.POST JSON_parse JSON_stringify net body
  ∧ (∀ referenceUrl,
       RouteTs.seedream_payload body referenceUrl
       = RouteVariant.seedream_payload body referenceUrl)
  ∧ RouteTs.INTERVAL_MS = 2000%Z ∧ RouteVariant.INTERVAL_MS = 2000%Z
  ∧ RouteTs.MAX_MS = 180000%Z ∧ RouteVariant.MAX_MS = 180000%Z
  ∧ (∀ qOk qJson,
       RouteTs.classify JSON_parse qOk qJson = RouteVariant.classify JSON_parse qOk qJson)
  ∧ (∀ qOk qJson,
       RouteTs.classify JSON_parse qOk qJson = Pending ↔
       qOk = true ∧ is_200 (get qJson "code") = true
       ∧ is_str "success" (get (get qJson "data") "state") = false
       ∧ is_str "fail" (get (get qJson "data") "state") = false).
Proof.
  intros Hm. split.
  { unfold RouteTs.POST, RouteVariant.POST. rewrite Hm.
    destruct (negb _ || negb _); [reflexivity|].
    change (RouteVariant.getReferenceUrl net (pb_productId body) (pb_customUrl body))
      with (RouteTs.getReferenceUrl net (pb_productId body) (pb_customUrl body)).
    destruct (RouteTs.getReferenceUrl _ _ _); [|reflexivity].
    apply seedream_branch_same. }
  split; [intros referenceUrl; reflexivity|].
  split; [reflexivity|]. split; [reflexivity|].
  split; [reflexivity|]. split; [reflexivity|].
  split; [intros qOk qJson; apply classify_same|].
  intros qOk qJson. apply classify_pending.
Qed.

(** C10 at an example: a Seedream request whose task succeeds at the
    second poll. *)
Lemma C10_seedream_branches_agree_witness :
  startsWith "seedream" (pb_modelId body_seedream) = true
  ∧ RouteTs.POST parse_results (fun _ => "") net_seedream body_seedream
    = RouteVariant.POST parse_results (fun _ => "") net_seedream body_seedream.
Proof.
  split; [reflexivity|].
  apply (C10_seedream_branches_agree parse_results (fun _ => "")
           net_seedream body_seedream eq_refl).
Defined.

(* ===================================================================== *)
(** ** C4: the poll loop and cancellation *)
(* ===================================================================== *)







(* ===================================================================== *)
(** ** C7: precondition failures *)
(* ===================================================================== *)

Lemma nonempty_false s : nonempty s = false ↔ s = "".
Proof.
  unfold nonempty. rewrite negb_false_iff. apply String.eqb_eq.
Qed.

(** C7, as stated, fails: the selected product has an image in the list the
    page loaded, so the run is created and its first request is sent; the
    route then fails to resolve the reference (the row has no image_url)
    and answers 500. The reference could not be resolved, yet a run
    exists. *)
Lemma C7_unresolvable_reference_creates_no_run_refuted :
  status <$> runs (onGenerateNewRun ui_product "run-1" 1000 initial) = [Running]
  ∧ awaiting <$> pools (onGenerateNewRun ui_product "run-1" 1000 initial) = [[0]]
  ∧ (λ p, RouteTs.POST parse_results (fun _ => "") net_stale (request_body p 0))
      <$> pools (onGenerateNewRun ui_product "run-1" 1000 initial)
    = [(error_response 500 (VStr "No image_url found for product"), [])].
Proof. repeat split; vm_compute; reflexivity. Qed.

(** C7, amended: with no prompt or with an empty reference on the page (the
    custom URL is empty, or the selected product is not in the loaded list
    or has an empty image_url), [onGenerateNewRun] returns the state as it
    is: no run, no pool, no request, and nothing recorded. A reference that
    the route cannot resolve (no customUrl and no productId, a database
    error, or a row without image_url) makes [POST] answer 500 with the
    message of the error, before any outgoing call. *)
Theorem C7_precondition_failures :
  (∀ ui uuid now s, submittable ui = false → onGenerateNewRun ui uuid now s = s)
  ∧ (∀ ui, submittable ui = false ↔
           promptLines ui = [] ∨ default "" (ui_referenceUrl ui) = "")
  ∧ (∀ ui, default "" (ui_referenceUrl ui) = "" ↔
           (selectedId ui = "custom" ∧ customUrl ui = "")
           ∨ (selectedId ui ≠ "custom"
              ∧ (selected ui = None ∨ ∃ p, selected ui = Some p ∧ image_url p = "")))
  ∧ (∀ JSON_parse JSON_stringify net body m,
       nonempty (pb_prompt body) = true →
       nonempty (pb_modelId body) = true →
       RouteTs.getReferenceUrl net (pb_productId body) (pb_customUrl body) = Throw m →
       RouteTs.POST JSON_parse JSON_stringify net body
       = (error_response 500 (VStr (str_or (Some m) "Unexpected error")), []))
  ∧ (∀ net productId customUrl,
       (∃ m, RouteTs.getReferenceUrl net productId customUrl = Throw m) ↔
       nonempty (default "" customUrl) = false
       ∧ (nonempty (default "" productId) = false
          ∨ (∃ m, db net (default "" productId) = DbErr m)
          ∨ (∃ row, db net (default "" productId) = DbRow row
                    ∧ nonempty (default "" row) = false))).
Proof.
  split; [exact onGenerateNewRun_skip|]. split; [|split; [|split]].
  - intros ui. unfold submittable. rewrite andb_false_iff, negb_false_iff.
    rewrite nonempty_false, bool_decide_eq_true. split.
    + intros [H | H]; [right; exact H | left].
      destruct (promptLines ui); [reflexivity | discriminate].
    + intros [H | H]; [right; rewrite H; reflexivity | left; exact H].
  - intros ui. unfold ui_referenceUrl.
    destruct (String.eqb (selectedId ui) "custom") eqn:E.
    + apply String.eqb_eq in E. simpl. split.
      * intros H. left. auto.
      * intros [[_ H] | [H _]]; [exact H | contradiction].
    + apply String.eqb_neq in E. split.
      * intros H. right. split; [exact E|].
        destruct (selected ui) as [p|]; [right; exists p; auto | left; reflexivity].
      * intros [[H _] | [_ [H | (p & H & Hp)]]]; [contradiction| |];
          rewrite H; [reflexivity | exact Hp].
  - intros JSON_parse JSON_stringify net body m Hp Hm Hr.
    unfold RouteTs.POST. rewrite Hp, Hm, Hr. reflexivity.
  - intros net productId customUrl. unfold RouteTs.getReferenceUrl.
    destruct (nonempty (default "" customUrl)).
    { split; [intros [m H]; discriminate | intros [H _]; discriminate]. }
    destruct (nonempty (default "" productId)); simpl.
    2:{ split; [intros _; auto | intros _; eexists; reflexivity]. }
    destruct (db net (default "" productId)) as [e | row].
    { split; [intros _; split; [reflexivity|]; right; left; eexists; reflexivity
             | intros _; eexists; reflexivity]. }
    destruct (nonempty (default "" row)) eqn:Er.
    + split; [intros [m H]; discriminate|].
      intros [_ [H | [[m H] | (row' & H & Hrow)]]]; try discriminate.
      injection H as <-. rewrite Er in Hrow. discriminate.
    + split; [|intros _; eexists; reflexivity].
      intros _. split; [reflexivity|]. right. right. exists row. auto.
Qed.

(** The amended C7 at examples: a form without prompts leaves the state
    as it is; a request for a product whose row has no image is answered
    500 with no outgoing call. *)
Lemma C7_precondition_failures_witness :
  submittable ui_empty = false
  ∧ onGenerateNewRun ui_empty "run-1" 1000 initial = initial
  ∧ RouteTs.POST parse_results (fun _ => "") net_stale body_product
    = (error_response 500 (VStr "No image_url found for product"), []).
Proof.
  split; [reflexivity|]. split.
  - apply (proj1 C7_precondition_failures ui_empty "run-1" 1000%Z initial eq_refl).
  - apply (proj1 (proj2 (proj2 (proj2 C7_precondition_failures)))
             parse_results (fun _ => "") net_stale body_product
             "No image_url found for product" eq_refl eq_refl eq_refl).
Defined.

(* ===================================================================== *)
(** ** C8: looking for the image in a Gemini response *)
(* ===================================================================== *)

(** *** The accessors of [extractGeminiImage] read the fields of the table *)

Lemma getInlineData_table p :
  truthy (getInlineData p) = has_inline p
  ∧ (has_inline p = true → getInlineData p = inline_data_of p).
Proof.
  unfold has_inline, inline_data_of, getInlineData, js_coalesce. simpl.
  destruct (nullish (get (get p "inline_data") "data")); [|split; auto].
  destruct (get (get p "inlineData") "data"); simpl; split;
    first [reflexivity | discriminate].
Qed.

Lemma getInlineMime_table p : getInlineMime p = inline_mime_of p.
Proof.
  unfold inline_mime_of, getInlineMime, js_coalesce. simpl.
  destruct (nullish (get (get p "inline_data") "mime_type")); [|reflexivity].
  destruct (nullish (get (get p "inlineData") "mime_type")); [|reflexivity].
  destruct (nullish (get (get p "inlineData") "mimeType")); reflexivity.
Qed.

Lemma getFileUri_table p :
  truthy (getFileUri p) = has_file p
  ∧ (has_file p = true → getFileUri p = file_uri_of p).
Proof.
  unfold has_file, file_uri_of, getFileUri, js_coalesce. simpl.
  destruct (nullish (get (get p "file_data") "file_uri")); [|split; auto].
  destruct (nullish (get (get p "fileData") "file_uri")); [|split; auto].
  destruct (get (get p "fileData") "fileUri"); simpl; split;
    first [reflexivity | discriminate].
Qed.

Lemma getDataUri_table p :
  truthy (getDataUri p) && startsWith "data:image/" (to_String (getDataUri p))
  = has_data_uri p
  ∧ (has_data_uri p = true → getDataUri p = data_uri_of p).
Proof.
  unfold has_data_uri, data_uri_of, getDataUri, js_or. simpl.
  destruct (truthy (get p "data_uri")) eqn:A; [split; auto|].
  destruct (truthy (get p "dataUri")) eqn:B; [rewrite B; split; auto|].
  simpl. split; [reflexivity | discriminate].
Qed.

(** *** The four loops find what the first match of their shape is *)

Lemma scan_inline_located ps :
  match first_located (look_for Inline) ps with
  | Found a => scan_inline ps = Some (extracted a)
  | NotFound => scan_inline ps = None
  | Malformed => False
  end.
Proof.
  induction ps as [|p ps IH]; cbn [first_located look_for scan_inline]; [reflexivity|].
  destruct (getInlineData_table p) as [Ht He]. rewrite Ht.
  destruct (has_inline p); [|exact IH].
  rewrite (He eq_refl), getInlineMime_table. reflexivity.
Qed.

Lemma scan_file_located ps :
  match first_located (look_for FileUri) ps with
  | Found a => scan_file ps = Some (extracted a)
  | NotFound => scan_file ps = None
  | Malformed => False
  end.
Proof.
  induction ps as [|p ps IH]; cbn [first_located look_for scan_file]; [reflexivity|].
  destruct (getFileUri_table p) as [Ht He]. rewrite Ht.
  destruct (has_file p); [|exact IH].
  rewrite (He eq_refl). reflexivity.
Qed.

Lemma scan_data_uri_located ps :
  match first_located (look_for DataUri) ps with
  | Found a => scan_data_uri ps = Some (extracted a)
  | NotFound => scan_data_uri ps = None
  | Malformed => False
  end.
Proof.
  induction ps as [|p ps IH]; cbn [first_located look_for scan_data_uri]; [reflexivity|].
  destruct (getDataUri_table p) as [Ht He]. rewrite Ht.
  destruct (has_data_uri p); [|exact IH].
  rewrite (He eq_refl). reflexivity.
Qed.

Lemma scan_media_items_located media :
  match first_located look_at_media_item media with
  | Found a => scan_media_items media = Ok (Some (extracted a))
  | NotFound => scan_media_items media = Ok None
  | Malformed => ∃ msg, scan_media_items media = Throw msg
  end.
Proof.
  induction media as [|m ms IH]; [reflexivity|].
  cbn [first_located scan_media_items]. cbv zeta.
  unfold look_at_media_item at 1. unfold media_item_malformed, media_item_image.
  destruct (truthy (get m "data")); destruct (get m "mimeType") as [| |b|n|t|xs|fs];
    cbn [andb]; try destruct (startsWith "image/" t);
    destruct (truthy (get m "url"));
    first [reflexivity | exact IH | eexists; reflexivity].
Qed.

Lemma scan_media_located ps :
  match first_located (look_for MediaArray) ps with
  | Found a => scan_media ps = Ok (Some (extracted a))
  | NotFound => scan_media ps = Ok None
  | Malformed => ∃ msg, scan_media ps = Throw msg
  end.
Proof.
  induction ps as [|p ps IH]; cbn [first_located look_for scan_media]; [reflexivity|].
  destruct (get p "media") as [| |b|n|t|media|fs]; try exact IH.
  pose proof (scan_media_items_located media) as H.
  destruct (first_located look_at_media_item media) as [a| |].
  - rewrite H. reflexivity.
  - rewrite H. exact IH.
  - destruct H as [msg ->]. eexists; reflexivity.
Qed.

(** *** What the first match is *)

Lemma first_located_none {A : Type} (look : A → Located) l :
  Forall (fun x => look x = NotFound) l → first_located look l = NotFound.
Proof.
  intros H. induction H as [|x l Hx _ IH]; simpl; [reflexivity|].
  rewrite Hx. exact IH.
Qed.

Lemma first_located_first {A : Type} (look : A → Located) l1 x l2 :
  Forall (fun y => look y = NotFound) l1 → look x ≠ NotFound →
  first_located look (l1 ++ x :: l2) = look x.
Proof.
  intros H Hx. induction H as [|y l1 Hy _ IH]; simpl.
  - destruct (look x); [reflexivity | contradiction | reflexivity].
  - rewrite Hy. exact IH.
Qed.

Lemma first_located_found {A : Type} (look : A → Located) l a :
  first_located look l = Found a → ∃ x, x ∈ l ∧ look x = Found a.
Proof.
  induction l as [|x l IH]; simpl; [discriminate|].
  destruct (look x) as [b| |] eqn:E; [| |discriminate].
  - intros [= ->]. exists x. split; [apply list_elem_of_here | exact E].
  - intros H. destruct (IH H) as (y & Hy & Hl). exists y.
    split; [apply list_elem_of_further, Hy | exact Hl].
Qed.

Lemma no_inline_located ps :
  Forall (fun q => has_inline q = false) ps →
  first_located (look_for Inline) ps = NotFound.
Proof.
  intros H. apply first_located_none. eapply Forall_impl; [exact H|].
  simpl. intros q Hq. rewrite Hq. reflexivity.
Qed.

Lemma no_file_located ps :
  Forall (fun q => has_file q = false) ps →
  first_located (look_for FileUri) ps = NotFound.
Proof.
  intros H. apply first_located_none. eapply Forall_impl; [exact H|].
  simpl. intros q Hq. rewrite Hq. reflexivity.
Qed.

Lemma no_data_uri_located ps :
  Forall (fun q => has_data_uri q = false) ps →
  first_located (look_for DataUri) ps = NotFound.
Proof.
  intros H. apply first_located_none. eapply Forall_impl; [exact H|].
  simpl. intros q Hq. rewrite Hq. reflexivity.
Qed.

Lemma quiet_item m :
  media_item_matches m = false → media_item_malformed m = false →
  look_at_media_item m = NotFound.
Proof.
  unfold look_at_media_item, media_item_matches. intros Hm ->.
  apply orb_false_iff in Hm as [-> ->]. reflexivity.
Qed.

Lemma media_quiet_located p :
  media_quiet p = true → look_for MediaArray p = NotFound.
Proof.
  unfold media_quiet. cbn [look_for].
  destruct (get p "media") as [| |b|n|t|media|fs]; try reflexivity.
  intros H. apply first_located_none. rewrite forallb_forall in H.
  apply Forall_forall. intros m Hm. apply list_elem_of_In in Hm.
  specialize (H m Hm). apply andb_true_iff in H as [H1 H2].
  apply negb_true_iff in H1, H2. apply quiet_item; assumption.
Qed.

Lemma all_quiet_located ps :
  Forall (fun q => media_quiet q = true) ps →
  first_located (look_for MediaArray) ps = NotFound.
Proof.
  intros H. apply first_located_none. eapply Forall_impl; [exact H|].
  simpl. intros q Hq. apply media_quiet_located, Hq.
Qed.

(** The parts without a match in a media array: those whose media arrays
    are quiet, when none has an item that cannot be read. *)
Lemma no_media_quiet p :
  has_media p = false →
  media_quiet p = true
  ∨ ∃ media m, get p "media" = VArr media ∧ m ∈ media ∧ media_item_malformed m = true.
Proof.
  unfold has_media, media_quiet.
  destruct (get p "media") as [| |b|n|t|media|fs]; auto.
  intros H.
  destruct (forallb (fun m => negb (media_item_matches m) && negb (media_item_malformed m))
              media) eqn:E; [auto|].
  right. exists media.
  assert (Hex : ∃ m, m ∈ media ∧ media_item_malformed m = true); [|destruct Hex as [m Hm]; eauto].
  clear -H E. induction media as [|m ms IH]; simpl in *; [discriminate|].
  apply orb_false_iff in H as [Hm Hms]. rewrite Hm in E. simpl in E.
  destruct (media_item_malformed m) eqn:M.
  - exists m. split; [apply list_elem_of_here | exact M].
  - simpl in E. destruct (IH Hms E) as (m0 & Hin & H0). exists m0.
    split; [apply list_elem_of_further, Hin | exact H0].
Qed.

Lemma match_item_located m :
  media_item_matches m = true → media_item_malformed m = false →
  ∃ a, look_at_media_item m = Found a ∧ extracted a = media_item_found m.
Proof.
  unfold look_at_media_item, media_item_matches, media_item_found. intros Hm ->.
  destruct (media_item_image m); [eexists; split; reflexivity|].
  simpl in Hm. rewrite Hm. eexists; split; reflexivity.
Qed.

Lemma look_at_media_item_truthy m a :
  look_at_media_item m = Found a → truthy (artifact_value a) = true.
Proof.
  unfold look_at_media_item.
  destruct (media_item_malformed m); [discriminate|].
  destruct (media_item_image m); [intros [= <-]; reflexivity|].
  destruct (truthy (get m "url")) eqn:U; [intros [= <-]; exact U | discriminate].
Qed.

Lemma look_for_truthy s p a :
  look_for s p = Found a → truthy (artifact_value a) = true.
Proof.
  destruct s; cbn [look_for].
  - destruct (has_inline p); [intros [= <-]; reflexivity | discriminate].
  - destruct (has_file p) eqn:H; [intros [= <-]; exact H | discriminate].
  - destruct (get p "media") as [| |b|n|t|media|fs]; try discriminate.
    intros H. destruct (first_located_found _ _ _ H) as (m & _ & Hm).
    exact (look_at_media_item_truthy m a Hm).
  - destruct (has_data_uri p) eqn:H; [|discriminate]. intros [= <-].
    unfold has_data_uri in H. apply andb_true_iff in H as [H _]. exact H.
Qed.

Lemma locate_truthy ps a :
  locate ps = Found a → truthy (artifact_value a) = true.
Proof.
  unfold locate. intros H.
  destruct (first_located_found _ _ _ H) as (s & _ & Hs).
  destruct (first_located_found _ _ _ Hs) as (p & _ & Hp).
  exact (look_for_truthy s p a Hp).
Qed.

Lemma no_shape_split ps :
  Forall (fun p => has_shape p = false) ps →
  Forall (fun q => has_inline q = false) ps
  ∧ Forall (fun q => has_file q = false) ps
  ∧ Forall (fun q => has_media q = false) ps
  ∧ Forall (fun q => has_data_uri q = false) ps.
Proof.
  intros H. repeat split; eapply Forall_impl; try exact H; simpl; intros p Hp;
    unfold has_shape in Hp; repeat (apply orb_false_iff in Hp as [Hp ?]); assumption.
Qed.

(** Without a match in a media array, the media shape finds nothing or
    meets an item it cannot read. *)
Lemma no_media_located ps :
  Forall (fun q => has_media q = false) ps →
  first_located (look_for MediaArray) ps ≠ NotFound →
  first_located (look_for MediaArray) ps = Malformed.
Proof.
  intros H. induction H as [|p ps Hp _ IH]; cbn [first_located]; [contradiction|].
  destruct (look_for MediaArray p) as [a| |] eqn:E; [|exact IH|reflexivity].
  exfalso. cbn [look_for] in E. unfold has_media in Hp.
  destruct (get p "media") as [| |b|n|t|media|fs]; try discriminate.
  destruct (first_located_found _ _ _ E) as (m & Hin & Hm).
  assert (Hx : existsb media_item_matches media = true); [|congruence].
  apply existsb_exists. exists m. split; [apply list_elem_of_In, Hin|].
  unfold look_at_media_item in Hm. unfold media_item_matches.
  destruct (media_item_malformed m); [discriminate|].
  destruct (media_item_image m); [reflexivity|].
  destruct (truthy (get m "url")); [reflexivity | discriminate].
Qed.

Lemma startsWith_append p s : startsWith p (p +:+ s) = true.
Proof.
  unfold startsWith. induction p as [|c p IH]; simpl; [destruct s; reflexivity|].
  destruct (ascii_dec c c); [exact IH | contradiction].
Qed.

Section Gemini.
Variable JSON_stringify : Val → string.

Ltac open_extract H :=
  unfold RouteTs.extractGeminiImage; unfold parts_of in H;
  destruct (js_or (get _ "candidates") (VArr [])) as [| | | | |[|?c0 ?cs]|];
  try discriminate H;
  destruct (js_or (get (get _ "content") "parts") (VArr [])) as [| | | | |?ps0|];
  try discriminate H;
  injection H as ->; cbn [iterable_parts mbind Res_bind].

(** [extractGeminiImage] returns what the first match of the first shape
    that has one gives. *)
Lemma extract_locate json ps :
  parts_of json = Some ps →
  match locate ps with
  | Found a => RouteTs.extractGeminiImage JSON_stringify json = Ok (extracted a)
  | NotFound =>
      (∃ m, RouteTs.extractGeminiImage JSON_stringify json = Throw m)
      ∨ (∃ why dbg,
           RouteTs.extractGeminiImage JSON_stringify json
           = Ok {| dataUrl := VUndef; url := VUndef; reason := Some why; x_debug := dbg |}
           ∧ startsWith "No image parts found. finishReason=" why = true)
  | Malformed => ∃ m, RouteTs.extractGeminiImage JSON_stringify json = Throw m
  end.
Proof.
  intros H. open_extract H. unfold locate, shapes. cbn [first_located].
  pose proof (scan_inline_located ps) as H1.
  destruct (first_located (look_for Inline) ps) as [a| |];
    [rewrite H1; reflexivity | | destruct H1].
  rewrite H1.
  pose proof (scan_file_located ps) as H2.
  destruct (first_located (look_for FileUri) ps) as [a| |];
    [rewrite H2; reflexivity | | destruct H2].
  rewrite H2.
  pose proof (scan_media_located ps) as H3.
  destruct (first_located (look_for MediaArray) ps) as [a| |];
    [rewrite H3; reflexivity | | destruct H3 as [msg ->]; eexists; reflexivity].
  rewrite H3. cbn [mbind Res_bind].
  pose proof (scan_data_uri_located ps) as H4.
  destruct (first_located (look_for DataUri) ps) as [a| |];
    [rewrite H4; reflexivity | | destruct H4].
  rewrite H4.
  destruct (truthy (any_text ps)).
  - destruct (slice_text 140 (any_text ps)) as [t|e']; cbn [mbind Res_bind].
    + right. eexists _, _. split; [reflexivity | apply startsWith_append].
    + left. eexists; reflexivity.
  - cbn [mbind Res_bind]. right. eexists _, _.
    split; [reflexivity | apply startsWith_append].
Qed.

Lemma extract_first json ps a :
  parts_of json = Some ps → locate ps = Found a →
  RouteTs.extractGeminiImage JSON_stringify json = Ok (extracted a).
Proof.
  intros H Hl. pose proof (extract_locate json ps H) as E. rewrite Hl in E. exact E.
Qed.

Lemma respond_found nbStatus json a :
  RouteTs.extractGeminiImage JSON_stringify json = Ok (extracted a) →
  truthy (artifact_value a) = true →
  RouteTs.respond_gemini JSON_stringify true nbStatus json
  = {| r_status := 200; r_body := BImage (artifact_value a) |}.
Proof.
  intros E T. unfold RouteTs.respond_gemini. rewrite E. cbn [negb].
  destruct a as [v|v]; simpl in *; rewrite T; reflexivity.
Qed.

Lemma extract_inline json l1 p l2 :
  parts_of json = Some (l1 ++ p :: l2) →
  Forall (fun q => has_inline q = false) l1 → has_inline p = true →
  RouteTs.extractGeminiImage JSON_stringify json
  = Ok (found_dataUrl (data_url (inline_mime_of p) (inline_data_of p))).
Proof.
  intros H Hl Hp.
  apply (extract_first json _
           (AsDataUrl (data_url (inline_mime_of p) (inline_data_of p))) H).
  unfold locate, shapes. cbn [first_located].
  rewrite first_located_first.
  - cbn [look_for]. rewrite Hp. reflexivity.
  - eapply Forall_impl; [exact Hl|]. simpl. intros q Hq. rewrite Hq. reflexivity.
  - cbn [look_for]. rewrite Hp. discriminate.
Qed.

Lemma extract_file json l1 p l2 :
  parts_of json = Some (l1 ++ p :: l2) →
  Forall (fun q => has_inline q = false) (l1 ++ p :: l2) →
  Forall (fun q => has_file q = false) l1 → has_file p = true →
  RouteTs.extractGeminiImage JSON_stringify json = Ok (found_url (file_uri_of p)).
Proof.
  intros H Hi Hl Hp.
  apply (extract_first json _ (AsUrl (file_uri_of p)) H).
  unfold locate, shapes. cbn [first_located].
  rewrite (no_inline_located _ Hi), first_located_first.
  - cbn [look_for]. rewrite Hp. reflexivity.
  - eapply Forall_impl; [exact Hl|]. simpl. intros q Hq. rewrite Hq. reflexivity.
  - cbn [look_for]. rewrite Hp. discriminate.
Qed.

Lemma extract_media json l1 p l2 m1 m m2 :
  parts_of json = Some (l1 ++ p :: l2) →
  Forall (fun q => has_inline q = false) (l1 ++ p :: l2) →
  Forall (fun q => has_file q = false) (l1 ++ p :: l2) →
  Forall (fun q => media_quiet q = true) l1 →
  get p "media" = VArr (m1 ++ m :: m2) →
  Forall (fun x => media_item_matches x = false ∧ media_item_malformed x = false) m1 →
  media_item_matches m = true → media_item_malformed m = false →
  RouteTs.extractGeminiImage JSON_stringify json = Ok (media_item_found m).
Proof.
  intros H Hi Hf Hq Hp Hm1 Hm Hr.
  destruct (match_item_located m Hm Hr) as (a & Ha & <-).
  apply (extract_first json _ a H).
  unfold locate, shapes. cbn [first_located].
  rewrite (no_inline_located _ Hi), (no_file_located _ Hf).
  assert (Hpm : look_for MediaArray p = Found a).
  { cbn [look_for]. rewrite Hp, first_located_first; [exact Ha | | congruence].
    eapply Forall_impl; [exact Hm1|]. simpl. intros x [Hx1 Hx2].
    apply quiet_item; assumption. }
  rewrite first_located_first; [rewrite Hpm; reflexivity | | congruence].
  eapply Forall_impl; [exact Hq|]. simpl. intros q. apply media_quiet_located.
Qed.

Lemma extract_data_uri json l1 p l2 :
  parts_of json = Some (l1 ++ p :: l2) →
  Forall (fun q => has_inline q = false) (l1 ++ p :: l2) →
  Forall (fun q => has_file q = false) (l1 ++ p :: l2) →
  Forall (fun q => media_quiet q = true) (l1 ++ p :: l2) →
  Forall (fun q => has_data_uri q = false) l1 → has_data_uri p = true →
  RouteTs.extractGeminiImage JSON_stringify json = Ok (found_dataUrl (data_uri_of p)).
Proof.
  intros H Hi Hf Hq Hl Hp.
  apply (extract_first json _ (AsDataUrl (data_uri_of p)) H).
  unfold locate, shapes. cbn [first_located].
  rewrite (no_inline_located _ Hi), (no_file_located _ Hf), (all_quiet_located _ Hq),
    first_located_first.
  - cbn [look_for]. rewrite Hp. reflexivity.
  - eapply Forall_impl; [exact Hl|]. simpl. intros q Hq'. rewrite Hq'. reflexivity.
  - cbn [look_for]. rewrite Hp. discriminate.
Qed.

Lemma caught_shape m :
  ∃ e, caught m = error_response 500 (VStr e) ∧ nonempty e = true.
Proof.
  unfold caught, str_or. destruct (nonempty m) eqn:E; eexists; split; eauto.
Qed.

(** Without any of the shapes the extraction gives a reason and no image,
    or throws. *)
Lemma extract_no_shape json :
  (∀ ps, parts_of json = Some ps → Forall (fun p => has_shape p = false) ps) →
  (∃ m, RouteTs.extractGeminiImage JSON_stringify json = Throw m)
  ∨ (∃ why dbg,
       RouteTs.extractGeminiImage JSON_stringify json
       = Ok {| dataUrl := VUndef; url := VUndef; reason := Some why; x_debug := dbg |}
       ∧ (startsWith "No candidates (finishReason=" why = true
          ∨ startsWith "No image parts found. finishReason=" why = true)).
Proof.
  intros H. destruct (parts_of json) as [ps|] eqn:P.
  - destruct (no_shape_split ps (H ps eq_refl)) as (Hi & Hf & Hm & Hd).
    pose proof (extract_locate json ps P) as E. unfold locate, shapes in E.
    cbn [first_located] in E.
    rewrite (no_inline_located _ Hi), (no_file_located _ Hf) in E.
    destruct (first_located (look_for MediaArray) ps) as [a| |] eqn:M.
    + pose proof (no_media_located ps Hm) as N. rewrite M in N.
      discriminate N. discriminate.
    + rewrite (no_data_uri_located _ Hd) in E.
      destruct E as [E | (why & dbg & E & Hw)]; [left; exact E|].
      right. exists why, dbg. auto.
    + left. exact E.
  - clear H. unfold RouteTs.extractGeminiImage. unfold parts_of in P.
    destruct (js_or (get json "candidates") (VArr [])) as [| | | | |[|c0 cs]|];
      try (right; eexists _, _; split; [reflexivity | left; apply startsWith_append]).
    destruct (js_or (get (get c0 "content") "parts") (VArr [])) as [| | | | |ps|];
      try discriminate P; left; eexists; reflexivity.
Qed.

Lemma startsWith_nonempty p s :
  nonempty p = true → startsWith p s = true → nonempty s = true.
Proof.
  unfold nonempty, startsWith. destruct p as [|c p]; [discriminate|].
  destruct s as [|d s]; [discriminate | reflexivity].
Qed.

End Gemini.

(** C8: on an HTTP-success Gemini reply, (1) a success response always
    carries a truthy artifact, with status 200; (2) when no part of the
    first candidate has any of the four shapes, the response is a failure:
    status 502 with a message that starts with the reason (no candidates,
    or no image parts found), or status 500 with the message of an
    exception; (3) for a printable response whose first candidate has an
    array of parts, the extraction returns what trying the shapes in the
    fixed order inline data, file uri, media array, data uri gives, each
    shape over all the parts in their order and the first match winning:
    when there is a match the answer is 200 with its artifact, which is
    truthy; when there is none no artifact is returned; when a media item
    that cannot be read comes before any match the extraction throws and
    the answer is the 500 of the catch. Spelt out shape by shape: (4) the
    inline data of the first part that has some is returned as a data URL
    of its mime type (image/png when it has none), whatever else the parts
    carry; (5) else the file uri of the first part that has one; (6) else
    the first matching item of the first media array that has one, the
    items before it being readable: its data as a data URL when the type
    starts with image/, else its url; (7) else the data uri of the first
    part that has one of an image. The fields read are inline_data.data or
    inlineData.data with inline_data.mime_type, inlineData.mime_type or
    inlineData.mimeType; file_data.file_uri, fileData.file_uri or
    fileData.fileUri; media with data, mimeType and url; data_uri or
    dataUri. *)
Theorem C8_gemini_extraction (JSON_stringify : Val → string) :
  (∀ nbStatus nbJson st v,
     RouteTs.respond_gemini JSON_stringify true nbStatus nbJson
     = {| r_status := st; r_body := BImage v |} →
     truthy v = true ∧ st = 200%Z)
  ∧ (∀ nbStatus nbJson,
       (∀ ps, parts_of nbJson = Some ps → Forall (fun p => has_shape p = false) ps) →
       ∃ e dbg st,
         RouteTs.respond_gemini JSON_stringify true nbStatus nbJson
         = {| r_status := st; r_body := BError (VStr e) dbg |}
         ∧ nonempty e = true
         ∧ ((st = 502%Z
             ∧ (startsWith "No candidates (finishReason=" e = true
                ∨ startsWith "No image parts found. finishReason=" e = true))
            ∨ st = 500%Z))
  ∧ (∀ nbStatus nbJson ps,
       parts_of nbJson = Some ps → printable nbJson = true →
       match locate ps with
       | Found a =>
           RouteTs.extractGeminiImage JSON_stringify nbJson = Ok (extracted a)
           ∧ truthy (artifact_value a) = true
           ∧ RouteTs.respond_gemini JSON_stringify true nbStatus nbJson
             = {| r_status := 200; r_body := BImage (artifact_value a) |}
       | NotFound =>
           (∃ m, RouteTs.extractGeminiImage JSON_stringify nbJson = Throw m)
           ∨ (∃ why dbg,
                RouteTs.extractGeminiImage JSON_stringify nbJson
                = Ok {| dataUrl := VUndef; url := VUndef; reason := Some why;
                        x_debug := dbg |}
                ∧ startsWith "No image parts found. finishReason=" why = true)
       | Malformed =>
           ∃ m, RouteTs.extractGeminiImage JSON_stringify nbJson = Throw m
                ∧ RouteTs.respond_gemini JSON_stringify true nbStatus nbJson = caught m
       end)
  ∧ (∀ json l1 p l2,
       parts_of json = Some (l1 ++ p :: l2) → printable json = true →
       Forall (fun q => has_inline q = false) l1 → has_inline p = true →
       RouteTs.extractGeminiImage JSON_stringify json
       = Ok (found_dataUrl (data_url (inline_mime_of p) (inline_data_of p))))
  ∧ (∀ json l1 p l2,
       parts_of json = Some (l1 ++ p :: l2) → printable json = true →
       Forall (fun q => has_inline q = false) (l1 ++ p :: l2) →
       Forall (fun q => has_file q = false) l1 → has_file p = true →
       RouteTs.extractGeminiImage JSON_stringify json = Ok (found_url (file_uri_of p)))
  ∧ (∀ json l1 p l2 m1 m m2,
       parts_of json = Some (l1 ++ p :: l2) → printable json = true →
       Forall (fun q => has_inline q = false) (l1 ++ p :: l2) →
       Forall (fun q => has_file q = false) (l1 ++ p :: l2) →
       Forall (fun q => media_quiet q = true) l1 →
       get p "media" = VArr (m1 ++ m :: m2) →
       Forall (fun x => media_item_matches x = false ∧ media_item_malformed x = false) m1 →
       media_item_matches m = true → media_item_malformed m = false →
       RouteTs.extractGeminiImage JSON_stringify json = Ok (media_item_found m))
  ∧ (∀ json l1 p l2,
       parts_of json = Some (l1 ++ p :: l2) → printable json = true →
       Forall (fun q => has_inline q = false) (l1 ++ p :: l2) →
       Forall (fun q => has_file q = false) (l1 ++ p :: l2) →
       Forall (fun q => media_quiet q = true) (l1 ++ p :: l2) →
       Forall (fun q => has_data_uri q = false) l1 → has_data_uri p = true →
       RouteTs.extractGeminiImage JSON_stringify json
       = Ok (found_dataUrl (data_uri_of p))).
Proof.
  split; [|split; [|split; [|split; [|split; [|split]]]]].
  - intros nbStatus nbJson st v. unfold RouteTs.respond_gemini. simpl.
    destruct (RouteTs.extractGeminiImage JSON_stringify nbJson) as [out|m];
      [|unfold caught, error_response; discriminate].
    destruct (truthy (dataUrl out)) eqn:D; [intros [= <- <-]; auto|].
    destruct (truthy (url out)) eqn:U; [intros [= <- <-]; auto | discriminate].
  - intros nbStatus nbJson H. unfold RouteTs.respond_gemini. simpl.
    destruct (extract_no_shape JSON_stringify nbJson H) as [[m E] | (why & dbg & E & Hw)];
      rewrite E.
    + destruct (caught_shape m) as (e & -> & He).
      exists e, None, 500%Z. split; [reflexivity|]. split; [exact He | right; reflexivity].
    + simpl.
      assert (Hne : nonempty why = true).
      { destruct Hw as [Hw | Hw]; eapply startsWith_nonempty; try exact Hw; reflexivity. }
      exists why, (Some (default VNull dbg)), 502%Z.
      split; [unfold str_or; rewrite Hne; reflexivity|].
      split; [exact Hne | left; auto].
  - intros nbStatus nbJson ps H _.
    pose proof (extract_locate JSON_stringify nbJson ps H) as E.
    pose proof (locate_truthy ps) as T.
    destruct (locate ps) as [a| |].
    + split; [exact E|]. split; [exact (T a eq_refl)|].
      exact (respond_found JSON_stringify nbStatus nbJson a E (T a eq_refl)).
    + exact E.
    + destruct E as [m E]. exists m. split; [exact E|].
      unfold RouteTs.respond_gemini. rewrite E. reflexivity.
  - intros json l1 p l2 H _. exact (extract_inline JSON_stringify json l1 p l2 H).
  - intros json l1 p l2 H _. exact (extract_file JSON_stringify json l1 p l2 H).
  - intros json l1 p l2 m1 m m2 H _.
    exact (extract_media JSON_stringify json l1 p l2 m1 m m2 H).
  - intros json l1 p l2 H _. exact (extract_data_uri JSON_stringify json l1 p l2 H).
Qed.

(** C8 at examples. Inline data in the third part wins over the file uri
    and the data uri of the second. A file uri in the second part wins over
    the media array and the data uri of the first. In a media array the
    image wins over the video before it and the url after it, and over the
    data uri of an earlier part. Of two data uris the first wins. A media
    item with a number as its type makes the extraction throw although a
    later part has a data uri. A response with a text part only is
    answered 502 with the reason. *)
Lemma C8_gemini_extraction_witness :
  RouteTs.extractGeminiImage (fun _ => "[]") json_mixed
  = Ok (found_dataUrl (VStr "data:image/jpeg;base64,CCCC"))
  ∧ RouteTs.extractGeminiImage (fun _ => "[]") (json_parts parts_file)
    = Ok (found_url (VStr "https://files.example/f2"))
  ∧ RouteTs.extractGeminiImage (fun _ => "[]") (json_parts parts_media)
    = Ok (found_dataUrl (VStr "data:image/webp;base64,EEEE"))
  ∧ RouteTs.extractGeminiImage (fun _ => "[]") (json_parts parts_data_uri)
    = Ok (found_dataUrl (VStr "data:image/png;base64,FFFF"))
  ∧ RouteTs.respond_gemini (fun _ => "[]") true 200 (json_parts parts_media)
    = {| r_status := 200; r_body := BImage (VStr "data:image/webp;base64,EEEE") |}
  ∧ RouteTs.respond_gemini (fun _ => "[]") true 200 (json_parts parts_file)
    = {| r_status := 200; r_body := BImage (VStr "https://files.example/f2") |}
  ∧ (∃ m, RouteTs.extractGeminiImage (fun _ => "[]") (json_parts parts_malformed) = Throw m
          ∧ RouteTs.respond_gemini (fun _ => "[]") true 200 (json_parts parts_malformed)
            = caught m)
  ∧ ∃ e dbg st,
      RouteTs.respond_gemini (fun _ => "[]") true 200 json_text_only
      = {| r_status := st; r_body := BError (VStr e) dbg |}
      ∧ nonempty e = true
      ∧ ((st = 502%Z
          ∧ (startsWith "No candidates (finishReason=" e = true
             ∨ startsWith "No image parts found. finishReason=" e = true))
         ∨ st = 500%Z).
Proof.
  pose proof (C8_gemini_extraction (fun _ => "[]")) as (_ & H2 & H3 & H4 & H5 & H6 & H7).
  split; [|split; [|split; [|split; [|split; [|split; [|split]]]]]].
  - apply (H4 json_mixed
             [VObj [("text", VStr "Here is your image")];
              VObj [("fileData", VObj [("fileUri", VStr "https://files.example/f1")]);
                    ("dataUri", VStr "data:image/png;base64,BBBB")]]
             (VObj [("inlineData",
                     VObj [("mimeType", VStr "image/jpeg"); ("data", VStr "CCCC")])])
             [] eq_refl eq_refl).
    + repeat constructor.
    + reflexivity.
  - apply (H5 (json_parts parts_file)
             [VObj [("media", VArr [VObj [("url", VStr "https://media.example/m1")]]);
                    ("data_uri", VStr "data:image/png;base64,BBBB")]]
             (VObj [("file_data", VObj [("file_uri", VStr "https://files.example/f2")])])
             [] eq_refl eq_refl).
    + repeat constructor.
    + repeat constructor.
    + reflexivity.
  - apply (H6 (json_parts parts_media)
             [VObj [("dataUri", VStr "data:image/png;base64,BBBB")]]
             (VObj [("media",
                     VArr [media_video; media_webp;
                           VObj [("url", VStr "https://media.example/m2")]])])
             [] [media_video] media_webp
             [VObj [("url", VStr "https://media.example/m2")]] eq_refl eq_refl).
    + repeat constructor.
    + repeat constructor.
    + repeat constructor.
    + reflexivity.
    + repeat constructor.
    + reflexivity.
    + reflexivity.
  - apply (H7 (json_parts parts_data_uri)
             [VObj [("text", VStr "Here is your image"); ("media", VArr [])]]
             (VObj [("data_uri", VStr "data:image/png;base64,FFFF")])
             [VObj [("dataUri", VStr "data:image/png;base64,GGGG")]] eq_refl eq_refl).
    + repeat constructor.
    + repeat constructor.
    + repeat constructor.
    + repeat constructor.
    + reflexivity.
  - exact (proj2 (proj2 (H3 200%Z (json_parts parts_media) parts_media eq_refl eq_refl))).
  - exact (proj2 (proj2 (H3 200%Z (json_parts parts_file) parts_file eq_refl eq_refl))).
  - exact (H3 200%Z (json_parts parts_malformed) parts_malformed eq_refl eq_refl).
  - apply (H2 200%Z json_text_only).
    intros ps [= <-]. repeat constructor.
Defined.

(* ===================================================================== *)
(** ** The calls of the generate route *)
(* ===================================================================== *)

(** The loop only adds status fetches for its task, and at most [k] of
    them when no more than [k] intervals are left before the deadline. *)
Lemma poll_fetches parse sig started taskId replies :
  ∀ (k : nat) clock lastState sent,
    (RouteTs.MAX_MS - RouteTs.INTERVAL_MS * Z.of_nat k <= clock - started)%Z →
    ∃ n, n <= k
         ∧ snd (RouteTs.poll parse sig started clock lastState taskId replies sent)
           = sent ++ replicate n (RecordInfo taskId).
Proof.
  unfold RouteTs.MAX_MS, RouteTs.INTERVAL_MS.
  induction replies as [|r rest IH]; intros k clock lastState sent Hk; simpl;
    unfold RouteTs.MAX_MS; destruct (clock - started <? 180000)%Z eqn:E;
    try (exists 0; split; [lia | simpl; rewrite app_nil_r; reflexivity]).
  - apply Z.ltb_lt in E. exists 1. split; [lia | reflexivity].
  - apply Z.ltb_lt in E.
    destruct r as [qOk st qJson lat | m lat];
      [|exists 1; split; [lia | reflexivity]].
    destruct (RouteTs.classify parse qOk qJson);
      try (exists 1; split; [lia | reflexivity]).
    destruct k as [|k]; [lia|].
    destruct (IH k (clock + RouteTs.INTERVAL_MS + Z.of_N lat)%Z
                (get (get qJson "data") "state") (sent ++ [RecordInfo taskId]))
      as (n & Hn & Heq).
    { unfold RouteTs.INTERVAL_MS. lia. }
    exists (S n). split; [lia|]. rewrite Heq, <- app_assoc. reflexivity.
Qed.

Lemma classify_return parse qOk qJson r :
  RouteTs.classify parse qOk qJson = Return r → ∃ e, r = error_response 502 e.
Proof.
  unfold RouteTs.classify.
  destruct (negb qOk || _); [intros [= <-]; eexists; reflexivity|].
  destruct (is_str "success" _).
  - destruct (parse _); [destruct (negb _)|]; intros [= <-]; eexists; reflexivity.
  - destruct (is_str "fail" _); [|discriminate].
    intros [= <-]. eexists; reflexivity.
Qed.

Lemma after_poll_cases resultUrl lastState :
  (truthy resultUrl = true
   ∧ RouteTs.after_poll resultUrl lastState = {| r_status := 200; r_body := BImage resultUrl |})
  ∨ (∃ e, RouteTs.after_poll resultUrl lastState = error_response 504 e).
Proof.
  unfold RouteTs.after_poll. destruct (truthy resultUrl); [left; auto|].
  right. eexists; reflexivity.
Qed.

(** What the loop can answer. *)
Lemma poll_response parse sig started taskId replies :
  ∀ clock lastState sent,
    let r := fst (RouteTs.poll parse sig started clock lastState taskId replies sent) in
    (∃ v, truthy v = true ∧ r = {| r_status := 200; r_body := BImage v |})
    ∨ (∃ st e, r = error_response st e ∧ (st = 500 ∨ st = 502 ∨ st = 504)%Z).
Proof.
  induction replies as [|q rest IH]; intros clock lastState sent; simpl.
  - destruct (clock - started <? RouteTs.MAX_MS)%Z; simpl.
    + right. eexists _, _. split; [reflexivity | auto].
    + destruct (after_poll_cases VNull lastState) as [[H _] | [e ->]];
        [discriminate | right; eexists _, _; split; [reflexivity | auto]].
  - destruct (clock - started <? RouteTs.MAX_MS)%Z; simpl.
    + destruct q as [qOk st qJson lat | m lat]; simpl;
        [|right; eexists _, _; split; [reflexivity | auto]].
      destruct (RouteTs.classify parse qOk qJson) as [r | resultUrl |] eqn:E; simpl.
      * destruct (classify_return _ _ _ _ E) as [e ->].
        right. eexists _, _. split; [reflexivity | auto].
      * destruct (after_poll_cases resultUrl (get (get qJson "data") "state"))
          as [[H ->] | [e ->]].
        -- left. eexists. split; [exact H | reflexivity].
        -- right. eexists _, _. split; [reflexivity | auto].
      * apply IH.
    + destruct (after_poll_cases VNull lastState) as [[H _] | [e ->]];
        [discriminate | right; eexists _, _; split; [reflexivity | auto]].
Qed.

(** X1: the outgoing calls of one request to the generate route are none
    at all; or, for a model id that starts with seedream, one createTask
    with the payload built from the body and the resolved reference,
    followed by at most 90 recordInfo fetches, all for the task id that
    createTask returned, which is set; or, for any other model id, the
    fetch of the reference image alone, or that fetch followed by one
    generateContent call carrying the image as it was loaded, with an
    image mime type, and the fixed instruction text before the prompt. No
    request reaches both providers, creates two tasks or fetches the
    reference twice. *)
Theorem POST_calls (JSON_parse : string → option Val) (JSON_stringify : Val → string)
    (net : Net) (body : PostBody) :
  snd (RouteTs.POST JSON_parse JSON_stringify net body) = []
  ∨ (∃ ref taskId n,
       RouteTs.getReferenceUrl net (pb_productId body) (pb_customUrl body) = Ok ref
       ∧ startsWith "seedream" (pb_modelId body) = true
       ∧ n <= 90
       ∧ snd (RouteTs.POST JSON_parse JSON_stringify net body)
         = CreateTask (RouteTs.seedream_payload body ref)
             :: replicate n (RecordInfo taskId)
       ∧ (0 < n → ∃ st createJson lat rest,
            kie net = Replied true st createJson lat :: rest
            ∧ taskId = get (get createJson "data") "taskId"
            ∧ truthy taskId = true))
  ∨ (∃ ref,
       RouteTs.getReferenceUrl net (pb_productId body) (pb_customUrl body) = Ok ref
       ∧ startsWith "seedream" (pb_modelId body) = false
       ∧ (snd (RouteTs.POST JSON_parse JSON_stringify net body) = [FetchImage ref]
          ∨ ∃ mime base64,
              image net = Ok (mime, base64)
              ∧ startsWith "image/" mime = true
              ∧ snd (RouteTs.POST JSON_parse JSON_stringify net body)
                = [FetchImage ref;
                   GenerateContent mime base64 (RouteTs.gemini_text (pb_prompt body))])).
Proof.
  unfold RouteTs.POST.
  destruct (negb _ || negb _); [left; reflexivity|].
  destruct (RouteTs.getReferenceUrl _ _ _) as [ref|m]; [|left; reflexivity].
  destruct (startsWith "seedream" (pb_modelId body)) eqn:Hm.
  - unfold RouteTs.seedream_branch.
    destruct (negb (nonempty _)); [left; reflexivity|].
    right; left. exists ref.
    destruct (kie net) as [|[cOk st createJson lat | m lat] rest] eqn:Hk;
      try (exists VUndef, 0; repeat (split; [first [reflexivity | lia]|]); lia).
    destruct cOk; simpl;
      [|exists VUndef, 0; repeat (split; [first [reflexivity | lia]|]); lia].
    destruct (negb (is_200 _));
      [exists VUndef, 0; repeat (split; [first [reflexivity | lia]|]); lia|].
    destruct (truthy (get (get createJson "data") "taskId")) eqn:Ht; simpl;
      [|exists VUndef, 0; repeat (split; [first [reflexivity | lia]|]); lia].
    destruct (poll_fetches JSON_parse (cancelled net) (now net + Z.of_N lat)
                (get (get createJson "data") "taskId") rest 90
                (now net + Z.of_N lat) (VStr "waiting")
                [CreateTask (RouteTs.seedream_payload body ref)]) as (n & Hn & Heq).
    { unfold RouteTs.MAX_MS, RouteTs.INTERVAL_MS. lia. }
    exists (get (get createJson "data") "taskId"), n.
    split; [reflexivity|]. split; [reflexivity|]. split; [exact Hn|].
    split; [exact Heq|].
    intros _. exists st, createJson, lat, rest. auto.
  - unfold RouteTs.gemini_branch.
    destruct (negb (nonempty _)); [left; reflexivity|].
    right; right. exists ref. split; [reflexivity|]. split; [reflexivity|].
    destruct (image net) as [[mime base64]|m]; [|left; reflexivity].
    destruct (startsWith "image/" mime) eqn:Hi; simpl; [|left; reflexivity].
    right. exists mime, base64. split; [reflexivity|]. split; [exact Hi|].
    destruct (gemini net); reflexivity.
Qed.

Lemma str_or_nonempty s d : nonempty d = true → nonempty (str_or s d) = true.
Proof.
  intros Hd. unfold str_or. destruct s as [t|]; [|exact Hd].
  destruct (nonempty t) eqn:E; [exact E | exact Hd].
Qed.

Lemma payload_ok body ref :
  nonempty (pb_prompt body) = true → nonempty ref = true →
  call_ok (CreateTask (RouteTs.seedream_payload body ref)) = true.
Proof.
  intros Hp Hr. simpl. rewrite Hp, Hr. simpl.
  rewrite !str_or_nonempty by reflexivity. simpl.
  destruct (pb_options body ≫= max_images) as [n|]; [|reflexivity].
  destruct (n =? 0)%Z eqn:E; [reflexivity | rewrite E; reflexivity].
Qed.

Lemma getReferenceUrl_nonempty net productId customUrl u :
  RouteTs.getReferenceUrl net productId customUrl = Ok u → nonempty u = true.
Proof.
  unfold RouteTs.getReferenceUrl.
  destruct (nonempty (default "" customUrl)) eqn:E; [intros [= <-]; exact E|].
  destruct (negb _); [discriminate|].
  destruct (db net _) as [m|row]; [discriminate|].
  destruct (nonempty (default "" row)) eqn:E'; [intros [= <-]; exact E' | discriminate].
Qed.

(** X2: nothing unset is ever sent by the generate route: a task is
    created only with a prompt, exactly one reference URL, a size, a
    resolution and a number of images that are all set (the defaults
    square, 1K and 1 standing in for what the body leaves out); a status
    is asked only for a task id that is set; the reference is fetched from
    a URL that is set and passed on to Gemini with a mime type that starts
    with image/. *)
Theorem POST_calls_ok (JSON_parse : string → option Val) (JSON_stringify : Val → string)
    (net : Net) (body : PostBody) :
  Forall (fun o => call_ok o = true) (snd (RouteTs.POST JSON_parse JSON_stringify net body)).
Proof.
  unfold RouteTs.POST.
  destruct (nonempty (pb_prompt body)) eqn:Hp; simpl; [|constructor].
  destruct (negb _); [constructor|].
  destruct (RouteTs.getReferenceUrl _ _ _) as [ref|m] eqn:Hr; [|constructor].
  apply getReferenceUrl_nonempty in Hr.
  destruct (startsWith "seedream" (pb_modelId body)).
  - unfold RouteTs.seedream_branch.
    destruct (negb (nonempty _)); [constructor|].
    pose proof (payload_ok body ref Hp Hr) as Hpay.
    destruct (kie net) as [|[cOk st createJson lat | m lat] rest];
      try (constructor; [exact Hpay | constructor]).
    destruct (negb cOk || _); [constructor; [exact Hpay | constructor]|].
    destruct (truthy (get (get createJson "data") "taskId")) eqn:Ht; simpl;
      [|constructor; [exact Hpay | constructor]].
    destruct (poll_fetches JSON_parse (cancelled net) (now net + Z.of_N lat)
                (get (get createJson "data") "taskId") rest 90
                (now net + Z.of_N lat) (VStr "waiting")
                [CreateTask (RouteTs.seedream_payload body ref)]) as (n & _ & ->).
    { unfold RouteTs.MAX_MS, RouteTs.INTERVAL_MS. lia. }
    constructor; [exact Hpay|].
    apply Forall_forall. intros o Ho. apply elem_of_replicate in Ho as [-> _].
    exact Ht.
  - unfold RouteTs.gemini_branch.
    destruct (negb (nonempty _)); [constructor|].
    destruct (image net) as [[mime base64]|m]; [|constructor; [exact Hr | constructor]].
    destruct (startsWith "image/" mime) eqn:Hi; simpl;
      [|constructor; [exact Hr | constructor]].
    destruct (gemini net); simpl;
      (constructor; [exact Hr | constructor; [exact Hi | constructor]]).
Qed.




Lemma respond_gemini_cases stringify nbOk nbStatus nbJson :
  (∃ v, truthy v = true
        ∧ RouteTs.respond_gemini stringify nbOk nbStatus nbJson
          = {| r_status := 200; r_body := BImage v |})
  ∨ (∃ st e dbg, RouteTs.respond_gemini stringify nbOk nbStatus nbJson
                 = {| r_status := st; r_body := BError e dbg |}).
Proof.
  unfold RouteTs.respond_gemini.
  destruct (negb nbOk); [right; eexists _, _, _; reflexivity|].
  destruct (RouteTs.extractGeminiImage stringify nbJson) as [out|m];
    [|right; eexists _, _, _; reflexivity].
  destruct (truthy (dataUrl out)) eqn:E1; [left; eexists; split; [exact E1 | reflexivity]|].
  destruct (truthy (url out)) eqn:E2; [left; eexists; split; [exact E2 | reflexivity]|].
  right; eexists _, _, _; reflexivity.
Qed.

(** X4: the answer of the generate route is either status 200 with an
    imageDataUrl that is truthy, or an error body; for a model id that
    starts with seedream an error body has no debug field and its status
    is 400, 500, 502 or 504. *)
Theorem POST_response (JSON_parse : string → option Val) (JSON_stringify : Val → string)
    (net : Net) (body : PostBody) :
  (∃ v, truthy v = true
        ∧ fst (RouteTs.POST JSON_parse JSON_stringify net body)
          = {| r_status := 200; r_body := BImage v |})
  ∨ (∃ st e dbg,
       fst (RouteTs.POST JSON_parse JSON_stringify net body)
       = {| r_status := st; r_body := BError e dbg |}
       ∧ (startsWith "seedream" (pb_modelId body) = true →
          dbg = None ∧ (st = 400 ∨ st = 500 ∨ st = 502 ∨ st = 504)%Z)).
Proof.
  unfold RouteTs.POST.
  destruct (negb _ || negb _);
    [right; eexists _, _, _; split; [reflexivity | intros _; split; auto]|].
  destruct (RouteTs.getReferenceUrl _ _ _) as [ref|m];
    [|right; eexists _, _, _; split; [reflexivity | intros _; split; auto]].
  destruct (startsWith "seedream" (pb_modelId body)).
  - unfold RouteTs.seedream_branch.
    destruct (negb (nonempty _));
      [right; eexists _, _, _; split; [reflexivity | intros _; split; auto]|].
    destruct (kie net) as [|[cOk st createJson lat | m lat] rest];
      try (right; eexists _, _, _; split; [reflexivity | intros _; split; auto]).
    destruct (negb cOk || _);
      [right; eexists _, _, _; split; [reflexivity | intros _; split; auto]|].
    destruct (negb (truthy _));
      [right; eexists _, _, _; split; [reflexivity | intros _; split; auto]|].
    destruct (poll_response JSON_parse (cancelled net) (now net + Z.of_N lat)
                (get (get createJson "data") "taskId") rest (now net + Z.of_N lat)
                (VStr "waiting") [CreateTask (RouteTs.seedream_payload body ref)])
      as [(v & Hv & ->) | (s & e & -> & Hs)].
    + left. exists v. auto.
    + right. exists s, e, None. split; [reflexivity|]. intros _. split; [reflexivity|].
      tauto.
  - unfold RouteTs.gemini_branch.
    destruct (negb (nonempty _));
      [right; eexists _, _, _; split; [reflexivity | discriminate]|].
    destruct (image net) as [[mime base64]|m];
      [|right; eexists _, _, _; split; [reflexivity | discriminate]].
    destruct (negb (startsWith "image/" mime));
      [right; eexists _, _, _; split; [reflexivity | discriminate]|].
    destruct (gemini net) as [nbOk nbStatus nbJson lat | m lat];
      [|right; eexists _, _, _; split; [reflexivity | discriminate]].
    simpl.
    destruct (respond_gemini_cases JSON_stringify nbOk nbStatus nbJson)
      as [(v & Hv & ->) | (s & e & dbg & ->)].
    + left. exists v. auto.
    + right. exists s, e, dbg. split; [reflexivity | discriminate].
Qed.

(** An image that is found comes without a debug object. *)
Lemma scan_inline_debug ps out : scan_inline ps = Some out → x_debug out = None.
Proof.
  induction ps as [|p ps IH]; simpl; [discriminate|].
  destruct (truthy (getInlineData p)); [intros [= <-]; reflexivity | exact IH].
Qed.

Lemma scan_file_debug ps out : scan_file ps = Some out → x_debug out = None.
Proof.
  induction ps as [|p ps IH]; simpl; [discriminate|].
  destruct (truthy (getFileUri p)); [intros [= <-]; reflexivity | exact IH].
Qed.

Lemma scan_media_items_debug media out :
  scan_media_items media = Ok (Some out) → x_debug out = None.
Proof.
  induction media as [|m ms IH]; simpl; [discriminate|].
  assert (Hby : (if truthy (get m "url") then Ok (Some (found_url (get m "url")))
                 else scan_media_items ms) = Ok (Some out) → x_debug out = None).
  { destruct (truthy (get m "url")); [intros [= <-]; reflexivity | exact IH]. }
  destruct (truthy (get m "data")); [|exact Hby].
  destruct (get m "mimeType") as [| | | |t| |]; try exact Hby; try discriminate.
  destruct (startsWith "image/" t); [intros [= <-]; reflexivity | exact Hby].
Qed.

Lemma scan_media_debug ps out : scan_media ps = Ok (Some out) → x_debug out = None.
Proof.
  induction ps as [|p ps IH]; simpl; [discriminate|].
  destruct (get p "media") as [| | | | |media|]; try exact IH.
  destruct (scan_media_items media) as [[o|]|m] eqn:E; [|exact IH|discriminate].
  intros [= <-]. exact (scan_media_items_debug _ _ E).
Qed.

Lemma scan_data_uri_debug ps out : scan_data_uri ps = Some out → x_debug out = None.
Proof.
  induction ps as [|p ps IH]; simpl; [discriminate|].
  destruct (truthy (getDataUri p) && _); [intros [= <-]; reflexivity | exact IH].
Qed.

(** The two routes read the same image, or fail the same way, from the
    same Gemini response. *)
Lemma extract_variants stringify json :
  match RouteTs.extractGeminiImage stringify json,
        RouteVariant.extractGeminiImage stringify json with
  | Ok a, Ok b => dataUrl a = dataUrl b ∧ url a = url b ∧ x_debug b = None
  | Throw m, Throw m' => m = m'
  | _, _ => False
  end.
Proof.
  unfold RouteTs.extractGeminiImage, RouteVariant.extractGeminiImage.
  destruct (js_or (get json "candidates") (VArr [])) as [| | | | | [|c0 cs] |];
    try (repeat split; reflexivity).
  destruct (iterable_parts _) as [ps|m]; simpl; [|reflexivity].
  destruct (scan_inline ps) eqn:E1;
    [repeat split; exact (scan_inline_debug _ _ E1)|].
  destruct (scan_file ps) eqn:E2;
    [repeat split; exact (scan_file_debug _ _ E2)|].
  destruct (scan_media ps) as [[out|]|m] eqn:E3; simpl;
    [repeat split; exact (scan_media_debug _ _ E3) | | reflexivity].
  destruct (scan_data_uri ps) eqn:E4;
    [repeat split; exact (scan_data_uri_debug _ _ E4)|].
  destruct (truthy (any_text ps)); simpl; [|repeat split; reflexivity].
  destruct (any_text ps); simpl; first [reflexivity | repeat split; reflexivity].
Qed.

(** X5: in the same environment (same keys, same database, same replies
    of the providers and of the fetch of the reference) the route and its
    variant answer every request with the same status after the same
    number of calls; the answers are equal unless both are the 502 for a
    Gemini response without an image, where the variant says Gemini
    returned no image data with a null debug field; and the calls are
    equal except that the route fetches the reference image with a
    User-Agent and an Accept header and the variant with no header, and
    that the instruction text sent to Gemini differs. *)
Theorem routes_agree (JSON_parse : string → option Val) (JSON_stringify : Val → string)
    (net : Net) (body : PostBody) :
  r_status (fst (RouteTs.POST JSON_parse JSON_stringify net body))
  = r_status (fst (RouteVariant.POST JSON_parse JSON_stringify net body))
  ∧ length (snd (RouteTs.POST JSON_parse JSON_stringify net body))
    = length (snd (RouteVariant.POST JSON_parse JSON_stringify net body))
  ∧ (fst (RouteTs.POST JSON_parse JSON_stringify net body)
     = fst (RouteVariant.POST JSON_parse JSON_stringify net body)
     ∨ ∃ e dbg,
         fst (RouteTs.POST JSON_parse JSON_stringify net body)
         = {| r_status := 502; r_body := BError e dbg |}
         ∧ fst (RouteVariant.POST JSON_parse JSON_stringify net body)
           = {| r_status := 502;
                r_body := BError (VStr "Gemini returned no image data") (Some VNull) |})
  ∧ (snd (RouteTs.POST JSON_parse JSON_stringify net body)
     = snd (RouteVariant.POST JSON_parse JSON_stringify net body)
     ∨ (∃ ref,
          snd (RouteTs.POST JSON_parse JSON_stringify net body)
          = [Fetch ref
               [("User-Agent", "Outlight/1.0 (+image-fetch)");
                ("Accept", "image/avif,image/webp,image/apng,image/*,*/*;q=0.8")]]
          ∧ snd (RouteVariant.POST JSON_parse JSON_stringify net body) = [Fetch ref []])
     ∨ ∃ ref mime base64,
         snd (RouteTs.POST JSON_parse JSON_stringify net body)
         = [Fetch ref
              [("User-Agent", "Outlight/1.0 (+image-fetch)");
               ("Accept", "image/avif,image/webp,image/apng,image/*,*/*;q=0.8")];
            GenerateContent mime base64 (RouteTs.gemini_text (pb_prompt body))]
         ∧ snd (RouteVariant.POST JSON_parse JSON_stringify net body)
           = [Fetch ref [];
              GenerateContent mime base64 (RouteVariant.gemini_text (pb_prompt body))]).
Proof.
  unfold RouteTs.POST, RouteVariant.POST.
  destruct (negb _ || negb _); [simpl; auto|].
  change (RouteVariant.getReferenceUrl net (pb_productId body) (pb_customUrl body))
    with (RouteTs.getReferenceUrl net (pb_productId body) (pb_customUrl body)).
  destruct (RouteTs.getReferenceUrl _ _ _) as [ref|m]; [|simpl; auto].
  destruct (startsWith "seedream" (pb_modelId body)).
  { rewrite seedream_branch_same. auto. }
  unfold RouteTs.gemini_branch, RouteVariant.gemini_branch.
  destruct (negb (nonempty _)); [simpl; auto|].
  destruct (image net) as [[mime base64]|m].
  2:{ simpl. split; [reflexivity|]. split; [reflexivity|]. split; [left; reflexivity|].
      right. left. exists ref. auto. }
  destruct (negb (startsWith "image/" mime)).
  { simpl. split; [reflexivity|]. split; [reflexivity|]. split; [left; reflexivity|].
    right. left. exists ref. auto. }
  destruct (gemini net) as [nbOk nbStatus nbJson lat | m lat]; simpl.
  2:{ split; [reflexivity|]. split; [reflexivity|]. split; [left; reflexivity|].
      right. right. exists ref, mime, base64. auto. }
  split; [|split; [reflexivity|split; [|right; right; exists ref, mime, base64; auto]]].
  - unfold RouteTs.respond_gemini, RouteVariant.respond_gemini.
    destruct (negb nbOk); [reflexivity|].
    pose proof (extract_variants JSON_stringify nbJson) as H.
    destruct (RouteTs.extractGeminiImage JSON_stringify nbJson) as [a|m],
             (RouteVariant.extractGeminiImage JSON_stringify nbJson) as [b|m'];
      try contradiction.
    + destruct H as (<- & <- & Hd).
      destruct (truthy (dataUrl a)); [reflexivity|].
      destruct (truthy (url a)); reflexivity.
    + subst m'. reflexivity.
  - unfold RouteTs.respond_gemini, RouteVariant.respond_gemini.
    destruct (negb nbOk); [left; reflexivity|].
    pose proof (extract_variants JSON_stringify nbJson) as H.
    destruct (RouteTs.extractGeminiImage JSON_stringify nbJson) as [a|m],
             (RouteVariant.extractGeminiImage JSON_stringify nbJson) as [b|m'];
      try contradiction.
    + destruct H as (<- & <- & Hd).
      destruct (truthy (dataUrl a)); [left; reflexivity|].
      destruct (truthy (url a)); [left; reflexivity|].
      right. eexists _, _. split; [reflexivity|].
      rewrite Hd. reflexivity.
    + subst m'. left; reflexivity.
Qed.

(* ===================================================================== *)
(** ** Loading the reference image *)
(* ===================================================================== *)

Lemma guess_mime_cases url :
  guess_mime url = "image/png" ∨ guess_mime url = "image/jpeg"
  ∨ guess_mime url = "image/webp".
Proof.
  unfold guess_mime. destruct (has_ext "png" url); [auto|].
  destruct (has_ext "jpg" url || has_ext "jpeg" url); [auto|].
  destruct (has_ext "webp" url); auto.
Qed.

Lemma fetched_mime url res mime base64 :
  fetchImageAsBase64 url res = Ok (mime, base64) → startsWith "image/" mime = true.
Proof.
  destruct res as [ok status statusText text contentType bytes | m]; simpl;
    [|discriminate].
  destruct (negb ok); [discriminate|].
  destruct bytes as [b|m]; simpl; [|discriminate].
  destruct (startsWith "image/" (str_or contentType "image/png")) eqn:E.
  - intros [= <- _]. exact E.
  - intros [= <- _]. destruct (guess_mime_cases url) as [-> | [-> | ->]]; reflexivity.
Qed.

(** X6: when the Gemini key is set and fetchImageAsBase64 returns for
    the reference, the mime type it returns starts with image/, so the
    route never answers that the reference is not an image: the image is
    passed on to Gemini. The response was an HTTP success; the mime type
    is the content-type header when that starts with image/ (image/png
    standing in for a missing or empty header), and otherwise the type
    guessed from the extension in the URL: png, jpg or jpeg, webp, up to
    case, before a question mark or the end, and image/png when none is
    found. *)
Theorem loaded_reference_is_sent (JSON_stringify : Val → string) (net : Net)
    (body : PostBody) (referenceUrl : string) (res : ImageFetch)
    (mime base64 : string) :
  nonempty (default "" (NB_API_KEY net)) = true →
  image net = fetchImageAsBase64 referenceUrl res →
  fetchImageAsBase64 referenceUrl res = Ok (mime, base64) →
  startsWith "image/" mime = true
  ∧ snd (RouteTs.gemini_branch JSON_stringify net body referenceUrl)
    = [FetchImage referenceUrl;
       GenerateContent mime base64 (RouteTs.gemini_text (pb_prompt body))]
  ∧ ∃ ok status statusText text contentType,
      res = ImageReplied ok status statusText text contentType (Ok base64)
      ∧ ok = true
      ∧ (startsWith "image/" (str_or contentType "image/png") = true →
         mime = str_or contentType "image/png")
      ∧ (startsWith "image/" (str_or contentType "image/png") = false →
         mime = guess_mime referenceUrl).
Proof.
  intros Hkey Himg Hres.
  pose proof (fetched_mime _ _ _ _ Hres) as Hm.
  split; [exact Hm|]. split.
  - unfold RouteTs.gemini_branch. rewrite Hkey, Himg, Hres, Hm. simpl.
    destruct (gemini net); reflexivity.
  - destruct res as [ok status statusText text contentType bytes | m]; simpl in Hres;
      [|discriminate].
    destruct ok; simpl in Hres; [|discriminate].
    destruct bytes as [b|m]; simpl in Hres; [|discriminate].
    exists true, status, statusText, text, contentType.
    destruct (startsWith "image/" (str_or contentType "image/png"));
      injection Hres as <- <-;
      (split; [reflexivity|]; split; [reflexivity|]; split;
       [intros H | intros H]; first [reflexivity | discriminate]).
Qed.

Lemma loaded_reference_is_sent_witness :
  snd (RouteTs.gemini_branch (fun _ => "") net_octet body_product
         "https://cdn.example/lamp.JPG?v=2")
  = [FetchImage "https://cdn.example/lamp.JPG?v=2";
     GenerateContent "image/jpeg" "QUJD" (RouteTs.gemini_text (pb_prompt body_product))].
Proof.
  apply (loaded_reference_is_sent (fun _ => "") net_octet body_product
           "https://cdn.example/lamp.JPG?v=2"
           (ImageReplied true 200 "OK" None (Some "application/octet-stream") (Ok "QUJD"))
           "image/jpeg" "QUJD" eq_refl eq_refl eq_refl).
Defined.

(* ===================================================================== *)
(** ** Progress and requests in flight *)
(* ===================================================================== *)

Lemma reachable_ok es : fresh_uuids initial es = true → app_ok (run_events initial es).
Proof. apply run_events_ok, initial_ok. Qed.

(** The pool of a registered run. *)
Lemma pool_of_run s r :
  app_ok s → r ∈ runs s →
  ∃ k p, pools s !! k = Some p ∧ run_id (p_run p) = run_id r
         ∧ pool_ok p ∧ linked r p.
Proof.
  intros (_ & _ & Hreg & Hpools & Hlink & _) Hr.
  pose proof (Hreg r Hr) as Hin. unfold pool_ids in Hin.
  apply list_elem_of_fmap in Hin as (p & Hid & Hp).
  apply list_elem_of_lookup in Hp as [k Hk].
  exists k, p. split; [exact Hk|]. split; [symmetry; exact Hid|].
  split; [exact (Hpools k p Hk)|]. exact (Hlink r k p Hr Hk Hid).
Qed.

Lemma log_images_length lg : length (log_images lg) <= length lg.
Proof.
  induction lg as [|[i o] lg IH]; simpl; [lia|].
  destruct o; simpl; lia.
Qed.

Lemma awaiting_length p : length (awaiting p) <= length (workers p).
Proof.
  unfold awaiting. induction (workers p) as [|x ws IH]; simpl; [lia|].
  rewrite length_app. destruct x; simpl; lia.
Qed.

Lemma parallelism_le sp : parallelism sp <= 3.
Proof. unfold parallelism. lia. Qed.

Lemma pool_ok_count p :
  pool_ok p →
  length (p_log p) + length (awaiting p) + length (p_dropped p) = cursor p.
Proof.
  intros (Hperm & _). apply Permutation_length in Hperm.
  rewrite !length_app, length_seq in Hperm. unfold log_indices in Hperm.
  rewrite length_fmap in Hperm. lia.
Qed.

(** X7: in every state the page reaches with fresh run ids, a
    registered run has a pool started for it; its progress total is the
    number of its prompts and is at least 1; the prompts taken from the
    queue are exactly those counted done, in flight or dropped by an
    exception; no more prompts are taken than there are; the run has no
    more images than prompts done; and at most 3 requests are in
    flight. *)
Theorem progress_accounts es i r :
  fresh_uuids initial es = true →
  runs (run_events initial es) !! i = Some r →
  ∃ k p,
    pools (run_events initial es) !! k = Some p
    ∧ run_id (p_run p) = run_id r
    ∧ total (progress r) = length (prompts r)
    ∧ 1 <= total (progress r)
    ∧ done (progress r) + length (awaiting p) + length (p_dropped p) = cursor p
    ∧ cursor p <= total (progress r)
    ∧ length (images r) <= done (progress r)
    ∧ length (awaiting p) <= 3.
Proof.
  intros Hfresh Hr.
  pose proof (reachable_ok es Hfresh) as Hok.
  apply list_elem_of_lookup_2 in Hr.
  destruct (pool_of_run _ r Hok Hr) as (k & p & Hk & Hid & Hp & Hl).
  exists k, p. split; [exact Hk|]. split; [exact Hid|].
  pose proof (pool_ok_count p Hp) as Hc.
  destruct Hp as (_ & Hcur & _ & Hw & Hone).
  destruct Hl as (Hpr & _ & Htot & Hdone & Himg & _).
  unfold p_total in *. rewrite <- Hpr in *.
  split; [lia|]. split; [lia|]. split; [lia|]. split; [lia|].
  split; [rewrite Himg, Hdone; apply log_images_length|].
  pose proof (awaiting_length p). pose proof (parallelism_le (speed (p_run p))). lia.
Qed.

Lemma progress_accounts_witness :
  fresh_uuids initial trace_broken = true
  ∧ ∃ r, runs (run_events initial trace_broken) !! 0 = Some r
         ∧ total (progress r) = length (prompts r)
         ∧ length (images r) <= done (progress r).
Proof.
  assert (Hf : fresh_uuids initial trace_broken = true) by (vm_compute; reflexivity).
  split; [exact Hf|].
  eexists. split; [vm_compute; reflexivity|].
  destruct (progress_accounts trace_broken 0 _ Hf ltac:(vm_compute; reflexivity))
    as (k & p & _ & _ & H1 & _ & _ & _ & H2 & _).
  split; [exact H1 | exact H2].
Defined.

(** X8: in every state the page reaches, whatever the events, a pool
    has between 1 and 3 workers and no more requests in flight than
    workers; no prompt is requested twice: the indices handed on, in
    flight and dropped are pairwise distinct and are exactly the indices
    below the cursor, which never passes the number of prompts. *)
Theorem requests_in_flight es k p :
  pools (run_events initial es) !! k = Some p →
  1 <= length (workers p) <= 3
  ∧ length (awaiting p) <= length (workers p)
  ∧ NoDup (log_indices p ++ awaiting p ++ p_dropped p)
  ∧ (∀ idx, idx ∈ log_indices p ++ awaiting p ++ p_dropped p ↔ idx < cursor p)
  ∧ cursor p <= length (prompts (p_run p)).
Proof.
  intros Hk.
  assert (Hp : pool_ok p).
  { apply (pools_ok_reachable es initial) with (k := k); [|exact Hk].
    intros k0 p0 H0. simpl in H0. rewrite lookup_nil in H0. discriminate. }
  pose proof (awaiting_length p) as Ha.
  destruct Hp as (Hperm & Hcur & _ & Hw & _).
  pose proof (parallelism_pos (speed (p_run p))).
  pose proof (parallelism_le (speed (p_run p))).
  split; [lia|]. split; [exact Ha|].
  split; [rewrite Hperm; apply NoDup_seq|].
  split; [|exact Hcur].
  intros idx. rewrite Hperm, elem_of_seq. lia.
Qed.

Lemma requests_in_flight_witness :
  ∃ p, pools (run_events initial trace_broken) !! 0 = Some p
       ∧ NoDup (log_indices p ++ awaiting p ++ p_dropped p).
Proof.
  eexists. split; [vm_compute; reflexivity|].
  apply (requests_in_flight trace_broken 0 _ ltac:(vm_compute; reflexivity)).
Defined.

(* ===================================================================== *)
(** ** A running run has a request in flight *)
(* ===================================================================== *)

Lemma all_exited_awaiting_false p : all_exited p = false → awaiting p ≠ [].
Proof.
  unfold all_exited, awaiting. induction (workers p) as [|x ws IH]; simpl; [discriminate|].
  destruct x as [idx|]; [intros _; discriminate|].
  rewrite bool_decide_eq_true_2 by reflexivity. simpl. exact IH.
Qed.

Lemma pool_ids_lookup s k p : pools s !! k = Some p → pool_ids s !! k = Some (run_id (p_run p)).
Proof. intros H. unfold pool_ids. rewrite list_lookup_fmap, H. reflexivity. Qed.

Lemma deliver_in_flight s k w rep imgId :
  app_ok s → running_in_flight s → running_in_flight (deliver k w rep imgId s).
Proof.
  intros Hok Hinv.
  destruct (pools s !! k) as [p|] eqn:Hk;
    [|unfold deliver; rewrite Hk; exact Hinv].
  destruct (workers p !! w) as [[idx|]|] eqn:Hw;
    try (unfold deliver; rewrite Hk, Hw; exact Hinv).
  intros r' k2 p2 Hr' Hk2 Hid Hst.
  rewrite (deliver_runs s k w p idx rep imgId Hk Hw) in Hr'.
  destruct (deliver_pools s k w p idx rep imgId Hk Hw) as (Hpools & _).
  rewrite Hpools in Hk2.
  apply elem_of_updateRun in Hr' as (r & Hr & ->).
  destruct (decide (k2 = k)) as [->|Hne].
  - rewrite list_lookup_insert_eq in Hk2 by (apply lookup_lt_Some in Hk; exact Hk).
    injection Hk2 as <-.
    destruct (all_exited (resumed p w idx rep imgId)) eqn:E; [|reflexivity].
    exfalso. destruct (decide (run_id r = run_id (p_run p))) as [Heq|Hneq].
    + exact (finish_update_running _ Hst).
    + apply Hneq. rewrite Hid, resumed_run. reflexivity.
  - rewrite list_lookup_insert_ne in Hk2 by congruence.
    destruct (decide (run_id r = run_id (p_run p))) as [Heq|Hneq].
    + exfalso. destruct Hok as (Hnd & _).
      assert (run_id (p_run p2) = run_id (p_run p)) as Hsame.
      { rewrite <- Heq, <- Hid.
        destruct (all_exited _); [rewrite finish_update_id|];
          apply outcome_update_id. }
      apply Hne.
      apply (NoDup_lookup _ k2 k (run_id (p_run p)) Hnd).
      * rewrite <- Hsame. apply pool_ids_lookup, Hk2.
      * apply pool_ids_lookup, Hk.
    + exact (Hinv r k2 p2 Hr Hk2 Hid Hst).
Qed.

Lemma generate_in_flight ui uuid now s :
  app_ok s → uuid ∉ pool_ids s → running_in_flight s →
  running_in_flight (onGenerateNewRun ui uuid now s).
Proof.
  intros Hok Hfresh Hinv.
  destruct (submittable ui) eqn:Hsub;
    [|rewrite onGenerateNewRun_skip by exact Hsub; exact Hinv].
  rewrite onGenerateNewRun_eq by exact Hsub.
  intros r k p Hr Hk Hid Hst. simpl in Hr, Hk.
  assert (Hlen : 1 <= length (prompts (new_run ui uuid now s))).
  { unfold submittable in Hsub. apply andb_true_iff in Hsub as [_ Hn].
    apply negb_true_iff, bool_decide_eq_false in Hn. simpl. lia. }
  apply lookup_app_Some in Hk as [Hk | [_ Hk]].
  - apply elem_of_app in Hr as [Hr | Hr].
    + apply dropOldest_subset in Hr. exact (Hinv r k p Hr Hk Hid Hst).
    + apply list_elem_of_singleton in Hr. subst r. exfalso. apply Hfresh.
      simpl in Hid. rewrite Hid.
      apply list_elem_of_lookup. exists k. apply pool_ids_lookup, Hk.
  - apply list_lookup_singleton_Some in Hk as [_ <-].
    apply new_pool_ok, Hlen.
Qed.

Lemma step_in_flight s e :
  app_ok s → fresh_event s e = true → running_in_flight s →
  running_in_flight (step s e).
Proof.
  intros Hok Hfresh Hinv. destruct e as [ui uuid now | runId | runId | runId | runId idx
                                         | k w rep imgId]; simpl.
  - apply generate_in_flight; [exact Hok | | exact Hinv].
    simpl in Hfresh. apply bool_decide_eq_true in Hfresh. exact Hfresh.
  - intros r' k p Hr' Hk Hid Hst. simpl in Hr', Hk.
    apply elem_of_updateRun in Hr' as (r & Hr & ->).
    destruct (decide (run_id r = runId)); [discriminate|].
    exact (Hinv r k p Hr Hk Hid Hst).
  - intros r k p Hr Hk Hid Hst. simpl in Hr, Hk.
    apply list_elem_of_filter in Hr as [_ Hr]. exact (Hinv r k p Hr Hk Hid Hst).
  - exact Hinv.
  - intros r' k p Hr' Hk Hid Hst. simpl in Hr', Hk.
    unfold toggleSelect in Hr'.
    apply elem_of_updateRun in Hr' as (r & Hr & ->).
    destruct (decide (run_id r = runId)); exact (Hinv r k p Hr Hk Hid Hst).
  - apply deliver_in_flight; assumption.
Qed.

Lemma run_events_in_flight es : ∀ s,
  app_ok s → running_in_flight s → fresh_uuids s es = true →
  running_in_flight (run_events s es).
Proof.
  induction es as [|e es IH]; intros s Hok Hinv Hf; [exact Hinv|].
  simpl in Hf. apply andb_true_iff in Hf as [He Hes].
  simpl. apply IH; [apply step_ok | apply step_in_flight |]; assumption.
Qed.

(** X9: in every state the page reaches with fresh run ids, a
    registered run whose status is running has a request in flight, has
    lost no prompt to an exception, has seen only successful replies, and
    has fewer prompts done than its total. *)
Theorem running_run_awaits es i r :
  fresh_uuids initial es = true →
  runs (run_events initial es) !! i = Some r →
  status r = Running →
  ∃ k p,
    pools (run_events initial es) !! k = Some p
    ∧ run_id (p_run p) = run_id r
    ∧ awaiting p ≠ []
    ∧ p_dropped p = []
    ∧ all_success (p_log p)
    ∧ done (progress r) < total (progress r).
Proof.
  intros Hf Hr Hst.
  pose proof (reachable_ok es Hf) as Hok.
  assert (Hinv : running_in_flight (run_events initial es)).
  { apply run_events_in_flight; [apply initial_ok | | exact Hf].
    intros r0 k0 p0 H0. simpl in H0. apply elem_of_nil in H0. contradiction. }
  apply list_elem_of_lookup_2 in Hr.
  destruct (pool_of_run _ r Hok Hr) as (k & p & Hk & Hid & Hp & Hl).
  exists k, p. split; [exact Hk|]. split; [exact Hid|].
  pose proof (Hinv r k p Hr Hk (eq_sym Hid) Hst) as Hex.
  pose proof (all_exited_awaiting_false p Hex) as Haw.
  pose proof (pool_ok_count p Hp) as Hc.
  destruct Hp as (_ & Hcur & _).
  destruct Hl as (_ & _ & Htot & Hdone & _ & Hrun & _).
  destruct (Hrun (or_introl Hst)) as [Hd Hs].
  split; [exact Haw|]. split; [exact Hd|]. split; [exact Hs|].
  destruct (awaiting p) as [|a l]; [contradiction|]. simpl in Hc. lia.
Qed.

Lemma running_run_awaits_witness :
  fresh_uuids initial [EGenerate ui_abc "run-1" 1000] = true
  ∧ ∃ r, runs (run_events initial [EGenerate ui_abc "run-1" 1000]) !! 0 = Some r
         ∧ status r = Running
         ∧ done (progress r) < total (progress r).
Proof.
  assert (Hf : fresh_uuids initial [EGenerate ui_abc "run-1" 1000] = true)
    by (vm_compute; reflexivity).
  split; [exact Hf|].
  eexists. split; [vm_compute; reflexivity|]. split; [reflexivity|].
  destruct (running_run_awaits [EGenerate ui_abc "run-1" 1000] 0 _ Hf
              ltac:(vm_compute; reflexivity) eq_refl)
    as (k & p & _ & _ & _ & _ & _ & H).
  exact H.
Defined.

(* ===================================================================== *)
(** ** The names of the runs *)
(* ===================================================================== *)

Lemma ascending_app l1 l2 :
  ascending (l1 ++ l2) ↔
  ascending l1 ∧ ascending l2 ∧ ∀ x y, x ∈ l1 → y ∈ l2 → x < y.
Proof.
  induction l1 as [|a l1 IH]; simpl.
  - split; [intros H; split; [exact I | split; [exact H|]] | intros (_ & H & _); exact H].
    intros x y Hx. apply elem_of_nil in Hx. contradiction.
  - rewrite IH, Forall_app, !Forall_forall. split.
    + intros ((H1 & H2) & H3 & H4 & H5). split; [split; assumption|]. split; [exact H4|].
      intros x y Hx Hy. apply elem_of_cons in Hx as [->|Hx]; [apply H2, Hy | apply H5; assumption].
    + intros ((H1 & H3) & H4 & H5). split; [split; [exact H1|]|].
      * intros y Hy. apply H5; [left | exact Hy].
      * split; [exact H3|]. split; [exact H4|]. intros x y Hx Hy.
        apply H5; [right; exact Hx | exact Hy].
Qed.

Lemma ascending_sublist l1 l2 : l1 `sublist_of` l2 → ascending l2 → ascending l1.
Proof.
  induction 1 as [|x l1 l2 Hs IH | x l1 l2 Hs IH]; simpl.
  - exact id.
  - intros [Hx Hl]. split; [|exact (IH Hl)].
    rewrite Forall_forall in *. intros y Hy. apply Hx.
    apply (sublist_subseteq _ _ Hs), Hy.
  - intros [_ Hl]. exact (IH Hl).
Qed.

Lemma ascending_lookup l : ascending l →
  ∀ i j x y, i < j → l !! i = Some x → l !! j = Some y → x < y.
Proof.
  induction l as [|a l IH]; intros Hl i j x y Hij Hi Hj.
  - rewrite lookup_nil in Hi. discriminate.
  - destruct Hl as [Ha Hl]. destruct j as [|j]; [lia|]. simpl in Hj.
    destruct i as [|i].
    + injection Hi as <-. rewrite Forall_forall in Ha. apply Ha.
      apply list_elem_of_lookup_2 in Hj. exact Hj.
    + simpl in Hi. apply (IH Hl i j); [lia | exact Hi | exact Hj].
Qed.

Lemma runOrdinal_above rs r : r ∈ rs → name r < runOrdinal rs.
Proof.
  unfold runOrdinal. induction rs as [|a rs IH]; intros Hr.
  - apply elem_of_nil in Hr. contradiction.
  - rewrite fmap_cons. cbn [fold_right].
    apply elem_of_cons in Hr as [->|Hr]; [lia|].
    specialize (IH Hr). lia.
Qed.

Lemma step_names s e :
  ascending (name <$> runs s) → ascending (name <$> runs (step s e)).
Proof.
  intros Hs. destruct e as [ui uuid now | runId | runId | runId | runId idx
                            | k w rep imgId]; simpl.
  - destruct (submittable ui) eqn:Hsub;
      [|rewrite onGenerateNewRun_skip by exact Hsub; exact Hs].
    rewrite onGenerateNewRun_eq by exact Hsub. simpl.
    rewrite fmap_app. apply ascending_app. split.
    + apply (ascending_sublist _ (name <$> runs s)); [|exact Hs].
      apply fmap_sublist, dropOldest_sublist.
    + split; [simpl; split; [constructor | exact I]|].
      intros x y Hx Hy. simpl in Hy. apply list_elem_of_singleton in Hy. subst y.
      apply list_elem_of_fmap in Hx as (r & -> & Hr).
      apply runOrdinal_above, (dropOldest_subset _ _ _ Hr).
  - rewrite updateRun_fmap; [exact Hs | reflexivity].
  - apply (ascending_sublist _ (name <$> runs s)); [|exact Hs].
    apply fmap_sublist, sublist_filter.
  - exact Hs.
  - unfold toggleSelect. rewrite updateRun_fmap; [exact Hs | reflexivity].
  - destruct (pools s !! k) as [p|] eqn:Hk;
      [|unfold deliver; rewrite Hk; exact Hs].
    destruct (workers p !! w) as [[idx|]|] eqn:Hw;
      try (unfold deliver; rewrite Hk, Hw; exact Hs).
    rewrite (deliver_runs s k w p idx rep imgId Hk Hw).
    rewrite updateRun_fmap; [exact Hs|].
    intros r. destruct (all_exited _);
      [unfold finish_update; destruct (decide _)|];
      destruct rep as [[|] json | ename emessage]; reflexivity.
Qed.

Lemma run_events_names es : ∀ s,
  ascending (name <$> runs s) → ascending (name <$> runs (run_events s es)).
Proof.
  induction es as [|e es IH]; intros s Hs; [exact Hs|].
  simpl. apply IH, step_names, Hs.
Qed.

(** X10: in every state the page reaches, the numbers in the names
    Run #n of the registered runs increase strictly along the tabs: no two
    registered runs carry the same name. *)
Theorem run_names_ascend es i j ri rj :
  i < j →
  runs (run_events initial es) !! i = Some ri →
  runs (run_events initial es) !! j = Some rj →
  name ri < name rj.
Proof.
  intros Hij Hi Hj.
  assert (Hasc : ascending (name <$> runs (run_events initial es)))
    by (apply run_events_names; exact I).
  apply (ascending_lookup _ Hasc i j); [exact Hij | |];
    rewrite list_lookup_fmap; [rewrite Hi | rewrite Hj]; reflexivity.
Qed.

Lemma run_names_ascend_witness :
  ∃ ri rj, runs (run_events initial trace_renamed) !! 1 = Some ri
           ∧ runs (run_events initial trace_renamed) !! 2 = Some rj
           ∧ name ri < name rj.
Proof.
  eexists _, _. split; [vm_compute; reflexivity|]. split; [vm_compute; reflexivity|].
  apply (run_names_ascend trace_renamed 1 2 _ _ ltac:(lia)
           ltac:(vm_compute; reflexivity) ltac:(vm_compute; reflexivity)).
Defined.

(* ===================================================================== *)
(** ** Selection and abort signals *)
(* ===================================================================== *)

(** X11: toggleSelect applied twice with the same run id and index
    gives back the list of runs, the selection being read as a set; and
    applied once it changes, in the runs with that id, the membership of
    that index and of no other. *)
Theorem toggleSelect_twice runId idx rs :
  toggleSelect runId idx (toggleSelect runId idx rs) = rs
  ∧ ∀ r, r ∈ toggleSelect runId idx rs →
         run_id r = runId →
         ∃ r0, r0 ∈ rs ∧ (idx ∈ selectedIdx r ↔ idx ∉ selectedIdx r0)
               ∧ ∀ i, i ≠ idx → (i ∈ selectedIdx r ↔ i ∈ selectedIdx r0).
Proof.
  split.
  - unfold toggleSelect. rewrite updateRun_compose by reflexivity.
    apply updateRun_id. intros r _ _. destruct r as [? ? ? ? ? ? ? ? ? ? ? ? ? ? sel ? ? ?].
    unfold with_selectedIdx. simpl. f_equal.
    apply set_eq. intros i.
    destruct (decide (idx ∈ sel)) as [Hin|Hout].
    + destruct (decide (idx ∈ sel ∖ {[idx]})) as [H|H];
        [exfalso; apply elem_of_difference in H as [_ H]; apply H, elem_of_singleton;
         reflexivity|].
      rewrite elem_of_union, elem_of_difference, elem_of_singleton.
      destruct (decide (i = idx)) as [->|]; tauto.
    + destruct (decide (idx ∈ sel ∪ {[idx]})) as [H|H];
        [|exfalso; apply H, elem_of_union; right; apply elem_of_singleton; reflexivity].
      rewrite elem_of_difference, elem_of_union, elem_of_singleton.
      destruct (decide (i = idx)) as [->|]; tauto.
  - intros r Hr Hid. unfold toggleSelect in Hr.
    apply elem_of_updateRun in Hr as (r0 & Hr0 & ->).
    exists r0. split; [exact Hr0|].
    destruct (decide (run_id r0 = runId)) as [_|Hne]; [|contradiction].
    simpl. destruct (decide (idx ∈ selectedIdx r0)) as [Hin|Hout].
    + split.
      * rewrite elem_of_difference, elem_of_singleton. tauto.
      * intros i Hi. rewrite elem_of_difference, elem_of_singleton. tauto.
    + split.
      * rewrite elem_of_union, elem_of_singleton. tauto.
      * intros i Hi. rewrite elem_of_union, elem_of_singleton. tauto.
Qed.

Lemma abort_elem c h ab : c ∈ abort h ab ↔ c ∈ ab ∨ h = Some c.
Proof.
  destruct h as [h|]; simpl.
  - rewrite elem_of_union, elem_of_singleton. split.
    + intros [->|H]; auto.
    + intros [H|[= ->]]; auto.
  - split; [auto | intros [H|H]; [exact H | discriminate]].
Qed.

Lemma cancel_signals runId rs : ∀ ab c,
  c ∈ fold_left
        (fun ab r => if decide (run_id r = runId) then abort (controller r) ab else ab)
        rs ab
  ↔ c ∈ ab ∨ ∃ r, r ∈ rs ∧ run_id r = runId ∧ controller r = Some c.
Proof.
  induction rs as [|a rs IH]; intros ab c; simpl.
  - split; [auto | intros [H | (r & Hr & _)]; [exact H|]].
    apply elem_of_nil in Hr. contradiction.
  - rewrite IH. destruct (decide (run_id a = runId)) as [Ha|Ha].
    + rewrite abort_elem. split.
      * intros [[H|H] | (r & Hr & Hid & Hc)]; [auto | |].
        -- right. exists a. split; [left|]. auto.
        -- right. exists r. split; [right; exact Hr|]. auto.
      * intros [H | (r & Hr & Hid & Hc)]; [auto|].
        apply elem_of_cons in Hr as [->|Hr]; [auto|].
        right. exists r. auto.
    + split.
      * intros [H | (r & Hr & Hid & Hc)]; [auto|].
        right. exists r. split; [right; exact Hr|]. auto.
      * intros [H | (r & Hr & Hid & Hc)]; [auto|].
        apply elem_of_cons in Hr as [->|Hr]; [contradiction|].
        right. exists r. auto.
Qed.

Lemma dropOldest_signals rs ab c :
  c ∈ snd (dropOldest rs ab) ↔
  c ∈ ab ∨ (3 <= length rs
            ∧ ∃ oldest rest, sort_by_startedAt rs = oldest :: rest
                             ∧ controller oldest = Some c).
Proof.
  unfold dropOldest. destruct (decide (length rs < 3)) as [Hl|Hl]; simpl.
  - split; [auto | intros [H | [H _]]; [exact H | lia]].
  - destruct (sort_by_startedAt rs) as [|o rest] eqn:E; simpl.
    + split; [auto | intros [H | (_ & o & rest & H & _)]; [exact H | discriminate]].
    + rewrite abort_elem. split.
      * intros [H|H]; [auto|]. right. split; [lia|]. exists o, rest. auto.
      * intros [H | (_ & o' & rest' & H & Hc)]; [auto|].
        injection H as <- <-. auto.
Qed.

(** X12: no event of the page unsets an abort signal, and a signal
    newly set by an event is the signal of a run registered before it:
    either the event is cancelRun for the id of that run, or it is a
    submission that passes the guard while three runs are registered, and
    the run is one with the least startedAt. deleteRun, the selection
    events and the replies set no signal. *)
Theorem abort_sources s e :
  aborted s ⊆ aborted (step s e)
  ∧ ∀ c, c ∈ aborted (step s e) → c ∉ aborted s →
         ∃ r, r ∈ runs s ∧ controller r = Some c
              ∧ (e = ECancel (run_id r)
                 ∨ ∃ ui uuid now,
                     e = EGenerate ui uuid now
                     ∧ submittable ui = true
                     ∧ 3 <= length (runs s)
                     ∧ ∀ r', r' ∈ runs s → (startedAt r <= startedAt r')%Z).
Proof.
  destruct e as [ui uuid now | runId | runId | runId | runId idx | k w rep imgId];
    simpl.
  - destruct (submittable ui) eqn:Hsub.
    + rewrite onGenerateNewRun_eq by exact Hsub. simpl. split.
      * intros c Hc. apply dropOldest_signals. auto.
      * intros c Hc Hn. apply dropOldest_signals in Hc
          as [Hc | (Hlen & o & rest & Hsort & Hctl)]; [contradiction|].
        destruct (sort_head _ _ _ Hsort) as [Ho Hmin].
        exists o. split; [exact Ho|]. split; [exact Hctl|].
        right. exists ui, uuid, now. auto.
    + rewrite onGenerateNewRun_skip by exact Hsub.
      split; [reflexivity | intros c Hc Hn; contradiction].
  - split.
    + intros c Hc. apply cancel_signals. auto.
    + intros c Hc Hn. apply cancel_signals in Hc as [Hc | (r & Hr & Hid & Hctl)];
        [contradiction|].
      exists r. split; [exact Hr|]. split; [exact Hctl|]. left. rewrite Hid. reflexivity.
  - split; [reflexivity | intros c Hc Hn; contradiction].
  - split; [reflexivity | intros c Hc Hn; contradiction].
  - split; [reflexivity | intros c Hc Hn; contradiction].
  - assert (Hab : aborted (deliver k w rep imgId s) = aborted s).
    { destruct (pools s !! k) as [p|] eqn:Hk;
        [|unfold deliver; rewrite Hk; reflexivity].
      destruct (workers p !! w) as [[idx|]|] eqn:Hw;
        try (unfold deliver; rewrite Hk, Hw; reflexivity).
      apply (deliver_pools s k w p idx rep imgId Hk Hw). }
    rewrite Hab. split; [reflexivity | intros c Hc Hn; contradiction].
Qed.

(* ===================================================================== *)
(** ** The page as rendered: what its buttons can do *)
(* ===================================================================== *)

Lemma find_run_Some a rs r :
  List.find (fun r => String.eqb (run_id r) a) rs = Some r → r ∈ rs ∧ run_id r = a.
Proof.
  intros H. apply find_some in H as [Hin He].
  split; [apply list_elem_of_In, Hin | apply String.eqb_eq, He].
Qed.

Lemma find_run_registered a rs :
  a ∈ run_id <$> rs → ∃ r, List.find (fun r => String.eqb (run_id r) a) rs = Some r.
Proof.
  intros H. apply list_elem_of_fmap in H as (r & -> & Hr).
  destruct (List.find _ rs) as [r'|] eqn:E; [exists r'; reflexivity|].
  exfalso. apply list_elem_of_In in Hr.
  pose proof (find_none _ _ E r Hr) as Hn. simpl in Hn.
  rewrite String.eqb_refl in Hn. discriminate.
Qed.

Lemma activeRun_Some s r :
  activeRun s = Some r → r ∈ runs s ∧ activeRunId s = Some (run_id r).
Proof.
  unfold activeRun. destruct (activeRunId s) as [a|]; simpl; [|discriminate].
  intros H. apply find_run_Some in H as [Hr <-]. auto.
Qed.

(** With distinct ids, the run an update reaches is the active one. *)
Lemma active_is_the_run s r r0 :
  NoDup (run_id <$> runs s) → activeRun s = Some r → r0 ∈ runs s →
  run_id r0 = run_id r → r0 = r.
Proof.
  intros Hnd Ha Hr0 Hid. apply activeRun_Some in Ha as [Hr _].
  exact (NoDup_fmap_eq run_id (runs s) r0 r Hnd Hr0 Hr Hid).
Qed.

Lemma offered_fresh s e : offered s (Page e) = true → fresh_event s e = true.
Proof. destruct e; simpl; auto. Qed.

Lemma setActiveIdx_ok runId i s :
  app_ok s → app_ok (set_runs (setActiveIdx runId i (runs s)) s).
Proof.
  intros Hok. unfold set_runs, setActiveIdx.
  apply update_ok; [exact Hok | reflexivity | reflexivity |].
  intros r p H. exact H.
Qed.

Lemma act_ok s a : app_ok s → offered s a = true → app_ok (act s a).
Proof.
  intros Hok Ho. destruct a as [e | runId i]; simpl.
  - apply step_ok; [exact Hok | apply offered_fresh, Ho].
  - apply setActiveIdx_ok, Hok.
Qed.

Lemma outcome_view_ok p idx rep imgId r :
  run_view_ok r → run_view_ok (outcome_update p idx rep imgId r).
Proof.
  intros [Ha Hs]. destruct rep as [[|] json | ename emessage]; simpl;
    [|split; assumption|split; assumption].
  unfold run_view_ok. simpl. rewrite length_app. simpl. split.
  - intros _. destruct (decide (length (images r) + 1 = 1)) as [|Hne]; [lia|].
    assert (images r ≠ []) as Hi by (destruct (images r); [simpl in Hne; lia | discriminate]).
    specialize (Ha Hi). lia.
  - intros i Hi. specialize (Hs i Hi). lia.
Qed.

Lemma finish_view_ok r : run_view_ok r → run_view_ok (finish_update r).
Proof. unfold finish_update. destruct (decide _); intros H; exact H. Qed.

Lemma updateRun_view_ok runId f rs :
  (∀ r, r ∈ rs → run_id r = runId → run_view_ok r → run_view_ok (f r)) →
  (∀ r, r ∈ rs → run_view_ok r) →
  ∀ r, r ∈ updateRun runId f rs → run_view_ok r.
Proof.
  intros Hf Hrs r' Hr'. apply elem_of_updateRun in Hr' as (r & Hr & ->).
  destruct (decide (run_id r = runId)); [apply Hf|]; auto.
Qed.

Lemma updateRun_nil_inv runId f rs : updateRun runId f rs = [] ↔ rs = [].
Proof. unfold updateRun. destruct rs; simpl; split; congruence. Qed.

Lemma act_view_ok s a :
  app_ok s → view_ok s → offered s a = true → view_ok (act s a).
Proof.
  intros Hok (Hnone & Hact & Hruns) Ho.
  assert (Hnd : NoDup (run_id <$> runs s)) by apply Hok.
  assert (Hv : view_ok s) by (split; [|split]; assumption).
  destruct a as [[ui uuid now | runId | runId | runId | runId idx | k w rep imgId]
                 | runId i]; simpl in Ho; simpl.
  - (* Start *)
    destruct (submittable ui) eqn:Hsub;
      [|rewrite onGenerateNewRun_skip by exact Hsub; exact Hv].
    rewrite onGenerateNewRun_eq by exact Hsub. split; [discriminate|]. split.
    + intros a [= <-]. simpl. rewrite fmap_app, elem_of_app. right. simpl. left.
    + intros r Hr. simpl in Hr. apply elem_of_app in Hr as [Hr|Hr].
      * apply Hruns, (dropOldest_subset _ _ _ Hr).
      * apply list_elem_of_singleton in Hr. subst r. split; simpl.
        -- intros H. contradiction.
        -- intros i Hi. apply elem_of_empty in Hi. contradiction.
  - (* Cancel *)
    split; [intros H; simpl; apply updateRun_nil_inv, Hnone, H|]. split.
    + intros a Ha. simpl. rewrite updateRun_fmap by reflexivity. apply Hact, Ha.
    + simpl. apply updateRun_view_ok; [|exact Hruns]. intros r _ _ H. exact H.
  - (* Delete *)
    unfold deleteRun. simpl.
    set (next := filter (fun r => run_id r ≠ runId) (runs s)).
    destruct (decide (activeRunId s = Some runId)) as [Heq|Hne].
    + split; [|split].
      * destruct next; [reflexivity | discriminate].
      * intros a Ha. destruct next as [|x next']; [discriminate|].
        simpl in Ha. injection Ha as <-. simpl. left.
      * intros r Hr. apply list_elem_of_filter in Hr as [_ Hr]. apply Hruns, Hr.
    + split; [|split].
      * intros H. subst next. rewrite (Hnone H). reflexivity.
      * intros a Ha. simpl in Ha. specialize (Hact a Ha).
        apply list_elem_of_fmap in Hact as (r & -> & Hr).
        apply list_elem_of_fmap. exists r. split; [reflexivity|].
        apply list_elem_of_filter. split; [|exact Hr]. intros E. apply Hne.
        rewrite Ha, E. reflexivity.
      * intros r Hr. apply list_elem_of_filter in Hr as [_ Hr]. apply Hruns, Hr.
  - (* tab *)
    apply bool_decide_eq_true in Ho.
    split; [discriminate|]. split; [intros a [= <-]; exact Ho | exact Hruns].
  - (* checkbox *)
    destruct (activeRun s) as [r|] eqn:Ha; [|discriminate].
    apply andb_true_iff in Ho as [Ho Hidx]. apply andb_true_iff in Ho as [Hid Himg].
    apply String.eqb_eq in Hid. apply negb_true_iff, bool_decide_eq_false in Himg.
    pose proof (activeRun_Some s r Ha) as [Hr _].
    destruct (Hruns r Hr) as [Hai Hsel].
    assert (Hlt : idx < length (images r)).
    { apply orb_true_iff in Hidx as [H|H]; apply bool_decide_eq_true in H; [exact H|].
      subst idx. apply Hai. destruct (images r); [simpl in Himg; lia | discriminate]. }
    split; [intros H; simpl; apply updateRun_nil_inv, Hnone, H|]. split.
    + intros a Hact'. simpl. unfold toggleSelect.
      rewrite updateRun_fmap by reflexivity. apply Hact, Hact'.
    + simpl. unfold toggleSelect. apply updateRun_view_ok; [|exact Hruns].
      intros r0 Hr0 Hid0 [H1 H2].
      assert (r0 = r) as -> by (apply (active_is_the_run s); congruence).
      split; [exact H1|]. simpl. intros i Hi.
      destruct (decide (idx ∈ selectedIdx r)).
      * apply elem_of_difference in Hi as [Hi _]. apply H2, Hi.
      * apply elem_of_union in Hi as [Hi|Hi]; [apply H2, Hi|].
        apply elem_of_singleton in Hi. subst i. exact Hlt.
  - (* reply *)
    destruct (pools s !! k) as [p|] eqn:Hk;
      [|unfold deliver; rewrite Hk; exact Hv].
    destruct (workers p !! w) as [[idx|]|] eqn:Hw;
      try (unfold deliver; rewrite Hk, Hw; exact Hv).
    destruct (deliver_pools s k w p idx rep imgId Hk Hw) as (_ & _ & _ & Hactive).
    unfold view_ok. rewrite Hactive, (deliver_runs s k w p idx rep imgId Hk Hw).
    split; [intros H; apply updateRun_nil_inv, Hnone, H|]. split.
    + intros a Ha. rewrite updateRun_fmap; [apply Hact, Ha|].
      intros r. destruct (all_exited _); [rewrite finish_update_id|];
        apply outcome_update_id.
    + apply updateRun_view_ok; [|exact Hruns]. intros r _ _ H.
      destruct (all_exited _); [apply finish_view_ok|]; apply outcome_view_ok, H.
  - (* thumbnail *)
    destruct (activeRun s) as [r|] eqn:Ha; [|discriminate].
    apply andb_true_iff in Ho as [Hid Hlt].
    apply String.eqb_eq in Hid. apply bool_decide_eq_true in Hlt.
    split; [intros H; simpl; apply updateRun_nil_inv, Hnone, H|]. split.
    + intros a Hact'. simpl. unfold setActiveIdx.
      rewrite updateRun_fmap by reflexivity. apply Hact, Hact'.
    + simpl. unfold setActiveIdx. apply updateRun_view_ok; [|exact Hruns].
      intros r0 Hr0 Hid0 [H1 H2].
      assert (r0 = r) as -> by (apply (active_is_the_run s); congruence).
      split; [intros _; exact Hlt | exact H2].
Qed.

Lemma view_initial : view_ok initial.
Proof.
  split; [reflexivity|]. split; [discriminate|].
  intros r Hr. apply elem_of_nil in Hr. contradiction.
Qed.

Lemma acts_ok l : ∀ s,
  app_ok s → view_ok s → offered_all s l = true →
  app_ok (acts s l) ∧ view_ok (acts s l).
Proof.
  induction l as [|a l IH]; intros s Hok Hv Ho; [split; assumption|].
  simpl in Ho. apply andb_true_iff in Ho as [Ha Hl].
  simpl. apply IH; [apply act_ok | apply act_view_ok |]; assumption.
Qed.

Lemma offered_all_app l l' : ∀ s,
  offered_all s (l ++ l') = true →
  offered_all s l = true ∧ offered_all (acts s l) l' = true.
Proof.
  induction l as [|a l IH]; intros s H; [split; [reflexivity | exact H]|].
  simpl in H. apply andb_true_iff in H as [Ha Hl].
  destruct (IH _ Hl) as [H1 H2]. simpl. rewrite Ha, H1. auto.
Qed.

Lemma acts_app l l' s : acts s (l ++ l') = acts (acts s l) l'.
Proof. apply fold_left_app. Qed.

(** X13: after any sequence of updates that the rendered page offers
    (Start with a fresh id, a tab of a registered run, Cancel while the
    active run is running, Delete, the checkboxes and thumbnails of the
    images of the active run, replies at any time), there is an active
    run exactly when a run is registered; and for every registered run
    that has images, the image at activeIdx exists, and so does the image
    at every selected index: the viewer and zipRun on the selection never
    read a missing image. *)
Theorem rendered_page l :
  offered_all initial l = true →
  (runs (acts initial l) = [] ↔ activeRun (acts initial l) = None)
  ∧ ∀ r, r ∈ runs (acts initial l) →
         (images r ≠ [] → is_Some (images r !! activeIdx r))
         ∧ ∀ i, i ∈ selectedIdx r → is_Some (images r !! i).
Proof.
  intros Ho.
  destruct (acts_ok l initial initial_ok view_initial Ho) as [Hok (Hnone & Hact & Hruns)].
  split.
  - split.
    + intros H. unfold activeRun.
      destruct (activeRunId (acts initial l)) as [a|] eqn:E; [|reflexivity].
      specialize (Hact a eq_refl). rewrite H in Hact. apply elem_of_nil in Hact.
      contradiction.
    + intros H. unfold activeRun in H.
      destruct (activeRunId (acts initial l)) as [a|] eqn:E; [|apply Hnone; reflexivity].
      simpl in H. destruct (find_run_registered a _ (Hact a eq_refl)) as [r Hr].
      rewrite Hr in H. discriminate.
  - intros r Hr. destruct (Hruns r Hr) as [H1 H2]. split.
    + intros Hi. apply lookup_lt_is_Some, H1, Hi.
    + intros i Hi. apply lookup_lt_is_Some, H2, Hi.
Qed.

Lemma rendered_page_witness :
  runs (acts initial trace_viewed) = [] ↔ activeRun (acts initial trace_viewed) = None.
Proof.
  apply (rendered_page trace_viewed). vm_compute. reflexivity.
Defined.

(* ===================================================================== *)
(** ** A run that is done *)
(* ===================================================================== *)

Lemma step_pool_ids s e x : x ∈ pool_ids s → x ∈ pool_ids (step s e).
Proof.
  intros Hx. destruct e as [ui uuid now | runId | runId | runId | runId idx
                            | k w rep imgId]; simpl; try exact Hx.
  - destruct (submittable ui) eqn:Hsub;
      [|rewrite onGenerateNewRun_skip by exact Hsub; exact Hx].
    rewrite onGenerateNewRun_eq by exact Hsub. unfold pool_ids. simpl.
    rewrite fmap_app, elem_of_app. left. exact Hx.
  - rewrite deliver_pool_ids. exact Hx.
Qed.

Lemma act_pool_ids s a x : x ∈ pool_ids s → x ∈ pool_ids (act s a).
Proof. destruct a; simpl; [apply step_pool_ids | exact id]. Qed.

Lemma act_final x imgs pr s a :
  app_ok s → offered s a = true → x ∈ pool_ids s →
  (∀ r, r ∈ runs s → run_id r = x → done_with imgs pr r) →
  ∀ r', r' ∈ runs (act s a) → run_id r' = x → done_with imgs pr r'.
Proof.
  intros Hok Ho Hx Hfin r' Hr' Hid.
  assert (Hnd : NoDup (run_id <$> runs s)) by apply Hok.
  destruct a as [[ui uuid now | runId | runId | runId | runId idx | k w rep imgId]
                 | runId i]; simpl in Ho, Hr'.
  - destruct (submittable ui) eqn:Hsub;
      [|rewrite onGenerateNewRun_skip in Hr' by exact Hsub; apply Hfin; assumption].
    rewrite onGenerateNewRun_eq in Hr' by exact Hsub. simpl in Hr'.
    apply elem_of_app in Hr' as [Hr'|Hr'].
    + apply Hfin; [apply (dropOldest_subset _ _ _ Hr') | exact Hid].
    + apply list_elem_of_singleton in Hr'. subst r'. simpl in Hid. subst uuid.
      apply bool_decide_eq_true in Ho. contradiction.
  - destruct (activeRun s) as [r|] eqn:Ha; [|discriminate].
    apply andb_true_iff in Ho as [Hrid Hst].
    apply String.eqb_eq in Hrid. apply bool_decide_eq_true in Hst.
    apply elem_of_updateRun in Hr' as (r0 & Hr0 & ->).
    destruct (decide (run_id r0 = runId)) as [Heq|Hne]; [|apply Hfin; assumption].
    exfalso. assert (r0 = r) as -> by (apply (active_is_the_run s); congruence).
    destruct (Hfin r Hr0 Hid) as [Hd _]. congruence.
  - apply list_elem_of_filter in Hr' as [_ Hr']. apply Hfin; assumption.
  - apply Hfin; assumption.
  - unfold toggleSelect in Hr'. apply elem_of_updateRun in Hr' as (r0 & Hr0 & ->).
    destruct (decide (run_id r0 = runId)); exact (Hfin r0 Hr0 Hid).
  - apply list_elem_of_lookup in Hr' as [j Hj].
    destruct (pools s !! k) as [p|] eqn:Hk;
      [|unfold deliver in Hj; rewrite Hk in Hj;
        apply Hfin; [apply list_elem_of_lookup_2 in Hj; exact Hj | exact Hid]].
    destruct (workers p !! w) as [[idx|]|] eqn:Hw;
      try (unfold deliver in Hj; rewrite Hk, Hw in Hj;
           apply Hfin; [apply list_elem_of_lookup_2 in Hj; exact Hj | exact Hid]).
    pose proof Hj as Hj'.
    rewrite (deliver_runs s k w p idx rep imgId Hk Hw) in Hj'.
    unfold updateRun in Hj'. rewrite list_lookup_fmap in Hj'.
    destruct (runs s !! j) as [r0|] eqn:Hr0; [|discriminate].
    simpl in Hj'. injection Hj' as Hr'.
    assert (Hid0 : run_id r0 = x).
    { rewrite <- Hid, <- Hr'. destruct (decide _); [|reflexivity].
      destruct (all_exited _); [rewrite finish_update_id|];
        symmetry; apply outcome_update_id. }
    pose proof (Hfin r0 (list_elem_of_lookup_2 _ _ _ Hr0) Hid0) as Hf0.
    pose proof (done_deaf_to_replies s k w rep imgId j r0 Hok Hr0 (proj1 Hf0)) as Hsame.
    rewrite Hj in Hsame. injection Hsame as ->. exact Hf0.
  - unfold setActiveIdx in Hr'. apply elem_of_updateRun in Hr' as (r0 & Hr0 & ->).
    destruct (decide (run_id r0 = runId)); exact (Hfin r0 Hr0 Hid).
Qed.

Lemma acts_final x imgs pr l : ∀ s,
  app_ok s → view_ok s → offered_all s l = true → x ∈ pool_ids s →
  (∀ r, r ∈ runs s → run_id r = x → done_with imgs pr r) →
  ∀ r', r' ∈ runs (acts s l) → run_id r' = x → done_with imgs pr r'.
Proof.
  induction l as [|a l IH]; intros s Hok Hv Ho Hx Hfin; [exact Hfin|].
  simpl in Ho. apply andb_true_iff in Ho as [Ha Hl]. simpl.
  apply IH; [apply act_ok | apply act_view_ok | | apply act_pool_ids |
             apply act_final]; assumption.
Qed.


(** X14: once a run is done it stays as it is under every update the
    rendered page offers: whatever follows, a registered run with its id
    is done and has the same images and the same progress. Cancel is
    rendered only while the active run is running, and no reply reaches a
    run whose workers have all returned. *)
Theorem done_is_final l l' i r :
  offered_all initial (l ++ l') = true →
  runs (acts initial l) !! i = Some r →
  status r = Done →
  ∀ r', r' ∈ runs (acts initial (l ++ l')) → run_id r' = run_id r →
        status r' = Done ∧ images r' = images r ∧ progress r' = progress r.
Proof.
  intros Ho Hi Hst r' Hr' Hid.
  apply offered_all_app in Ho as [Hl Hl'].
  destruct (acts_ok l initial initial_ok view_initial Hl) as [Hok Hv].
  apply list_elem_of_lookup_2 in Hi.
  rewrite acts_app in Hr'.
  apply (acts_final (run_id r) (images r) (progress r) l' (acts initial l) Hok Hv Hl');
    [| |exact Hr' | exact Hid].
  - destruct Hok as (_ & _ & Hreg & _). apply Hreg, Hi.
  - intros r0 Hr0 Hid0.
    assert (r0 = r) as ->; [|unfold done_with; auto].
    destruct Hok as (_ & Hnd & _).
    exact (NoDup_fmap_eq run_id _ r0 r Hnd Hr0 Hi Hid0).
Qed.

Lemma done_is_final_witness :
  ∃ r r', runs (acts initial actions_done) !! 0 = Some r
          ∧ runs (acts initial (actions_done ++ actions_after_done)) !! 0 = Some r'
          ∧ run_id r' = run_id r
          ∧ status r' = Done ∧ images r' = images r ∧ progress r' = progress r.
Proof.
  eexists _, _. split; [vm_compute; reflexivity|].
  split; [vm_compute; reflexivity|]. split; [reflexivity|].
  apply (done_is_final actions_done actions_after_done 0 _
           ltac:(vm_compute; reflexivity) ltac:(vm_compute; reflexivity) eq_refl).
  - apply list_elem_of_lookup. exists 0. vm_compute. reflexivity.
  - reflexivity.
Defined.

(* ===================================================================== *)
(** ** The requests of the page, as the route reads them *)
(* ===================================================================== *)

Lemma step_submitted s e :
  (∀ k p, pools s !! k = Some p → run_submitted (p_run p)) →
  ∀ k p, pools (step s e) !! k = Some p → run_submitted (p_run p).
Proof.
  intros Hs k p Hk. destruct e as [ui uuid now | runId | runId | runId | runId idx
                                    | k' w rep imgId]; simpl in Hk;
    try exact (Hs k p Hk).
  - destruct (submittable ui) eqn:Hsub;
      [|rewrite onGenerateNewRun_skip in Hk by exact Hsub; exact (Hs k p Hk)].
    rewrite onGenerateNewRun_eq in Hk by exact Hsub. simpl in Hk.
    apply lookup_app_Some in Hk as [Hk | [_ Hk]]; [exact (Hs k p Hk)|].
    apply list_lookup_singleton_Some in Hk as [_ <-]. simpl.
    unfold submittable in Hsub. apply andb_true_iff in Hsub as [Href Hn].
    apply negb_true_iff, bool_decide_eq_false in Hn.
    split; [exact Href | simpl; lia].
  - destruct (pools s !! k') as [p'|] eqn:Hk';
      [|unfold deliver in Hk; rewrite Hk' in Hk; exact (Hs k p Hk)].
    destruct (workers p' !! w) as [[idx|]|] eqn:Hw;
      try (unfold deliver in Hk; rewrite Hk', Hw in Hk; exact (Hs k p Hk)).
    destruct (deliver_pools s k' w p' idx rep imgId Hk' Hw) as (Hpools & _).
    rewrite Hpools in Hk.
    destruct (decide (k = k')) as [->|Hne].
    + rewrite list_lookup_insert_eq in Hk by (apply lookup_lt_Some in Hk'; exact Hk').
      injection Hk as <-. rewrite resumed_run. exact (Hs k' p' Hk').
    + rewrite list_lookup_insert_ne in Hk by congruence. exact (Hs k p Hk).
Qed.

Lemma run_events_submitted es : ∀ s,
  (∀ k p, pools s !! k = Some p → run_submitted (p_run p)) →
  ∀ k p, pools (run_events s es) !! k = Some p → run_submitted (p_run p).
Proof.
  induction es as [|e es IH]; intros s Hs; [exact Hs|].
  simpl. apply IH, step_submitted, Hs.
Qed.

(** X15: for every pool the page has started and every prompt index,
    the route never answers the request of the page with Reference image
    URL required; a request that carries a customUrl carries the
    referenceUrl of the run, names no product, and makes the route use
    that URL whatever the database holds; a request without customUrl
    names a product. *)
Theorem request_has_reference es k p idx net :
  pools (run_events initial es) !! k = Some p →
  RouteTs.getReferenceUrl net (pb_productId (request_body p idx))
    (pb_customUrl (request_body p idx))
  ≠ Throw "Reference image URL required"
  ∧ (∀ u, pb_customUrl (request_body p idx) = Some u →
          u = referenceUrl (p_run p)
          ∧ nonempty (default "" (productId (p_run p))) = false
          ∧ RouteTs.getReferenceUrl net (pb_productId (request_body p idx))
              (pb_customUrl (request_body p idx)) = Ok u)
  ∧ (pb_customUrl (request_body p idx) = None →
     nonempty (default "" (pb_productId (request_body p idx))) = true).
Proof.
  intros Hk.
  assert (Hsub : run_submitted (p_run p)).
  { apply (run_events_submitted es initial) with (k := k); [|exact Hk].
    intros k0 p0 H0. simpl in H0. rewrite lookup_nil in H0. discriminate. }
  destruct Hsub as [Href _].
  unfold RouteTs.getReferenceUrl, request_body. simpl.
  destruct (productId (p_run p)) as [i|] eqn:Hp; simpl.
  - destruct (nonempty i) eqn:Hi; simpl.
    + split; [destruct (db net i) as [m|row]; [discriminate|];
              destruct (nonempty (default "" row)); discriminate|].
      split; [discriminate | reflexivity].
    + rewrite Href. split; [discriminate|]. split; [|discriminate].
      intros u [= <-]. auto.
  - rewrite Href. split; [discriminate|]. split; [|discriminate].
    intros u [= <-]. auto.
Qed.

Lemma request_has_reference_witness :
  ∃ p, pools (run_events initial trace_three) !! 1 = Some p
       ∧ RouteTs.getReferenceUrl net_seedream (pb_productId (request_body p 0))
           (pb_customUrl (request_body p 0))
         ≠ Throw "Reference image URL required".
Proof.
  eexists. split; [vm_compute; reflexivity|].
  apply (request_has_reference trace_three 1 _ 0 net_seedream
           ltac:(vm_compute; reflexivity)).
Defined.

Lemma getModelById_cases i :
  (i = "nanobanana-v1" ∧ provider <$> getModelById i = Some nanobanana)
  ∨ (i = "seedream-v4-edit" ∧ provider <$> getModelById i = Some seedream)
  ∨ (i ≠ "seedream-v4-edit" ∧ getModelById i = None).
Proof.
  unfold getModelById, MODEL_LIST. cbn [List.find model_id].
  destruct (String.eqb "nanobanana-v1" i) eqn:E1.
  - apply String.eqb_eq in E1. left. split; [symmetry; exact E1 | reflexivity].
  - destruct (String.eqb "seedream-v4-edit" i) eqn:E2.
    + apply String.eqb_eq in E2. right; left. split; [symmetry; exact E2 | reflexivity].
    + right; right. split; [|reflexivity]. intros ->. discriminate.
Qed.

(** X16: for a run whose model is one of MODEL_LIST, the request of the
    page carries options exactly when the provider of the model is
    seedream, which is exactly when the route takes its Seedream branch;
    the options are then the size, resolution, number of images and seed
    of the form. *)
Theorem options_follow_provider (p : Pool) (idx : nat) (m : ModelDef) :
  getModelById (modelId (p_run p)) = Some m →
  (provider m = seedream ↔ pb_options (request_body p idx) ≠ None)
  ∧ (provider m = seedream
     ↔ startsWith "seedream" (pb_modelId (request_body p idx)) = true)
  ∧ (provider m = seedream →
     pb_options (request_body p idx)
     = Some {| image_size := Some (sdSize (p_ui p));
               image_resolution := Some (sdRes (p_ui p));
               max_images := Some (sdMax (p_ui p));
               seed := sdSeed (p_ui p) |}).
Proof.
  intros Hm. unfold request_body. cbn [pb_options pb_modelId].
  destruct (getModelById_cases (modelId (p_run p))) as [[E H] | [[E H] | [_ H]]].
  - rewrite H. rewrite Hm in H. injection H as Hp. rewrite Hp, E.
    split; [split; [discriminate | intros N; exfalso; exact (N eq_refl)]|].
    split; [split; discriminate | discriminate].
  - rewrite H. rewrite Hm in H. injection H as Hp. rewrite Hp, E.
    split; [split; [discriminate | reflexivity]|].
    split; [split; reflexivity | reflexivity].
  - rewrite Hm in H. discriminate.
Qed.

Lemma options_follow_provider_witness :
  pb_options (request_body (new_pool (new_run ui_abc "run-1" 1000 initial) ui_abc) 0)
  = None.
Proof.
  destruct (options_follow_provider
              (new_pool (new_run ui_abc "run-1" 1000 initial) ui_abc) 0
              {| model_id := "nanobanana-v1"; label := "Nano Banana"; version := "v1";
                 provider := nanobanana |} eq_refl) as [[_ H] _].
  destruct (pb_options _) as [o|]; [|reflexivity].
  exfalso. assert (nanobanana = seedream) by (apply H; discriminate). discriminate.
Defined.

(* ===================================================================== *)
(** ** The concurrency helper: invariant *)
(* ===================================================================== *)

Section Limit.
Import RunWithLimit.
Context {T E : Type}.
Variables limit n : nat.

Lemma moved_to_closing (D C F : list nat) t :
  D ++ (C ++ [t]) ++ F ≡ₚ (t :: D) ++ C ++ F.
Proof.
  simpl. rewrite <- (app_assoc C [t] F). simpl.
  rewrite (app_assoc D C (t :: F)), (app_assoc D C F).
  symmetry. apply Permutation_middle.
Qed.

Lemma moved_to_finished (C F : list nat) t : C ++ F ++ [t] ≡ₚ (t :: C) ++ F.
Proof. rewrite app_assoc. simpl. symmetry. apply Permutation_cons_append. Qed.

Lemma fill_spec q : ∀ run pend,
  ∃ j, j <= length q
       ∧ fill limit q run pend = (drop j q, run + j, pend ++ take j q)
       ∧ (run <= limit → run + j <= limit)
       ∧ (drop j q ≠ [] → limit <= run + j)
       ∧ (q ≠ [] → run < limit → 1 <= j).
Proof.
  induction q as [|t q IH]; intros run pend; simpl.
  - exists 0. simpl. rewrite app_nil_r, Nat.add_0_r.
    repeat split; try lia; try congruence.
  - destruct (run <? limit)%nat eqn:Hlim.
    + apply Nat.ltb_lt in Hlim.
      destruct (IH (S run) (pend ++ [t])) as (j & Hj & Hf & H1 & H2 & _).
      exists (S j). simpl. rewrite Hf, <- app_assoc. simpl.
      replace (S (run + j)) with (run + S j) by lia.
      split; [lia|]. split; [reflexivity|]. split; [lia|].
      split; [intros H; specialize (H2 H); lia | lia].
    + apply Nat.ltb_ge in Hlim. exists 0. simpl. rewrite app_nil_r, Nat.add_0_r.
      split; [lia|]. split; [reflexivity|]. split; [lia|]. split; [lia | lia].
Qed.

Lemma resolve_ok (s : State T E) :
  entering limit n s → queue s = [] → running s = 0 → state_ok limit n (resolve s).
Proof.
  intros (H1 & H2 & H3 & H5 & H6 & H7 & H8) Hq Hr. unfold resolve.
  destruct (settled s) as [[v|e]|] eqn:Hs.
  - exfalso. exact (H8 v eq_refl).
  - split; [exact H1|]. split; [exact H2|]. split; [exact H3|].
    split; [intros _ Hn; contradiction|]. split; [exact H5|].
    split; [rewrite Hs; discriminate|]. split; [rewrite Hs; exact H7|].
    rewrite Hs. discriminate.
  - simpl. split; [exact H1|]. split; [exact H2|]. split; [exact H3|].
    split; [intros _ Hn; contradiction|]. split; [exact H5|].
    split; [discriminate|]. split; [discriminate|].
    intros v [= <-]. auto.
Qed.

Lemma kick_ok (s : State T E) : entering limit n s → state_ok limit n (kick limit s).
Proof.
  intros Hs. unfold kick.
  destruct (bool_decide (length (queue s) = 0) && bool_decide (running s = 0)) eqn:Hb.
  { apply andb_true_iff in Hb as [Hq Hr].
    apply bool_decide_eq_true in Hq, Hr.
    apply resolve_ok; [exact Hs | | exact Hr].
    destruct (queue s); [reflexivity | discriminate]. }
  destruct Hs as (H1 & H2 & (k & Hk & Hq & Hperm) & H5 & H6 & H7 & H8).
  destruct (fill_spec (queue s) (running s) (pending s))
    as (j & Hj & -> & Hle & Hfull & Hpos).
  rewrite Hq in Hj. rewrite length_seq in Hj.
  assert (Hdrop : drop j (queue s) = seq (k + j) (n - (k + j))).
  { rewrite Hq, drop_seq. f_equal; lia. }
  assert (Htake : take j (queue s) = seq k j).
  { rewrite Hq, take_seq. f_equal. lia. }
  unfold state_ok. simpl. split; [rewrite length_app, Htake, length_seq; lia|].
  split; [apply Hle, H2|].
  split.
  { exists (k + j). split; [lia|]. split; [exact Hdrop|].
    rewrite Htake, seq_app, <- Hperm.
    rewrite <- !app_assoc. apply Permutation_app_head.
    rewrite (Permutation_app_comm (seq k j)). rewrite <- app_assoc. reflexivity. }
  split; [intros _ Hne; specialize (Hfull Hne); specialize (Hle H2); lia|].
  split; [exact H5|].
  split.
  { intros Hn. split; [apply H6, Hn|].
    apply andb_false_iff in Hb as [Hb|Hb]; apply bool_decide_eq_false in Hb.
    - destruct (decide (running s < limit)) as [Hlt|Hge].
      + right. assert (queue s ≠ []) as Hne by (destruct (queue s); [contradiction | discriminate]).
        specialize (Hpos Hne Hlt). lia.
      + left. rewrite Hdrop. assert (j = 0) as -> by (specialize (Hle H2); lia).
        rewrite Nat.add_0_r, <- Hq. destruct (queue s); [contradiction | discriminate].
    - right. lia. }
  split; [exact H7|].
  intros v Hv. exfalso. exact (H8 v Hv).
Qed.

Lemma runWithLimit_ok : state_ok limit n (runWithLimit (T := T) (E := E) limit n).
Proof.
  apply kick_ok. unfold entering. simpl.
  split; [reflexivity|]. split; [lia|].
  split; [exists 0; split; [lia|]; split; [f_equal; lia | reflexivity]|].
  split; [reflexivity|]. split; [reflexivity|]. split; discriminate.
Qed.

Lemma on_then_ok j r (s : State T E) :
  state_ok limit n s → state_ok limit n (on_then j r s).
Proof.
  intros Hs. unfold on_then. destruct (pending s !! j) as [task|] eqn:Hj; [|exact Hs].
  destruct Hs as (H1 & H2 & (k & Hk & Hq & Hperm) & H4 & H5 & H6 & H7 & H8).
  pose proof (lookup_lt_Some _ _ _ Hj) as Hlt.
  unfold state_ok. simpl.
  split; [rewrite length_delete by eauto; rewrite length_app; simpl; lia|].
  split; [exact H2|].
  split.
  { exists k. split; [exact Hk|]. split; [exact Hq|].
    rewrite <- Hperm, moved_to_closing.
    apply Permutation_app_tail. symmetry. apply delete_Permutation, Hj. }
  split; [exact H4|].
  split; [rewrite !length_app; simpl; lia|].
  split; [exact H6|]. split; [exact H7|].
  intros v Hv. destruct (H8 v Hv) as (_ & _ & _ & Hr). lia.
Qed.

Lemma on_catch_ok j e (s : State T E) :
  state_ok limit n s → state_ok limit n (on_catch j e s).
Proof.
  intros Hs. unfold on_catch. destruct (pending s !! j) as [task|] eqn:Hj; [|exact Hs].
  destruct Hs as (H1 & H2 & (k & Hk & Hq & Hperm) & H4 & H5 & H6 & H7 & H8).
  pose proof (lookup_lt_Some _ _ _ Hj) as Hlt.
  assert (Hrej : ∀ x, settled (reject e s) = Some (inl x) → settled s = Some (inl x)).
  { intros x. unfold reject. destruct (settled s) as [y|] eqn:Hset; simpl;
      [rewrite Hset; auto | discriminate]. }
  assert (Hfields : queue (reject e s) = queue s ∧ running (reject e s) = running s
                    ∧ out (reject e s) = out s ∧ pending (reject e s) = pending s
                    ∧ closing (reject e s) = closing s
                    ∧ finished (reject e s) = finished s
                    ∧ failed (reject e s) = failed s).
  { unfold reject. destruct (settled s); simpl; auto 10. }
  destruct Hfields as (-> & -> & -> & -> & -> & -> & ->).
  unfold state_ok. simpl.
  split; [rewrite length_delete by eauto; rewrite length_app; simpl; lia|].
  split; [exact H2|].
  split.
  { exists k. split; [exact Hk|]. split; [exact Hq|].
    rewrite <- Hperm, moved_to_closing.
    apply Permutation_app_tail. symmetry. apply delete_Permutation, Hj. }
  split; [exact H4|].
  split; [rewrite !length_app; simpl; lia|].
  split.
  { unfold reject. destruct (settled s) as [y|] eqn:Hset; simpl;
      [rewrite Hset|]; discriminate. }
  split.
  { intros e'. unfold reject. destruct (settled s) as [y|] eqn:Hset; simpl.
    - rewrite Hset. intros [= ->].
      destruct (failed s) as [|e0 fs]; [discriminate (H7 e' eq_refl)|].
      exact (H7 e' eq_refl).
    - intros [= <-]. destruct (H6 eq_refl) as [-> _]. reflexivity. }
  intros v Hv. apply Hrej in Hv. destruct (H8 v Hv) as (_ & _ & _ & Hr). lia.
Qed.

Lemma on_finally_ok j (s : State T E) :
  state_ok limit n s → state_ok limit n (on_finally limit j s).
Proof.
  intros Hs. unfold on_finally. destruct (closing s !! j) as [task|] eqn:Hj; [|exact Hs].
  destruct Hs as (H1 & H2 & (k & Hk & Hq & Hperm) & H4 & H5 & H6 & H7 & H8).
  pose proof (lookup_lt_Some _ _ _ Hj) as Hlt.
  rewrite (bool_decide_eq_true_2 (0 < running s)) by lia.
  set (s1 := {| queue := queue s; running := running s - 1; out := out s;
                settled := settled s; pending := pending s;
                closing := delete j (closing s); finished := finished s ++ [task];
                failed := failed s |}).
  assert (Hent : entering limit n s1).
  { unfold entering, s1. simpl.
    split; [rewrite length_delete by eauto; lia|]. split; [lia|].
    split.
    { exists k. split; [exact Hk|]. split; [exact Hq|].
      rewrite <- Hperm. apply Permutation_app_head.
      rewrite moved_to_finished. apply Permutation_app_tail.
      symmetry. apply delete_Permutation, Hj. }
    split; [rewrite length_delete by eauto; rewrite length_app; simpl; lia|].
    split; [intros Hn; apply H6, Hn|]. split; [exact H7|].
    intros v Hv. destruct (H8 v Hv) as (_ & _ & _ & Hr). lia. }
  destruct (bool_decide (0 < length (queue s1))) eqn:Hb1; [apply kick_ok, Hent|].
  apply bool_decide_eq_false in Hb1.
  assert (Hq1 : queue s1 = []) by (destruct (queue s1); [reflexivity | simpl in Hb1; lia]).
  destruct (bool_decide (length (queue s1) = 0) && bool_decide (running s1 = 0)) eqn:Hb2.
  - apply andb_true_iff in Hb2 as [_ Hr]. apply bool_decide_eq_true in Hr.
    apply resolve_ok; assumption.
  - apply andb_false_iff in Hb2 as [Hb2|Hb2]; apply bool_decide_eq_false in Hb2;
      [rewrite Hq1 in Hb2; simpl in Hb2; lia|].
    destruct Hent as (E1 & E2 & E3 & E5 & E6 & E7 & E8).
    split; [exact E1|]. split; [exact E2|]. split; [exact E3|].
    split; [intros _ Hne; contradiction|]. split; [exact E5|].
    split; [intros Hn; split; [apply E6, Hn | right; exact Hb2]|].
    split; [exact E7|]. intros v Hv. exfalso. exact (E8 v Hv).
Qed.

Lemma callbacks_ok cs : ∀ s : State T E,
  state_ok limit n s → state_ok limit n (callbacks limit s cs).
Proof.
  induction cs as [|c cs IH]; intros s Hs; [exact Hs|].
  simpl. apply IH. destruct c as [j r | j e | j]; simpl;
    [apply on_then_ok | apply on_catch_ok | apply on_finally_ok]; exact Hs.
Qed.

(** Nothing runs once no callback is due. *)
Lemma callbacks_idle cs : ∀ s : State T E,
  pending s = [] → closing s = [] → callbacks limit s cs = s.
Proof.
  induction cs as [|c cs IH]; intros s Hp Hc; [reflexivity|].
  simpl. assert (callback limit s c = s) as ->; [|apply IH; assumption].
  destruct c as [j r | j e | j]; simpl;
    [unfold on_then | unfold on_catch | unfold on_finally];
    rewrite ?Hp, ?Hc, lookup_nil; reflexivity.
Qed.

(** The promise settles once. *)
Lemma callbacks_settled cs : ∀ (s : State T E) x,
  settled s = Some x → settled (callbacks limit s cs) = Some x.
Proof.
  induction cs as [|c cs IH]; intros s x Hx; [exact Hx|].
  simpl. apply IH. destruct c as [j r | j e | j]; simpl.
  - unfold on_then. destruct (pending s !! j); exact Hx.
  - unfold on_catch. destruct (pending s !! j); [|exact Hx]. simpl.
    unfold reject. rewrite Hx. exact Hx.
  - unfold on_finally. destruct (closing s !! j); [|exact Hx].
    assert (Hres : ∀ s' : State T E, settled s' = Some x → settled (resolve s') = Some x).
    { intros s' H'. unfold resolve. rewrite H'. exact H'. }
    destruct (bool_decide (0 < _)).
    + unfold kick. destruct (_ && _); [apply Hres; exact Hx|].
      destruct (fill _ _ _ _) as [[q run] pend]. exact Hx.
    + destruct (_ && _); [apply Hres|]; exact Hx.
Qed.

End Limit.

Section LimitTheorems.
Import RunWithLimit.

Lemma reached_ok {T E : Type} limit n (cs : list (Callback T E)) : state_ok limit n (reached limit n cs).
Proof. apply callbacks_ok, runWithLimit_ok. Qed.

Lemma not_running {T E : Type} (s : State T E) limit n :
  state_ok limit n s → running s = 0 → pending s = [] ∧ closing s = [].
Proof.
  intros (H1 & _) Hr. rewrite Hr in H1.
  destruct (pending s), (closing s); simpl in H1; try lia. auto.
Qed.

(** X17: in every state of runWithLimit, whatever the order in which
    the promises of the tasks settle and their callbacks run, the counter
    running is the number of tasks started whose finally callback has not
    run and is at most the limit; the tasks still queued are the last
    ones, in order; and the tasks started are the first ones, each
    started once. *)
Theorem limit_is_kept {T E : Type} (limit n : nat) (cs : list (Callback T E)) :
  running (reached limit n cs) <= limit
  ∧ running (reached limit n cs)
    = length (pending (reached limit n cs)) + length (closing (reached limit n cs))
  ∧ ∃ k, k <= n
         ∧ queue (reached limit n cs) = seq k (n - k)
         ∧ pending (reached limit n cs) ++ closing (reached limit n cs)
             ++ finished (reached limit n cs)
           ≡ₚ seq 0 k.
Proof.
  destruct (reached_ok limit n cs) as (H1 & H2 & H3 & _). auto.
Qed.

(** X18: with a limit of at least 1, whenever no task is running the
    queue is empty, every task has been run to its end, each is counted
    once as a result or as a failure, and the promise is settled: rejected
    with the first error if a task failed, resolved with the results
    otherwise. A task that fails does not keep the tasks behind it from
    being started. *)
Theorem all_tasks_run {T E : Type} (limit n : nat) (cs : list (Callback T E)) :
  1 <= limit →
  running (reached limit n cs) = 0 →
  queue (reached limit n cs) = []
  ∧ finished (reached limit n cs) ≡ₚ seq 0 n
  ∧ length (out (reached limit n cs)) + length (failed (reached limit n cs)) = n
  ∧ settled (reached limit n cs)
    = Some (match head (failed (reached limit n cs)) with
            | Some e => inr e
            | None => inl (out (reached limit n cs))
            end).
Proof.
  intros Hlim Hrun.
  pose proof (reached_ok limit n cs) as Hok.
  destruct (not_running _ _ _ Hok Hrun) as [Hp Hc].
  destruct Hok as (H1 & H2 & (k & Hk & Hq & Hperm) & H4 & H5 & H6 & H7 & H8).
  assert (Hqe : queue (reached limit n cs) = []).
  { destruct (queue (reached limit n cs)) as [|t q] eqn:Hqq; [reflexivity|].
    assert (running (reached limit n cs) = limit) by (apply H4; [exact Hlim | discriminate]).
    lia. }
  assert (k = n) as ->.
  { rewrite Hqe in Hq. destruct (n - k) eqn:Hn; [lia | discriminate]. }
  rewrite Hp, Hc in Hperm. simpl in Hperm.
  split; [exact Hqe|]. split; [exact Hperm|].
  split.
  { rewrite Hc in H5. simpl in H5. rewrite H5.
    rewrite Hperm. apply length_seq. }
  destruct (settled (reached limit n cs)) as [[v|e]|] eqn:Hs.
  - destruct (H8 v eq_refl) as (-> & -> & _). reflexivity.
  - rewrite (H7 e eq_refl). reflexivity.
  - destruct (H6 eq_refl) as [_ [Hne|Hne]]; contradiction.
Qed.

Lemma all_tasks_run_witness :
  finished (reached 2 3 three_tasks) ≡ₚ seq 0 3
  ∧ settled (reached 2 3 three_tasks) = Some (inr "Generation failed (line 2)")
  ∧ out (reached 2 3 three_tasks) = ["video-1"; "video-3"].
Proof.
  destruct (all_tasks_run 2 3 three_tasks ltac:(lia) eq_refl) as (_ & H1 & _ & H2).
  split; [exact H1|]. split; [exact H2 | reflexivity].
Defined.

(** X19: the promise of runWithLimit settles once: what it is settled
    with does not change with later callbacks. If it is resolved, it is
    with the array out, which holds one result for every task, no task
    has failed, and no later callback changes anything; if it is
    rejected, it is with the first error passed to reject. *)
Theorem settles_once {T E : Type} (limit n : nat) (cs cs' : list (Callback T E)) (x : list T + E) :
  settled (reached limit n cs) = Some x →
  settled (reached limit n (cs ++ cs')) = Some x
  ∧ match x with
    | inl v =>
        v = out (reached limit n cs) ∧ length v = n
        ∧ failed (reached limit n cs) = []
        ∧ reached limit n (cs ++ cs') = reached limit n cs
    | inr e => head (failed (reached limit n cs)) = Some e
    end.
Proof.
  intros Hx. unfold reached at 1. unfold reached in Hx.
  split.
  { unfold callbacks. rewrite fold_left_app. apply callbacks_settled, Hx. }
  pose proof (reached_ok limit n cs) as Hok.
  destruct x as [v|e].
  - pose proof Hok as (H1 & H2 & (k & Hk & Hq & Hperm) & H4 & H5 & H6 & H7 & H8).
    destruct (H8 v Hx) as (Hv & Hf & Hqe & Hr).
    destruct (not_running _ _ _ Hok Hr) as [Hp Hc].
    split; [exact Hv|].
    split.
    { assert (k = n) as ->.
      { rewrite Hqe in Hq. destruct (n - k) eqn:Hn; [lia | discriminate]. }
      rewrite Hv. rewrite Hc, Hf in H5. simpl in H5.
      rewrite Hp, Hc in Hperm. simpl in Hperm.
      rewrite Nat.add_0_r in H5. rewrite H5, Hperm. apply length_seq. }
    split; [exact Hf|].
    unfold reached, callbacks. rewrite fold_left_app.
    apply callbacks_idle; assumption.
  - destruct Hok as (_ & _ & _ & _ & _ & _ & H7 & _). apply H7, Hx.
Qed.

Lemma settles_once_witness :
  settled (reached 2 2 (two_tasks ++ [Then 0 "late"; Finally 0]))
  = Some (inl ["video-2"; "video-1"]).
Proof.
  apply (settles_once 2 2 two_tasks [Then 0 "late"; Finally 0]
           (inl ["video-2"; "video-1"]) eq_refl).
Defined.

(** X20: with a limit of 0 and at least one task, runWithLimit starts
    no task and its promise never settles. (The caller clamps the limit
    to 1..3.) *)
Theorem zero_limit_hangs {T E : Type} (n : nat) (cs : list (Callback T E)) :
  1 <= n →
  settled (reached 0 n cs) = None
  ∧ queue (reached 0 n cs) = seq 0 n
  ∧ running (reached 0 n cs) = 0.
Proof.
  intros Hn. unfold reached.
  assert (Hinit : runWithLimit (T := T) (E := E) 0 n
                  = {| queue := seq 0 n; running := 0; out := []; settled := None;
                       pending := []; closing := []; finished := []; failed := [] |}).
  { unfold runWithLimit, kick. simpl. rewrite length_seq.
    rewrite bool_decide_eq_false_2 by lia. simpl.
    destruct (seq 0 n); reflexivity. }
  rewrite (callbacks_idle 0 cs); rewrite Hinit; auto.
Qed.

Lemma zero_limit_hangs_witness :
  settled (reached 0 3 three_tasks) = None.
Proof. apply (zero_limit_hangs 3 three_tasks). lia. Defined.

End LimitTheorems.

(* ===================================================================== *)
(** ** The video route *)
(* ===================================================================== *)

Section Video.
Import VideoRoute.
Variable JSON_parse : string → option Val.
Variable trim : string → string.

Lemma kiePoll_fetches start taskId replies :
  ∀ (k : nat) clock lastState sent,
    (maxMs - 2000 * Z.of_nat k <= clock - start)%Z →
    ∃ n, n <= k
         ∧ snd (kiePoll JSON_parse start clock lastState taskId replies sent)
           = sent ++ replicate n (VRecordInfo taskId).
Proof.
  unfold maxMs.
  induction replies as [|r rest IH]; intros k clock lastState sent Hk; simpl;
    unfold maxMs; destruct (clock - start <? 240000)%Z eqn:Hlt;
    try (exists 0; split; [lia | simpl; rewrite app_nil_r; reflexivity]).
  - apply Z.ltb_lt in Hlt. exists 1. split; [lia | reflexivity].
  - apply Z.ltb_lt in Hlt.
    destruct r as [ok st json lat | m lat]; [|exists 1; split; [lia | reflexivity]].
    destruct (kie_classify JSON_parse ok json);
      try (exists 1; split; [lia | reflexivity]).
    destruct k as [|k]; [lia|].
    destruct (IH k (clock + 2000 + Z.of_N lat)%Z
                (js_or (get (get json "data") "state") (VStr "unknown"))
                (sent ++ [VRecordInfo taskId])) as (n & Hn & Heq); [lia|].
    exists (S n). split; [lia|]. rewrite Heq, <- app_assoc. reflexivity.
Qed.

Lemma v_caught_shape m :
  ∃ e, v_caught m = {| v_status := 500; v_body := VError e |} ∧ nonempty e = true.
Proof.
  eexists. split; [reflexivity|]. unfold str_or.
  destruct (nonempty m) eqn:Hm; [exact Hm | reflexivity].
Qed.

Lemma generate_shape net payload :
  ∃ taskId n,
    n <= 120
    ∧ snd (generate JSON_parse net payload)
      = VCreateTask payload :: replicate n (VRecordInfo taskId)
    ∧ ((∃ url, fst (generate JSON_parse net payload)
               = {| v_status := 200; v_body := VVideo url |} ∧ 1 <= n)
       ∨ ∃ e, fst (generate JSON_parse net payload)
              = {| v_status := 500; v_body := VError e |} ∧ nonempty e = true).
Proof.
  unfold generate.
  destruct (kieCreateTask (head (kie net))) as [taskId|m] eqn:Hc.
  - set (start := match head (kie net) with
                  | Some (Replied _ _ _ lat) => (now net + Z.of_N lat)%Z
                  | _ => now net
                  end).
    destruct (kiePoll_fetches start taskId (tail (kie net)) 120 start (VStr "waiting")
                [VCreateTask payload]) as (n & Hn & Heq); [unfold maxMs; lia|].
    destruct (kiePoll JSON_parse start start (VStr "waiting") taskId (tail (kie net))
                [VCreateTask payload]) as [[url|m] sent'] eqn:Hp; simpl in Heq; subst sent'.
    + exists taskId, n. split; [exact Hn|]. split; [reflexivity|].
      left. exists url. split; [reflexivity|].
      destruct n as [|n]; [|lia]. exfalso.
      (* no reply read: the loop has thrown *)
      destruct (tail (kie net)) as [|q rest]; simpl in Hp; unfold maxMs in Hp;
        replace (start - start <? 240000)%Z with true in Hp
          by (symmetry; apply Z.ltb_lt; lia).
      * discriminate.
      * destruct q as [ok st json lat | m lat]; [|discriminate].
        destruct (kie_classify JSON_parse ok json).
        -- injection Hp as _ Hs. discriminate.
        -- discriminate.
        -- pose proof (kiePoll_fetches start taskId rest 119
                         (start + 2000 + Z.of_N lat)%Z
                         (js_or (get (get json "data") "state") (VStr "unknown"))
                         [VCreateTask payload; VRecordInfo taskId]) as H.
           rewrite Hp in H. destruct H as (n' & _ & H'); [unfold maxMs; lia|].
           simpl in H'. discriminate.
    + exists taskId, n. split; [exact Hn|]. split; [reflexivity|].
      right. apply v_caught_shape.
  - exists VUndef, 0. split; [lia|]. split; [reflexivity|].
    right. apply v_caught_shape.
Qed.

Lemma video_reference_nonempty net productId customUrl u :
  getReferenceUrl trim net productId customUrl = Ok u → nonempty u = true.
Proof.
  unfold getReferenceUrl.
  destruct (nonempty (default "" (trim <$> customUrl))) eqn:Hc; [intros [= <-]; exact Hc|].
  destruct (negb _); [discriminate|].
  destruct (db net _) as [m|row]; [discriminate|].
  destruct (nonempty (default "" row)) eqn:Hr; [intros [= <-]; exact Hr | discriminate].
Qed.

End Video.

(** X21: the video route either makes no call and answers with an
    error of status 400 or 500; or it creates one task, with the prompt
    and a model that are set and with an image URL exactly when the mode
    is not text-to-video, that URL being set, and then makes at most 120
    recordInfo fetches for one task id; it then answers 200 with a
    videoUrl, after at least one such fetch, or an error of status 500.
    Error messages are never empty. *)
Theorem video_POST_shape (JSON_parse : string → option Val) (trim : string → string)
    (net : Net) (body : VideoRoute.VideoBody) :
  (snd (VideoRoute.POST JSON_parse trim net body) = []
   ∧ ∃ st e,
       fst (VideoRoute.POST JSON_parse trim net body)
       = {| VideoRoute.v_status := st; VideoRoute.v_body := VideoRoute.VError e |}
       ∧ nonempty e = true ∧ (st = 400 ∨ st = 500)%Z)
  ∨ ∃ payload taskId n,
      n <= 120
      ∧ snd (VideoRoute.POST JSON_parse trim net body)
        = VideoRoute.VCreateTask payload
            :: replicate n (VideoRoute.VRecordInfo taskId)
      ∧ nonempty (VideoRoute.vp_prompt payload) = true
      ∧ nonempty (VideoRoute.vp_model payload) = true
      ∧ (VideoRoute.vp_image_url payload = None
         ↔ VideoRoute.vb_mode body = Some "text-to-video")
      ∧ (∀ u, VideoRoute.vp_image_url payload = Some u → nonempty u = true)
      ∧ ((∃ url,
            fst (VideoRoute.POST JSON_parse trim net body)
            = {| VideoRoute.v_status := 200;
                 VideoRoute.v_body := VideoRoute.VVideo url |}
            ∧ 1 <= n)
         ∨ ∃ e,
             fst (VideoRoute.POST JSON_parse trim net body)
             = {| VideoRoute.v_status := 500;
                  VideoRoute.v_body := VideoRoute.VError e |}
             ∧ nonempty e = true).
Proof.
  unfold VideoRoute.POST.
  destruct (negb (nonempty (default "" (KIE_KEY net))));
    [left; split; [reflexivity | eexists _, _; split; [reflexivity | auto]]|].
  destruct (nonempty (default "" (VideoRoute.vb_prompt body))) eqn:Hp; simpl;
    [|left; split; [reflexivity | eexists _, _; split; [reflexivity | auto]]].
  destruct (negb (String.eqb _ "kling"));
    [left; split; [reflexivity | eexists _, _; split; [reflexivity | auto]]|].
  destruct (String.eqb (default "" (VideoRoute.vb_mode body)) "image-to-video") eqn:Hi;
    simpl.
  - apply String.eqb_eq in Hi.
    destruct (VideoRoute.getReferenceUrl trim net _ _) as [u|m] eqn:Hu.
    + right.
      destruct (generate_shape JSON_parse net
                  {| VideoRoute.vp_model :=
                       str_or (VideoRoute.vb_model body) "kling/v2-5-turbo-image-to-video-pro";
                     VideoRoute.vp_callBackUrl := "";
                     VideoRoute.vp_prompt := default "" (VideoRoute.vb_prompt body);
                     VideoRoute.vp_image_url := Some u;
                     VideoRoute.vp_duration := default "5" (VideoRoute.vb_duration body);
                     VideoRoute.vp_aspect_ratio := None;
                     VideoRoute.vp_negative_prompt :=
                       VideoRoute.keep_nonempty (VideoRoute.vb_negative_prompt body);
                     VideoRoute.vp_cfg_scale := VideoRoute.vb_cfg_scale body |})
        as (taskId & n & Hn & Htr & Hres).
      eexists _, taskId, n. split; [exact Hn|]. split; [exact Htr|].
      split; [exact Hp|]. split; [apply str_or_nonempty; reflexivity|].
      split.
      { simpl. split; [discriminate|]. intros Hm. rewrite Hm in Hi. discriminate. }
      split; [|exact Hres].
      simpl. intros u' [= <-]. exact (video_reference_nonempty trim _ _ _ _ Hu).
    + left. split; [reflexivity|].
      destruct (v_caught_shape m) as (e & -> & He). eexists _, _. split; [reflexivity | auto].
  - destruct (String.eqb (default "" (VideoRoute.vb_mode body)) "text-to-video") eqn:Ht;
      simpl; [|left; split; [reflexivity | eexists _, _; split; [reflexivity | auto]]].
    apply String.eqb_eq in Ht. right.
    destruct (generate_shape JSON_parse net
                {| VideoRoute.vp_model :=
                     str_or (VideoRoute.vb_model body) "kling/v2-5-turbo-text-to-video-pro";
                   VideoRoute.vp_callBackUrl := "";
                   VideoRoute.vp_prompt := default "" (VideoRoute.vb_prompt body);
                   VideoRoute.vp_image_url := None;
                   VideoRoute.vp_duration := default "5" (VideoRoute.vb_duration body);
                   VideoRoute.vp_aspect_ratio :=
                     VideoRoute.keep_nonempty (VideoRoute.vb_aspect_ratio body);
                   VideoRoute.vp_negative_prompt :=
                     VideoRoute.keep_nonempty (VideoRoute.vb_negative_prompt body);
                   VideoRoute.vp_cfg_scale := VideoRoute.vb_cfg_scale body |})
      as (taskId & n & Hn & Htr & Hres).
    eexists _, taskId, n. split; [exact Hn|]. split; [exact Htr|].
    split; [exact Hp|]. split; [apply str_or_nonempty; reflexivity|].
    split.
    { simpl. split; [intros _|reflexivity].
      destruct (VideoRoute.vb_mode body) as [m|]; simpl in Ht; [|discriminate].
      rewrite Ht. reflexivity. }
    split; [|exact Hres]. simpl. discriminate.
Qed.

(** X22: for a reply of recordInfo with code 200 and state success
    whose resultJson parses but lists no URL, the try block of kiePoll
    throws KIE returned no resultUrls, its catch replaces that by
    Malformed KIE resultJson, which is what kiePoll throws; the generate
    route answers the same reply with 502 Seedream returned no result
    URLs. *)
Theorem empty_result_is_malformed (JSON_parse : string → option Val)
    (json parsed : Val) :
  is_200 (get json "code") = true →
  is_str "success" (get (get json "data") "state") = true →
  JSON_parse (to_String (js_or (get (get json "data") "resultJson") (VStr "{}")))
  = Some parsed →
  truthy (get (js_or (get parsed "resultUrls") (VArr [])) "length") = false →
  VideoRoute.read_result JSON_parse json = Throw "KIE returned no resultUrls"
  ∧ VideoRoute.kie_classify JSON_parse true json
    = VideoRoute.KThrow "Malformed KIE resultJson"
  ∧ RouteTs.classify JSON_parse true json
    = Return (error_response 502 (VStr "Seedream returned no result URLs")).
Proof.
  intros Hc Hs Hp Hu.
  assert (Hr : VideoRoute.read_result JSON_parse json = Throw "KIE returned no resultUrls").
  { unfold VideoRoute.read_result. rewrite Hp, Hu. reflexivity. }
  split; [exact Hr|]. split.
  - unfold VideoRoute.kie_classify. rewrite Hc. simpl.
    assert (js_or (get (get json "data") "state") (VStr "unknown")
            = get (get json "data") "state") as ->.
    { unfold js_or. destruct (get (get json "data") "state"); try discriminate.
      simpl in Hs. apply String.eqb_eq in Hs. subst. reflexivity. }
    rewrite Hs, Hr. reflexivity.
  - unfold RouteTs.classify. rewrite Hc, Hs, Hp, Hu. reflexivity.
Qed.

Lemma empty_result_is_malformed_witness :
  fst (VideoRoute.POST parse_no_urls (fun s => s) net_no_urls video_text)
  = {| VideoRoute.v_status := 500;
       VideoRoute.v_body := VideoRoute.VError "Malformed KIE resultJson" |}
  ∧ VideoRoute.kie_classify parse_no_urls true
      (VObj [("code", VNum 200);
             ("data", VObj [("state", VStr "success"); ("resultJson", VStr "no-urls")])])
    = VideoRoute.KThrow "Malformed KIE resultJson".
Proof.
  split; [vm_compute; reflexivity|].
  apply (empty_result_is_malformed parse_no_urls
           (VObj [("code", VNum 200);
                  ("data", VObj [("state", VStr "success"); ("resultJson", VStr "no-urls")])])
           (VObj [("resultUrls", VArr [])]) eq_refl eq_refl eq_refl eq_refl).
Defined.

(* ===================================================================== *)
(** ** Names of files and slugs *)
(* ===================================================================== *)

Lemma replace_runs_chars keep s : ∀ b,
  all_chars (fun c => keep c || is_dash c) (replace_runs keep b s) = true.
Proof.
  induction s as [|c s IH]; intros b; simpl; [reflexivity|].
  destruct (keep c) eqn:Hk; simpl; [rewrite Hk; simpl; apply IH|].
  destruct b; simpl; [apply IH|]. rewrite orb_true_r. simpl. apply IH.
Qed.

(** After a run has been replaced no dash follows at once, and no two
    dashes are ever written side by side. *)
Lemma replace_runs_dashes keep s :
  (∀ c, is_dash c = true → keep c = false) →
  ∀ b, double_dash (replace_runs keep b s) = false
       ∧ (b = true → starts_dash (replace_runs keep b s) = false).
Proof.
  intros Hkeep. induction s as [|c s IH]; intros b; simpl; [auto|].
  destruct (keep c) eqn:Hk.
  - destruct (IH false) as [Hd _]. simpl. rewrite Hd.
    assert (is_dash c = false) as ->.
    { destruct (is_dash c) eqn:Hc; [|reflexivity]. rewrite (Hkeep c Hc) in Hk. discriminate. }
    auto.
  - destruct (IH true) as [Hd Hs]. destruct b; [auto|].
    simpl. rewrite Hd, (Hs eq_refl). split; [reflexivity | discriminate].
Qed.

Lemma all_chars_weaken (P Q : ascii → bool) s :
  (∀ c, P c = true → Q c = true) → all_chars P s = true → all_chars Q s = true.
Proof.
  intros HPQ. induction s as [|c s IH]; simpl; [auto|].
  intros H. apply andb_true_iff in H as [Hc Hs]. rewrite (HPQ c Hc), (IH Hs). reflexivity.
Qed.

Lemma strip_leading_ok P s :
  all_chars P s = true → double_dash s = false →
  all_chars P (strip_leading s) = true
  ∧ double_dash (strip_leading s) = false
  ∧ starts_dash (strip_leading s) = false.
Proof.
  induction s as [|c s IH]; simpl; [auto|].
  intros Ha Hd. apply andb_true_iff in Ha as [Hc Hs].
  apply orb_false_iff in Hd as [Hcd Hdd].
  destruct (is_dash c) eqn:Hdash; [apply IH; assumption|].
  simpl. rewrite Hc, Hs, Hdash, Hdd. auto.
Qed.

Lemma strip_trailing_starts s :
  starts_dash (strip_trailing s) = true → starts_dash s = true.
Proof.
  destruct s as [|c s]; simpl; [auto|].
  destruct (strip_trailing s); [|auto].
  destruct (is_dash c) eqn:Hc; simpl; [discriminate | rewrite Hc; auto].
Qed.

Lemma strip_trailing_ok P s :
  all_chars P s = true → double_dash s = false →
  all_chars P (strip_trailing s) = true
  ∧ double_dash (strip_trailing s) = false
  ∧ ends_dash (strip_trailing s) = false.
Proof.
  induction s as [|c s IH]; simpl; [auto|].
  intros Ha Hd. apply andb_true_iff in Ha as [Hc Hs].
  apply orb_false_iff in Hd as [Hcd Hdd].
  destruct (IH Hs Hdd) as (H1 & H2 & H3).
  pose proof (strip_trailing_starts s) as Hst.
  destruct (strip_trailing s) as [|c' r].
  - destruct (is_dash c) eqn:Hdash; simpl; [auto|]. rewrite Hc, Hdash. auto.
  - split; [simpl; rewrite Hc; exact H1|]. split; [|exact H3].
    change (double_dash (String c (String c' r)))
      with ((is_dash c && starts_dash (String c' r)) || double_dash (String c' r)).
    rewrite H2, orb_false_r.
    destruct (is_dash c) eqn:Hdash; [|reflexivity]. simpl in Hcd |- *.
    destruct (is_dash c') eqn:Hdash'; [|reflexivity].
    rewrite (Hst Hdash') in Hcd. discriminate.
Qed.

Lemma double_dash_cons a s :
  double_dash (String a s) = (is_dash a && starts_dash s) || double_dash s.
Proof. reflexivity. Qed.

Lemma drop_trailing_starts s :
  starts_dash (drop_trailing s) = true → starts_dash s = true.
Proof.
  destruct s as [|c [|c' s']]; simpl; [auto | | auto].
  destruct (is_dash c) eqn:Hc; simpl; [discriminate | rewrite Hc; auto].
Qed.

Lemma drop_trailing_ok P s :
  all_chars P s = true → double_dash s = false →
  all_chars P (drop_trailing s) = true
  ∧ double_dash (drop_trailing s) = false
  ∧ ends_dash (drop_trailing s) = false.
Proof.
  induction s as [|c s IH]; [simpl; auto|].
  intros Ha Hd. simpl in Ha, Hd.
  apply andb_true_iff in Ha as [Hc Hs].
  apply orb_false_iff in Hd as [Hcd Hdd].
  destruct (IH Hs Hdd) as (H1 & H2 & H3).
  pose proof (drop_trailing_starts s) as Hst.
  destruct s as [|c' s'].
  - simpl. destruct (is_dash c) eqn:Hdash; simpl; [auto|]. rewrite Hc, Hdash. auto.
  - change (drop_trailing (String c (String c' s')))
      with (String c (drop_trailing (String c' s'))).
    split; [simpl; rewrite Hc; exact H1|].
    split.
    + rewrite double_dash_cons, H2, orb_false_r.
      destruct (is_dash c) eqn:Hdash; [|reflexivity]. simpl in Hcd.
      destruct (starts_dash (drop_trailing (String c' s'))) eqn:Hx; [|reflexivity].
      simpl in Hst. rewrite (Hst eq_refl) in Hcd. discriminate.
    + destruct (drop_trailing (String c' s')) as [|c0 r] eqn:Hx; [|exact H3].
      (* the tail was a single dash *)
      simpl. destruct s' as [|c'' s'']; [|simpl in Hx; discriminate].
      simpl in Hx. destruct (is_dash c') eqn:Hdash'; [|discriminate].
      simpl in Hcd. rewrite Hdash', andb_true_r in Hcd. exact Hcd.
Qed.

Lemma drop_leading_ok P s :
  all_chars P s = true → double_dash s = false →
  all_chars P (drop_leading s) = true
  ∧ double_dash (drop_leading s) = false
  ∧ starts_dash (drop_leading s) = false.
Proof.
  destruct s as [|c s]; simpl; [auto|].
  intros Ha Hd. apply andb_true_iff in Ha as [Hc Hs].
  apply orb_false_iff in Hd as [Hcd Hdd].
  destruct (is_dash c) eqn:Hdash; simpl.
  - simpl in Hcd. auto.
  - rewrite Hc, Hs, Hdash, Hdd. auto.
Qed.

Lemma replace_runs_keeps P keep s : ∀ b,
  P "-"%char = true → all_chars P s = true →
  all_chars P (replace_runs keep b s) = true.
Proof.
  induction s as [|c s IH]; intros b Hd; simpl; [auto|].
  intros H. apply andb_true_iff in H as [Hc Hs].
  destruct (keep c); simpl; [rewrite Hc; simpl; apply IH; assumption|].
  destruct b; simpl; [|rewrite Hd; simpl]; apply IH; assumption.
Qed.

Lemma dash_not_slug c : is_dash c = true → is_slug_char c = false.
Proof. intros H. apply Ascii.eqb_eq in H. subst c. reflexivity. Qed.

(** X23: whatever toLowerCase returns, a slug made by slugify contains
    only the characters a-z, 0-9 and the dash, does not begin or end with
    a dash, and has no two dashes in a row. *)
Theorem slugify_clean (toLowerCase : string → string) (s : string) :
  all_chars (fun c => is_slug_char c || is_dash c) (slugify toLowerCase s) = true
  ∧ starts_dash (slugify toLowerCase s) = false
  ∧ ends_dash (slugify toLowerCase s) = false
  ∧ double_dash (slugify toLowerCase s) = false.
Proof.
  unfold slugify.
  pose proof (replace_runs_chars is_slug_char (toLowerCase s) false) as Hc.
  destruct (replace_runs_dashes is_slug_char (toLowerCase s) dash_not_slug false) as [Hd _].
  destruct (strip_leading_ok _ _ Hc Hd) as (Hc1 & Hd1 & Hs1).
  destruct (strip_trailing_ok _ _ Hc1 Hd1) as (Hc2 & Hd2 & He2).
  split; [exact Hc2|]. split; [|split; assumption].
  destruct (starts_dash (strip_trailing _)) eqn:Hx; [|reflexivity].
  apply strip_trailing_starts in Hx. congruence.
Qed.

(** X24: whatever toLowerCase returns, a name made by safeName contains
    only the characters a-z, 0-9, the dash and the underscore (so no path
    separator, space or dot), does not begin or end with a dash, and has
    no two dashes in a row. *)
Theorem safeName_clean (toLowerCase : string → string) (s : string) :
  all_chars is_safe_char (safeName toLowerCase s) = true
  ∧ starts_dash (safeName toLowerCase s) = false
  ∧ ends_dash (safeName toLowerCase s) = false
  ∧ double_dash (safeName toLowerCase s) = false.
Proof.
  unfold safeName.
  assert (Hc : all_chars is_safe_char
                 (replace_runs is_safe_char false (toLowerCase s)) = true).
  { apply (all_chars_weaken (fun c => is_safe_char c || is_dash c));
      [|apply replace_runs_chars].
    intros c H. apply orb_true_iff in H as [H|H]; [exact H|].
    unfold is_safe_char. rewrite H, orb_true_r. reflexivity. }
  pose proof (replace_runs_keeps is_safe_char (fun c => negb (is_dash c)) _ false eq_refl Hc)
    as Hc1.
  destruct (replace_runs_dashes (fun c => negb (is_dash c))
              (replace_runs is_safe_char false (toLowerCase s))
              (fun c H => eq_trans (f_equal negb H) eq_refl) false) as [Hd1 _].
  destruct (drop_leading_ok _ _ Hc1 Hd1) as (Hc2 & Hd2 & Hs2).
  destruct (drop_trailing_ok _ _ Hc2 Hd2) as (Hc3 & Hd3 & He3).
  split; [exact Hc3|]. split; [|split; assumption].
  destruct (starts_dash (drop_trailing _)) eqn:Hx; [|reflexivity].
  apply drop_trailing_starts in Hx. congruence.
Qed.
